(** * mybrain: the memory store and its compression pipeline

    A shallow embedding of the bundled plugin code (the Mind store,
    the file lock wrapper, the classifier, the compression engine and
    the OpenCode hook) together with the properties stated for them.

    JavaScript strings are sequences of UTF-16 code units; [length] and
    [slice] count code units, so a string is modelled as [list N].
    Code that touches the file system, the lock library, the storage
    engine, the clock or the console is a function from the state of
    the process to an outcome (a value or a thrown exception) and a new
    state; every call that leaves the program is recorded in a log, and
    what the surroundings answer is a parameter ([Host]).

    The file has three parts: the program, the vocabulary of the
    specification with the concrete situations used as examples, and
    the properties. *)

From Stdlib Require Import List NArith ZArith Bool Lia Ascii.
From Stdlib Require Import Sorting.Sorted Sorting.Permutation.
From Stdlib Require String QArith_base.
Import ListNotations String.StringSyntax.

Set Implicit Arguments.

(* ================================================================= *)
(** ** JavaScript strings and arrays *)

Module JS.

Definition jsstring := list N.

(** An ASCII literal as a JavaScript string. *)
Definition js (s : String.string) : jsstring :=
  map N_of_ascii (String.list_ascii_of_string s).
Arguments js s%_string_scope.

(** A code point above U+FFFF as its surrogate pair. *)
Definition astral (cp : N) : jsstring :=
  [(55296 + (cp - 65536) / 1024)%N; (56320 + (cp - 65536) mod 1024)%N].

Definition LF : N := 10%N.
Definition SLASH : N := 47%N.
Definition DQUOTE : N := 34%N.

Fixpoint str_eqb (a b : jsstring) : bool :=
  match a, b with
  | [], [] => true
  | x :: a', y :: b' => N.eqb x y && str_eqb a' b'
  | _, _ => false
  end.

(** [s.startsWith(p)] *)
Fixpoint startsWith (s p : jsstring) : bool :=
  match p, s with
  | [], _ => true
  | _ :: _, [] => false
  | x :: p', y :: s' => N.eqb x y && startsWith s' p'
  end.

(** [s.includes(sub)] *)
Fixpoint includes (s sub : jsstring) : bool :=
  startsWith s sub ||
  match s with
  | [] => false
  | _ :: s' => includes s' sub
  end.

(** [s.split(sep)] for a one-unit separator: never the empty array. *)
Fixpoint split (sep : N) (s : jsstring) : list jsstring :=
  match s with
  | [] => [[]]
  | c :: rest =>
      if N.eqb c sep then [] :: split sep rest
      else match split sep rest with
           | l :: ls => (c :: l) :: ls
           | [] => [[c]]
           end
  end.

(** [parts.join(sep)] *)
Fixpoint join (sep : jsstring) (parts : list jsstring) : jsstring :=
  match parts with
  | [] => []
  | [p] => p
  | p :: ps => p ++ sep ++ join sep ps
  end.

(** [xs.slice(0, n)] for arrays and strings, [n >= 0]. *)
Definition slice0 {A} (n : nat) (xs : list A) : list A := firstn n xs.

(** [xs.slice(-n)]: the last [n] elements (all of them when shorter). *)
Definition slice_last {A} (n : nat) (xs : list A) : list A :=
  skipn (length xs - n) xs.

(** [xs.slice(0, -1)] *)
Definition slice_init {A} (xs : list A) : list A := removelast xs.

(** [xs.pop()] on a non-mutated temporary: the last element. *)
Definition pop (xs : list jsstring) : option jsstring :=
  match xs with
  | [] => None
  | _ => Some (last xs [])
  end.

(** [a || b] on strings: the empty string and [undefined] are falsy. *)
Definition or_str (a : option jsstring) (b : jsstring) : jsstring :=
  match a with
  | Some (c :: s) => c :: s
  | _ => b
  end.

(** [xs.filter(Boolean)] on an array of strings. *)
Definition filter_nonempty (xs : list jsstring) : list jsstring :=
  filter (fun s => match s with [] => false | _ => true end) xs.

(** [String(n)] and [`${n}`] for a non-negative integer. *)
Fixpoint uint_units (d : Decimal.uint) : jsstring :=
  match d with
  | Decimal.Nil => []
  | Decimal.D0 d => 48%N :: uint_units d
  | Decimal.D1 d => 49%N :: uint_units d
  | Decimal.D2 d => 50%N :: uint_units d
  | Decimal.D3 d => 51%N :: uint_units d
  | Decimal.D4 d => 52%N :: uint_units d
  | Decimal.D5 d => 53%N :: uint_units d
  | Decimal.D6 d => 54%N :: uint_units d
  | Decimal.D7 d => 55%N :: uint_units d
  | Decimal.D8 d => 56%N :: uint_units d
  | Decimal.D9 d => 57%N :: uint_units d
  end.

Definition num (n : nat) : jsstring := uint_units (N.to_uint (N.of_nat n)).

(** [s.toLowerCase()], one code unit at a time.  Basic Latin and
    Latin-1 are mapped as JavaScript maps them; other units are left as
    they are.  The code only searches the lowered text for ASCII words,
    and for those the answer is the same as with the full mapping: the
    only other units that lower to ASCII letters are U+212A (to [k]) and
    U+0130 (to [i] followed by U+0307), and none of the words searched
    for contains [k] or ends in [i]. *)
Definition lower_unit (c : N) : N :=
  if (N.leb 65 c && N.leb c 90) then (c + 32)%N
  else if (N.leb 192 c && N.leb c 222 && negb (N.eqb c 215)) then (c + 32)%N
  else c.

Definition toLowerCase (s : jsstring) : jsstring := map lower_unit s.

(** White space and line terminators, as [trim] and [\s] see them. *)
Definition is_space (c : N) : bool :=
  (N.leb 9 c && N.leb c 13) || N.eqb c 32 || N.eqb c 160 || N.eqb c 5760
  || (N.leb 8192 c && N.leb c 8202) || N.eqb c 8232 || N.eqb c 8233
  || N.eqb c 8239 || N.eqb c 8287 || N.eqb c 12288 || N.eqb c 65279.

Fixpoint trimStart (s : jsstring) : jsstring :=
  match s with
  | c :: s' => if is_space c then trimStart s' else s
  | [] => []
  end.

Definition trim (s : jsstring) : jsstring :=
  rev (trimStart (rev (trimStart s))).

(** [[...new Set(xs)]]: first occurrences, in order. *)
Fixpoint dedupe_by {A} (eqb : A -> A -> bool) (seen xs : list A) : list A :=
  match xs with
  | [] => []
  | x :: xs' =>
      if existsb (eqb x) seen then dedupe_by eqb seen xs'
      else x :: dedupe_by eqb (x :: seen) xs'
  end.

(** [xs.sort(cmp)] is stable; [before x y] says [cmp(x, y) <= 0]. *)
Fixpoint sort_insert {A} (before : A -> A -> bool) (x : A) (l : list A)
  : list A :=
  match l with
  | [] => [x]
  | y :: l' => if before x y then x :: l else y :: sort_insert before x l'
  end.

Definition stable_sort {A} (before : A -> A -> bool) (l : list A) : list A :=
  fold_right (sort_insert before) [] l.

End JS.

Import JS.

(* ================================================================= *)
(** ** src/types.ts and src/utils/helpers.ts *)

Inductive ObservationType :=
| discovery | decision | problem | solution | success | warning
| bugfix | refactor | feature | session.

Definition estimateTokens (text : jsstring) : nat :=
  (length text + 3) / 4.

Definition classifyObservationType (toolName output : jsstring)
  : ObservationType :=
  let lowerOutput := toLowerCase output in
  if includes lowerOutput (js "error") || includes lowerOutput (js "failed")
     || includes lowerOutput (js "exception") then problem
  else if includes lowerOutput (js "success")
          || includes lowerOutput (js "passed")
          || includes lowerOutput (js "completed") then success
  else if includes lowerOutput (js "warning")
          || includes lowerOutput (js "deprecated") then warning
  else if str_eqb toolName (js "Read") || str_eqb toolName (js "Glob")
          || str_eqb toolName (js "Grep") then discovery
  else if str_eqb toolName (js "Edit") then
         if includes lowerOutput (js "fix") || includes lowerOutput (js "bug")
         then bugfix else refactor
  else if str_eqb toolName (js "Write") then feature
  else discovery.

(* ================================================================= *)
(** ** Exceptions *)

(** A thrown value: an [Error] object with its message, or any other
    value with the text [String(value)] gives for it. *)
Inductive Thrown :=
| JsError (message : jsstring)
| JsValue (text : jsstring).

Inductive Outcome (A : Type) :=
| Ok (a : A)
| Throw (e : Thrown).
Arguments Ok {A} a.
Arguments Throw {A} e.

(** The runtime's [TypeError] for calling something that is no function. *)
Definition not_a_function (what : String.string) : Thrown :=
  JsError (js what ++ js " is not a function").
Arguments not_a_function what%_string_scope.

(* ================================================================= *)
(** ** src/utils/compression.ts *)

Module Compression.

Definition TARGET_COMPRESSED_SIZE : nat := 2000.
Definition COMPRESSION_THRESHOLD : nat := 3000.

Record CompressionResult := {
  compressed : jsstring;
  wasCompressed : bool;
  originalSize : nat
}.

(** The fields of [toolInput] the summarizers read, each a string when
    present; [toolInput] itself may be [undefined]. *)
Record ToolInput := {
  file_path : option jsstring;
  command : option jsstring;
  pattern : option jsstring
}.

Definition field (f : ToolInput -> option jsstring) (ti : option ToolInput)
  : option jsstring :=
  match ti with
  | Some t => f t
  | None => None
  end.

(** What [JSON.parse] returns.  Of a number the code only observes
    whether it is truthy. *)
#[local] Unset Elimination Schemes.
Inductive JsonValue :=
| JNull
| JBool (b : bool)
| JNumber (nonzero : bool)
| JString (s : jsstring)
| JArray (items : list JsonValue)
| JObject (props : list (jsstring * JsonValue)).
#[local] Set Elimination Schemes.

(** The regular expression literals of the extractors.  Their matching
    is the runtime's; the code only consumes the successive matches. *)
Inductive SourceRegExp :=
| re_import_from      (* import {a, b} from 'm'  /  import a from 'm' *)
| re_from_import      (* from 'm' import *)
| re_require          (* require('m') *)
| re_use              (* use a::b *)
| re_export_decl      (* export [default] function|class|const|let|var x *)
| re_export_list      (* export { a, b } *)
| re_pub              (* pub fn|struct|enum|trait|mod x *)
| re_function         (* [async] function f *)
| re_arrow_prop       (* f: [async] (..) => *)
| re_arrow_const      (* const|let f = [async] (..) => *)
| re_fn               (* fn f *)
| re_def              (* def f *)
| re_class            (* class C *)
| re_struct           (* struct C *)
| re_interface        (* interface C *)
| re_type.            (* type C = *)

(** One result of [pattern.exec(code)]: [match[0]] and the groups
    [match[1]], [match[2]], ... ([None] for [undefined]). *)
Record Match := {
  whole : jsstring;
  groups : list (option jsstring)
}.

Definition group (i : nat) (m : Match) : option jsstring :=
  nth (pred i) (groups m) None.

Definition truncateToTarget (text : jsstring) : jsstring :=
  if length text <=? TARGET_COMPRESSED_SIZE then text
  else slice0 (TARGET_COMPRESSED_SIZE - 20) text
       ++ LF :: js "... (compressed)".

Definition bash_error_line (l : jsstring) : bool :=
  includes (toLowerCase l) (js "error")
  || includes (toLowerCase l) (js "failed")
  || includes (toLowerCase l) (js "exception")
  || includes (toLowerCase l) (js "warning").

Definition bash_success_line (l : jsstring) : bool :=
  includes (toLowerCase l) (js "success")
  || includes (toLowerCase l) (js "passed")
  || includes (toLowerCase l) (js "completed")
  || includes (toLowerCase l) (js "done").

Definition compressBashOutput (toolInput : option ToolInput)
  (output : jsstring) : jsstring :=
  let command := or_str (field command toolInput) (js "command") in
  let shortCmd := slice0 100 (hd [] (split LF command)) in
  let lines := split LF output in
  let errorLines := filter bash_error_line lines in
  let successLines := filter bash_success_line lines in
  let parts := [astral 128421 ++ 65039%N :: js " Command: " ++ shortCmd] in
  let parts :=
    if 0 <? length errorLines then
      parts ++ [LF :: 10060%N :: js " Errors (" ++ num (length errorLines)
                   ++ js "):";
                join [LF] (slice0 10 errorLines)]
    else parts in
  let parts :=
    if 0 <? length successLines then
      parts ++ [LF :: 9989%N :: js " Success indicators:";
                join [LF] (slice0 5 successLines)]
    else parts in
  let parts :=
    parts ++ [LF :: astral 128202 ++ js " Output: " ++ num (length lines)
                 ++ js " lines total"] in
  let parts :=
    if 20 <? length lines then
      parts ++ [LF :: js "--- First 10 lines ---";
                join [LF] (slice0 10 lines);
                LF :: js "--- Last 5 lines ---";
                join [LF] (slice_last 5 lines)]
    else
      parts ++ [LF :: js "--- Full output ---";
                join [LF] lines] in
  join [] parts.

Definition compressEditOutput (toolInput : option ToolInput)
  (output : jsstring) : jsstring :=
  let filePath := or_str (field file_path toolInput) (js "unknown") in
  let fileName := or_str (pop (split SLASH filePath)) (js "file") in
  join [LF]
    [9999%N :: 65039%N :: js " Edited: " ++ fileName;
     astral 128221 ++ js " Changes applied successfully";
     slice0 500 output].

Definition compressGeneric (output : jsstring) : jsstring :=
  let lines := split LF output in
  if length lines <=? 30 then output
  else
    join [LF]
      ([astral 128202 ++ js " Output: " ++ num (length lines) ++ js " lines";
        js "--- First 15 lines ---"]
       ++ slice0 15 lines
       ++ [js "--- Last 10 lines ---"]
       ++ slice_last 10 lines).

(** [line.match(/^([^:]+):/)]: the text before the first colon, when
    there is a colon and that text is not empty. *)
Fixpoint before_colon (line : jsstring) : option jsstring :=
  match line with
  | [] => None
  | c :: rest =>
      if N.eqb c 58 then Some []
      else option_map (cons c) (before_colon rest)
  end.

Definition grep_file_of (line : jsstring) : option jsstring :=
  match before_colon line with
  | Some (c :: f) => Some (c :: f)
  | _ => None
  end.

Fixpoint grep_files (lines : list jsstring) : list jsstring :=
  match lines with
  | [] => []
  | line :: rest =>
      match grep_file_of line with
      | Some f => f :: grep_files rest
      | None => grep_files rest
      end
  end.

Definition more_suffix (n limit : nat) : jsstring :=
  if limit <? n then js " (+" ++ num (n - limit) ++ js " more)" else [].

Definition compressGrepOutput (toolInput : option ToolInput)
  (output : jsstring) : jsstring :=
  let pattern := or_str (field pattern toolInput) (js "pattern") in
  let lines := filter_nonempty (split LF output) in
  let files := dedupe_by str_eqb [] (grep_files lines) in
  let parts :=
    [astral 128269 ++ js " Grep: " ++ DQUOTE :: slice0 50 pattern ++ [DQUOTE];
     astral 128193 ++ js " Found in " ++ num (length files) ++ js " files, "
       ++ num (length lines) ++ js " matches"] in
  let parts :=
    if 0 <? length files then
      parts ++ [LF :: astral 128194 ++ js " Files: "
                   ++ join (js ", ") (slice0 15 files)
                   ++ more_suffix (length files) 15]
    else parts in
  let parts :=
    parts ++ [LF :: js "--- Top matches ---"; join [LF] (slice0 10 lines)] in
  let parts :=
    if 10 <? length lines then
      parts ++ [LF :: js "... and " ++ num (length lines - 10)
                   ++ js " more matches"]
    else parts in
  join [] parts.

(** *** The glob summarizer *)

(** [byDir] is an ordinary object: its own properties in insertion
    order, and behind them the properties of [Object.prototype]. *)
Definition ByDir := list (jsstring * list jsstring).

Definition Object_prototype_keys : list jsstring :=
  [js "constructor"; js "__defineGetter__"; js "__defineSetter__";
   js "hasOwnProperty"; js "__lookupGetter__"; js "__lookupSetter__";
   js "isPrototypeOf"; js "propertyIsEnumerable"; js "toString";
   js "valueOf"; js "__proto__"; js "toLocaleString"].

Definition has_own (byDir : ByDir) (k : jsstring) : bool :=
  existsb (fun e => str_eqb (fst e) k) byDir.

Fixpoint push_own (byDir : ByDir) (k file : jsstring) : ByDir :=
  match byDir with
  | [] => []
  | (d, fs) :: rest =>
      if str_eqb d k then (d, fs ++ [file]) :: rest
      else (d, fs) :: push_own rest k file
  end.

(** The body of [files.forEach((f) => ...)] for one element. *)
Definition glob_group (byDir : ByDir) (f : JsonValue) : Outcome ByDir :=
  match f with
  | JString f =>
      let dir := or_str (Some (join [SLASH] (slice_init (split SLASH f))))
                        [SLASH] in
      let file := or_str (pop (split SLASH f)) f in
      if has_own byDir dir then Ok (push_own byDir dir file)
      else if existsb (str_eqb dir) Object_prototype_keys
           then Throw (not_a_function "byDir[dir].push")
           else Ok (byDir ++ [(dir, [file])])
  | JNull =>
      Throw (JsError (js "Cannot read properties of null (reading 'split')"))
  | _ => Throw (not_a_function "f.split")
  end.

Fixpoint glob_group_all (byDir : ByDir) (files : list JsonValue)
  : Outcome ByDir :=
  match files with
  | [] => Ok byDir
  | f :: rest =>
      match glob_group byDir f with
      | Ok byDir' => glob_group_all byDir' rest
      | Throw e => Throw e
      end
  end.

(** Array-index keys come first in [Object.entries], in ascending order. *)
Definition is_digit (c : N) : bool := N.leb 48 c && N.leb c 57.

Definition decimal_value (k : jsstring) : N :=
  fold_left (fun acc c => (acc * 10 + (c - 48))%N) k 0%N.

Definition array_index (k : jsstring) : option N :=
  match k with
  | [] => None
  | c :: rest =>
      if forallb is_digit k
         && (negb (N.eqb c 48) || match rest with [] => true | _ => false end)
         && N.ltb (decimal_value k) 4294967295
      then Some (decimal_value k) else None
  end.

Definition index_before (a b : jsstring * list jsstring) : bool :=
  match array_index (fst a), array_index (fst b) with
  | Some i, Some j => N.leb i j
  | _, _ => true
  end.

Definition Object_entries (byDir : ByDir) : ByDir :=
  stable_sort index_before
    (filter (fun e => match array_index (fst e) with
                      | Some _ => true | None => false end) byDir)
  ++ filter (fun e => match array_index (fst e) with
                      | Some _ => false | None => true end) byDir.

Definition more_files_first (a b : jsstring * list jsstring) : bool :=
  length (snd b) <=? length (snd a).

Definition glob_base_name (f : JsonValue) : jsstring :=
  match f with
  | JString f => or_str (pop (split SLASH f)) []
  | _ => []
  end.

Fixpoint lookup_prop (k : jsstring) (props : list (jsstring * JsonValue))
  : option JsonValue :=
  match props with
  | [] => None
  | (k', v) :: rest => if str_eqb k' k then Some v else lookup_prop k rest
  end.

Definition truthy (v : JsonValue) : bool :=
  match v with
  | JNull => false
  | JBool b => b
  | JNumber nz => nz
  | JString s => match s with [] => false | _ => true end
  | JArray _ | JObject _ => true
  end.

Section Builtins.

(** [JSON.parse]: [None] when it throws a [SyntaxError]. *)
Variable JSON_parse : jsstring -> option JsonValue.

(** All matches of a global regular expression in a text, as the loop
    [while ((match = pattern.exec(code)) !== null)] sees them. *)
Variable RegExp_matches : SourceRegExp -> jsstring -> list Match.

(** The value of [files] after the [try]/[catch]. *)
Definition glob_files (output : jsstring) : JsonValue :=
  let fallback := JArray (map JString (filter_nonempty (split LF output))) in
  match JSON_parse output with
  | None => fallback
  | Some JNull => fallback
  | Some (JObject props) =>
      match lookup_prop (js "filenames") props with
      | Some v => if truthy v then v else JArray []
      | None => JArray []
      end
  | Some _ => JArray []
  end.

Definition compressGlobOutput (toolInput : option ToolInput)
  (output : jsstring) : Outcome jsstring :=
  let pattern := or_str (field pattern toolInput) (js "pattern") in
  match glob_files output with
  | JArray files =>
      match glob_group_all [] files with
      | Throw e => Throw e
      | Ok byDir =>
          let parts :=
            [astral 128194 ++ js " Glob: " ++ DQUOTE :: slice0 50 pattern
               ++ [DQUOTE];
             astral 128193 ++ js " Found " ++ num (length files)
               ++ js " files in " ++ num (length byDir)
               ++ js " directories"] in
          let topDirs :=
            slice0 5 (stable_sort more_files_first (Object_entries byDir)) in
          let parts := parts ++ [LF :: js "--- Top directories ---"] in
          let parts :=
            parts ++ map (fun e =>
                            join [SLASH] (slice_last 3 (split SLASH (fst e)))
                            ++ js "/ (" ++ num (length (snd e))
                            ++ js " files)") topDirs in
          let parts := parts ++ [LF :: js "--- Sample files ---"] in
          let parts :=
            parts ++ [join (js ", ") (map glob_base_name (slice0 15 files))] in
          Ok (join [] parts)
      end
  | _ => Throw (not_a_function "files.forEach")
  end.

(** *** The file-read summarizer *)

Definition opt_eqb (a b : option jsstring) : bool :=
  match a, b with
  | Some x, Some y => str_eqb x y
  | None, None => true
  | _, _ => false
  end.

(** An array element inside [join]: [undefined] prints as nothing. *)
Definition opt_text (o : option jsstring) : jsstring :=
  match o with
  | Some s => s
  | None => []
  end.

Definition extractImports (code : jsstring) : list jsstring :=
  let patterns := [re_import_from; re_from_import; re_require; re_use] in
  let imports :=
    flat_map (fun p =>
      map (fun m =>
             or_str (group 3 m)
               (or_str (group 1 m) (or_str (group 2 m) (whole m))))
          (RegExp_matches p code)) patterns in
  dedupe_by str_eqb [] imports.

Definition extractExports (code : jsstring) : list jsstring :=
  let patterns := [re_export_decl; re_export_list; re_pub] in
  let exports :=
    flat_map (fun p =>
      flat_map (fun m =>
                  filter_nonempty
                    (map trim (split 44 (or_str (group 1 m) []))))
               (RegExp_matches p code)) patterns in
  dedupe_by str_eqb [] exports.

Definition extractFunctionSignatures (code : jsstring)
  : list (option jsstring) :=
  let patterns := [re_function; re_arrow_prop; re_arrow_const; re_fn; re_def] in
  let functions :=
    flat_map (fun p => map (group 1) (RegExp_matches p code)) patterns in
  dedupe_by opt_eqb [] functions.

Definition extractClassNames (code : jsstring) : list (option jsstring) :=
  let patterns := [re_class; re_struct; re_interface; re_type] in
  let classes :=
    flat_map (fun p => map (group 1) (RegExp_matches p code)) patterns in
  dedupe_by opt_eqb [] classes.

Definition extractErrorPatterns (code : jsstring) : list jsstring :=
  let lines := split LF code in
  let errors :=
    map (fun line => slice0 100 (trim line))
      (filter (fun line =>
                 includes line (js "TODO") || includes line (js "FIXME")
                 || includes line (js "HACK") || includes line (js "XXX")
                 || includes line (js "BUG")) lines) in
  slice0 10 errors.

Definition compressFileRead (toolInput : option ToolInput)
  (output : jsstring) : jsstring :=
  let filePath := or_str (field file_path toolInput) (js "unknown") in
  let fileName := or_str (pop (split SLASH filePath)) (js "file") in
  let lines := split LF output in
  let totalLines := length lines in
  let imports := extractImports output in
  let exports := extractExports output in
  let functions := extractFunctionSignatures output in
  let classes := extractClassNames output in
  let errors := extractErrorPatterns output in
  let parts :=
    [astral 128196 ++ js " File: " ++ fileName ++ js " (" ++ num totalLines
       ++ js " lines)"] in
  let parts :=
    if 0 <? length imports then
      parts ++ [LF :: astral 128230 ++ js " Imports: "
                   ++ join (js ", ") (slice0 10 imports)
                   ++ more_suffix (length imports) 10]
    else parts in
  let parts :=
    if 0 <? length exports then
      parts ++ [LF :: astral 128228 ++ js " Exports: "
                   ++ join (js ", ") (slice0 10 exports)
                   ++ more_suffix (length exports) 10]
    else parts in
  let parts :=
    if 0 <? length functions then
      parts ++ [LF :: 9889%N :: js " Functions: "
                   ++ join (js ", ") (map opt_text (slice0 10 functions))
                   ++ more_suffix (length functions) 10]
    else parts in
  let parts :=
    if 0 <? length classes then
      parts ++ [LF :: astral 127959 ++ 65039%N :: js " Classes: "
                   ++ join (js ", ") (map opt_text classes)]
    else parts in
  let parts :=
    if 0 <? length errors then
      parts ++ [LF :: 9888%N :: 65039%N :: js " Errors/TODOs: "
                   ++ join (js "; ") (slice0 5 errors)]
    else parts in
  let contextLines :=
    [LF :: js "--- First 10 lines ---"] ++ slice0 10 lines
    ++ [LF :: js "--- Last 5 lines ---"] ++ slice_last 5 lines in
  let parts := parts ++ [join [LF] contextLines] in
  join [] parts.

(** *** The dispatcher *)

Definition compressToolOutput (toolName : jsstring)
  (toolInput : option ToolInput) (output : jsstring)
  : Outcome CompressionResult :=
  let originalSize := length output in
  if originalSize <=? COMPRESSION_THRESHOLD then
    Ok {| compressed := output; wasCompressed := false;
          originalSize := originalSize |}
  else
    let summary :=
      if str_eqb toolName (js "Read") then Ok (compressFileRead toolInput output)
      else if str_eqb toolName (js "Bash")
      then Ok (compressBashOutput toolInput output)
      else if str_eqb toolName (js "Grep")
      then Ok (compressGrepOutput toolInput output)
      else if str_eqb toolName (js "Glob")
      then compressGlobOutput toolInput output
      else if str_eqb toolName (js "Edit") || str_eqb toolName (js "Write")
      then Ok (compressEditOutput toolInput output)
      else Ok (compressGeneric output) in
    match summary with
    | Ok text =>
        Ok {| compressed := truncateToTarget text; wasCompressed := true;
              originalSize := originalSize |}
    | Throw e => Throw e
    end.

End Builtins.

End Compression.

(* ================================================================= *)
(** ** node:path (POSIX) *)

Module Path.

Definition dot : jsstring := js ".".
Definition dotdot : jsstring := js "..".

(** One segment of [normalizeString]. *)
Definition norm_step (allowAboveRoot : bool) (acc : list jsstring)
  (seg : jsstring) : list jsstring :=
  if str_eqb seg [] || str_eqb seg dot then acc
  else if str_eqb seg dotdot then
    match acc with
    | [] => if allowAboveRoot then [dotdot] else []
    | _ => if str_eqb (last acc []) dotdot
           then (if allowAboveRoot then acc ++ [dotdot] else acc)
           else removelast acc
    end
  else acc ++ [seg].

Definition normalizeString (path : jsstring) (allowAboveRoot : bool)
  : jsstring :=
  join [SLASH] (fold_left (norm_step allowAboveRoot) (split SLASH path) []).

Definition isAbsolute (p : jsstring) : bool :=
  match p with
  | c :: _ => N.eqb c SLASH
  | [] => false
  end.

(** The right-to-left loop of [resolve]: [paths] is given last-first,
    followed by the working directory. *)
Fixpoint resolve_loop (rpaths : list jsstring) (resolvedPath : jsstring)
  : jsstring * bool :=
  match rpaths with
  | [] => (resolvedPath, false)
  | p :: rest =>
      match p with
      | [] => resolve_loop rest resolvedPath
      | _ =>
          if isAbsolute p then (p ++ SLASH :: resolvedPath, true)
          else resolve_loop rest (p ++ SLASH :: resolvedPath)
      end
  end.

(** [resolve(...paths)] in a process whose working directory is [cwd]. *)
Definition resolve (cwd : jsstring) (paths : list jsstring) : jsstring :=
  let '(resolvedPath, resolvedAbsolute) :=
    resolve_loop (rev paths ++ [cwd]) [] in
  let normalized := normalizeString resolvedPath (negb resolvedAbsolute) in
  if resolvedAbsolute then SLASH :: normalized
  else match normalized with
       | [] => dot
       | _ => normalized
       end.

(** The backwards scan of [dirname] over [path.slice(1)], reversed:
    what precedes the separator that ends the directory part. *)
Fixpoint dirname_cut (r : jsstring) (matchedSlash : bool) : option jsstring :=
  match r with
  | [] => None
  | c :: r' =>
      if N.eqb c SLASH then
        (if matchedSlash then dirname_cut r' true else Some r')
      else dirname_cut r' false
  end.

Definition dirname (path : jsstring) : jsstring :=
  match path with
  | [] => dot
  | c0 :: t =>
      match dirname_cut (rev t) true with
      | None => if N.eqb c0 SLASH then [SLASH] else dot
      | Some [] => if N.eqb c0 SLASH then [SLASH; SLASH] else [c0]
      | Some r' => c0 :: rev r'
      end
  end.

End Path.

(* ================================================================= *)
(** ** Regular expressions built at run time

    [pruneBackups] builds its pattern from the base name of the memory
    file.  The sources interpreted here are anchored sequences of
    literal units, [\.], [.] and [\d], with [+] allowed on the last
    item only; matching them needs no backtracking.  Any other source
    is left to the host's engine. *)

Module RegExpLite.

Inductive Atom :=
| ALit (c : N)
| AAny
| ADigit.

Record Piece := { atom : Atom; plus : bool }.

Definition is_syntax_char (c : N) : bool :=
  existsb (N.eqb c) (js "^$\.*+?()[]{}|").

Definition is_line_terminator (c : N) : bool :=
  N.eqb c 10 || N.eqb c 13 || N.eqb c 8232 || N.eqb c 8233.

Definition atom_matches (a : Atom) (c : N) : bool :=
  match a with
  | ALit x => N.eqb x c
  | AAny => negb (is_line_terminator c)
  | ADigit => N.leb 48 c && N.leb c 57
  end.

Definition escaped_atom (c : N) : option Atom :=
  if N.eqb c 46 then Some (ALit 46)
  else if N.eqb c 100 then Some ADigit
  else None.

Definition plain_atom (c : N) : option Atom :=
  if N.eqb c 46 then Some AAny
  else if is_syntax_char c then None
  else Some (ALit c).

Definition cons_piece (a : Atom) (p : bool) (r : option (list Piece))
  : option (list Piece) :=
  option_map (cons {| atom := a; plus := p |}) r.

Fixpoint parse_body (s : jsstring) : option (list Piece) :=
  match s with
  | [] => Some []
  | c :: s1 =>
      if N.eqb c 92 then
        match s1 with
        | [] => None
        | d :: s2 =>
            match escaped_atom d with
            | None => None
            | Some a =>
                match s2 with
                | q :: s3 =>
                    if N.eqb q 43 then cons_piece a true (parse_body s3)
                    else cons_piece a false (parse_body s2)
                | [] => cons_piece a false (parse_body s2)
                end
            end
        end
      else
        match plain_atom c with
        | None => None
        | Some a =>
            match s1 with
            | q :: s2 =>
                if N.eqb q 43 then cons_piece a true (parse_body s2)
                else cons_piece a false (parse_body s1)
            | [] => cons_piece a false (parse_body s1)
            end
        end
  end.

(** [^body$] *)
Definition compile (src : jsstring) : option (list Piece) :=
  match src with
  | c :: rest =>
      if N.eqb c 94 then
        match rev rest with
        | d :: rbody => if N.eqb d 36 then parse_body (rev rbody) else None
        | [] => None
        end
      else None
  | [] => None
  end.

(** [None]: a repetition that is not the last item. *)
Fixpoint match_pieces (ps : list Piece) (s : jsstring) : option bool :=
  match ps with
  | [] => Some (match s with [] => true | _ => false end)
  | p :: ps' =>
      if plus p then
        match ps' with
        | [] => Some (match s with
                      | [] => false
                      | _ => forallb (atom_matches (atom p)) s
                      end)
        | _ => None
        end
      else
        match s with
        | [] => Some false
        | c :: s' =>
            if atom_matches (atom p) c then match_pieces ps' s'
            else Some false
        end
  end.

(** [new RegExp(src).test(s)] when [src] is interpreted here. *)
Definition test (src s : jsstring) : option bool :=
  match compile src with
  | Some ps => match_pieces ps s
  | None => None
  end.

End RegExpLite.

(* ================================================================= *)
(** ** The store: data *)

Definition type_name (t : ObservationType) : jsstring :=
  match t with
  | discovery => js "discovery" | decision => js "decision"
  | problem => js "problem" | solution => js "solution"
  | success => js "success" | warning => js "warning"
  | bugfix => js "bugfix" | refactor => js "refactor"
  | feature => js "feature" | session => js "session"
  end.

Record Config := {
  memoryPath : jsstring;
  maxContextObservations : Z;
  maxContextTokens : Z;
  autoCompress : bool;
  minConfidence : QArith_base.Q;
  debug : bool
}.

Definition DEFAULT_CONFIG : Config := {|
  memoryPath := js ".claude/mind.mv2";
  maxContextObservations := 20;
  maxContextTokens := 2000;
  autoCompress := true;
  minConfidence := QArith_base.Qmake 3 5;
  debug := false
|}.

(** A partial configuration, as [Mind.open] and [getMind] take it. *)
Record ConfigOverrides := {
  o_memoryPath : option jsstring;
  o_maxContextObservations : option Z;
  o_maxContextTokens : option Z;
  o_autoCompress : option bool;
  o_minConfidence : option QArith_base.Q;
  o_debug : option bool
}.

Definition no_overrides : ConfigOverrides :=
  {| o_memoryPath := None; o_maxContextObservations := None;
     o_maxContextTokens := None; o_autoCompress := None;
     o_minConfidence := None; o_debug := None |}.

Definition override {A} (o : option A) (d : A) : A :=
  match o with
  | Some a => a
  | None => d
  end.

(** [{ ...DEFAULT_CONFIG, ...configOverrides }] *)
Definition merge_config (c : Config) (o : ConfigOverrides) : Config := {|
  memoryPath := override (o_memoryPath o) (memoryPath c);
  maxContextObservations :=
    override (o_maxContextObservations o) (maxContextObservations c);
  maxContextTokens := override (o_maxContextTokens o) (maxContextTokens c);
  autoCompress := override (o_autoCompress o) (autoCompress c);
  minConfidence := override (o_minConfidence o) (minConfidence c);
  debug := override (o_debug o) (debug c)
|}.

(** A handle of the storage engine: the file it serves and whether it
    came from [create] or from [use]. *)
Record Memvid := { mv_path : jsstring; mv_created : bool }.

Record Mind := {
  memvid : Memvid;
  config : Config;
  sessionId : jsstring;
  initialized : bool
}.

(** Frames as the engine returns them; every field may be missing. *)
Record FrameMetadata := {
  fm_observationId : option jsstring;
  fm_timestamp : option Z;
  fm_type : option jsstring;
  fm_tool : option jsstring
}.

Record Frame := {
  f_metadata : option FrameMetadata;
  f_frame_id : option jsstring;
  f_timestamp : option Z;
  f_label : option jsstring;
  f_title : option jsstring;
  f_preview : option jsstring;
  f_text : option jsstring;
  f_score : option Z;
  f_snippet : option jsstring
}.

(** [timeline] answers with an array or with an object holding one. *)
Inductive Timeline :=
| TimelineArray (frames : list Frame)
| TimelineObject (frames : option (list Frame)).

Record FindResult := { fr_frames : option (list Frame) }.
Record AskResult := { ar_answer : option jsstring }.
Record EngineStats := { frame_count : option Z; size_bytes : option Z }.

Record Observation := {
  ob_id : option jsstring;
  ob_timestamp : Z;
  ob_type : option jsstring;
  ob_tool : option jsstring;
  ob_summary : jsstring;
  ob_content : jsstring;
  ob_metadata : option FrameMetadata
}.

Record SearchResult := {
  sr_observation : Observation;
  sr_score : Z;
  sr_snippet : jsstring
}.

Record SessionSummaryInput := {
  si_keyDecisions : list jsstring;
  si_filesModified : list jsstring;
  si_summary : jsstring
}.

Record SessionSummary := {
  ss_id : jsstring;
  ss_startTime : Z;
  ss_endTime : Z;
  ss_observationCount : Z;
  ss_keyDecisions : list jsstring;
  ss_filesModified : list jsstring;
  ss_summary : jsstring
}.

Record Context := {
  recentObservations : list Observation;
  relevantMemories : list Observation;
  sessionSummaries : list SessionSummary;
  tokenCount : nat
}.

Record MindStats := {
  totalObservations : Z;
  totalSessions : Z;
  oldestMemory : Z;
  newestMemory : Z;
  fileSize : Z;
  topTypes : list (jsstring * Z)
}.

Record RememberInput := {
  ri_type : ObservationType;
  ri_summary : jsstring;
  ri_content : jsstring;
  ri_tool : option jsstring;
  ri_metadata : option Compression.ToolInput
}.

(** The metadata object handed to [put]: of an observation (the
    caller's own metadata spread last) or a whole session summary. *)
Inductive PutMetadata :=
| ObservationMetadata (observationId : jsstring) (timestamp : Z)
    (tool : option jsstring) (sessionId : jsstring)
    (rest : option Compression.ToolInput)
| SummaryMetadata (s : SessionSummary).

Record PutArgs := {
  pa_title : jsstring;
  pa_label : jsstring;
  pa_text : jsstring;
  pa_metadata : PutMetadata;
  pa_tags : list jsstring
}.

(** Lines written with [console.error]. *)
Inductive LogLine :=
| LogTooLarge (bytes : Z)      (* Memory file too large ... Creating fresh memory *)
| LogCorrupted                 (* Memory file corrupted, creating fresh memory *)
| LogPruned (name : jsstring)  (* Pruned old backup: name *)
| LogOpened (path : jsstring)  (* Opened: path *)
| LogRemembered (summary : jsstring)
| LogCaptureError (e : Thrown) (* Error capturing observation *)
| LogIdleError (e : Thrown).   (* Error in session.idle *)

(** Every call that leaves the program: file system, lock library,
    storage engine, clock, random source and console. *)
Inductive Call :=
| c_import_sdk
| c_mkdir (p : jsstring)
| c_touch (p : jsstring)        (* open(p, "a") and close *)
| c_lock (p : jsstring)
| c_release (p : jsstring)
| c_stat (p : jsstring)
| c_rename (a b : jsstring)
| c_unlink (p : jsstring)
| c_readdir (d : jsstring)
| c_create (p : jsstring)
| c_use (p : jsstring)
| c_put (m : Memvid) (a : PutArgs)
| c_find (m : Memvid) (q : jsstring) (k : Z)
| c_ask (m : Memvid) (q : jsstring)
| c_timeline (m : Memvid) (limit : Z) (reverse : bool)
| c_stats (m : Memvid)
| c_now
| c_random
| c_console (l : LogLine).

(** The process and the part of the file system it can see.  Regular
    files are kept by resolved path with their size in bytes. *)
Record World := {
  cwd : jsstring;
  CLAUDE_PROJECT_DIR : option jsstring;
  files : list (jsstring * Z);
  locked : list jsstring;
  log : list Call;
  sdkLoaded : bool;
  mindInstance : option Mind
}.

(** What the surroundings answer.  Every answer may depend on the
    calls made so far. *)
Record Host := {
  (** whether a call throws, and what *)
  fault : list Call -> Call -> option Thrown;
  (** [Date.now()] *)
  now : list Call -> Z;
  (** [randomBytes(8).toString("hex")] *)
  random_hex : list Call -> jsstring;
  (** size of a store file right after [create] *)
  fresh_size : Z;
  put_result : list Call -> jsstring;
  find_result : list Call -> FindResult;
  ask_result : list Call -> AskResult;
  timeline_result : list Call -> Timeline;
  stats_result : list Call -> EngineStats;
  (** [new RegExp(src)] and [.test] for sources not interpreted here *)
  regexp_error : jsstring -> option Thrown;
  regexp_test : jsstring -> jsstring -> bool;
  (** [JSON.parse] on texts that may be JSON, and [JSON.stringify] *)
  json_parse : jsstring -> option Compression.JsonValue;
  json_stringify : SessionSummary -> jsstring;
  regexp_matches : Compression.SourceRegExp -> jsstring
                   -> list Compression.Match;
  (** [new Date(ms).toISOString()] *)
  iso_string : Z -> jsstring
}.

(* ================================================================= *)
(** ** Effects: a state monad over [World] with exceptions

    A thrown exception keeps the state reached so far, as in
    JavaScript; [await] is sequencing. *)

Definition M (A : Type) : Type := World -> Outcome A * World.

Definition ret {A} (a : A) : M A := fun w => (Ok a, w).

Definition throw {A} (e : Thrown) : M A := fun w => (Throw e, w).

Definition bind {A B} (m : M A) (k : A -> M B) : M B :=
  fun w =>
    match m w with
    | (Ok a, w') => k a w'
    | (Throw e, w') => (Throw e, w')
    end.

Declare Scope js_scope.
Delimit Scope js_scope with js.
Notation "x <- m ;; k" := (bind m (fun x => k))
  (at level 61, m at next level, right associativity) : js_scope.
Notation "m ;; k" := (bind m (fun _ => k))
  (at level 61, right associativity) : js_scope.
Open Scope js_scope.

(** [try { m } catch (e) { h e }] *)
Definition try_catch {A} (m : M A) (h : Thrown -> M A) : M A :=
  fun w =>
    match m w with
    | (Ok a, w') => (Ok a, w')
    | (Throw e, w') => h e w'
    end.

(** [try { m } finally { f }] *)
Definition try_finally {A} (m : M A) (f : M unit) : M A :=
  fun w =>
    match m w with
    | (r, w') =>
        match f w' with
        | (Ok _, w'') => (r, w'')
        | (Throw e, w'') => (Throw e, w'')
        end
    end.

Definition get {A} (f : World -> A) : M A := fun w => (Ok (f w), w).

Definition modify (f : World -> World) : M unit := fun w => (Ok tt, f w).

Definition set_files (fs : list (jsstring * Z)) (w : World) : World :=
  {| cwd := cwd w; CLAUDE_PROJECT_DIR := CLAUDE_PROJECT_DIR w; files := fs;
     locked := locked w; log := log w; sdkLoaded := sdkLoaded w;
     mindInstance := mindInstance w |}.

Definition set_locked (l : list jsstring) (w : World) : World :=
  {| cwd := cwd w; CLAUDE_PROJECT_DIR := CLAUDE_PROJECT_DIR w;
     files := files w; locked := l; log := log w; sdkLoaded := sdkLoaded w;
     mindInstance := mindInstance w |}.

Definition set_log (l : list Call) (w : World) : World :=
  {| cwd := cwd w; CLAUDE_PROJECT_DIR := CLAUDE_PROJECT_DIR w;
     files := files w; locked := locked w; log := l;
     sdkLoaded := sdkLoaded w; mindInstance := mindInstance w |}.

Definition set_sdkLoaded (b : bool) (w : World) : World :=
  {| cwd := cwd w; CLAUDE_PROJECT_DIR := CLAUDE_PROJECT_DIR w;
     files := files w; locked := locked w; log := log w; sdkLoaded := b;
     mindInstance := mindInstance w |}.

Definition set_mindInstance (m : option Mind) (w : World) : World :=
  {| cwd := cwd w; CLAUDE_PROJECT_DIR := CLAUDE_PROJECT_DIR w;
     files := files w; locked := locked w; log := log w;
     sdkLoaded := sdkLoaded w; mindInstance := m |}.

Definition record (c : Call) (w : World) : World :=
  set_log (log w ++ [c]) w.

(** Files by resolved path. *)
Definition key (w : World) (p : jsstring) : jsstring :=
  Path.resolve (cwd w) [p].

Fixpoint lookup_file (k : jsstring) (fs : list (jsstring * Z)) : option Z :=
  match fs with
  | [] => None
  | (k', sz) :: rest => if str_eqb k' k then Some sz else lookup_file k rest
  end.

Definition remove_file (k : jsstring) (fs : list (jsstring * Z))
  : list (jsstring * Z) :=
  filter (fun e => negb (str_eqb (fst e) k)) fs.

Definition put_file (k : jsstring) (sz : Z) (fs : list (jsstring * Z))
  : list (jsstring * Z) :=
  remove_file k fs ++ [(k, sz)].

Definition ENOENT : Thrown := JsError (js "ENOENT: no such file or directory").
Definition ELOCKED : Thrown := JsError (js "Lock file is already being held").

(** A number as [parseInt] returns it: [NaN], an integer that is a
    double, or an infinity. *)
Inductive JsNumber :=
| NaN
| Finite (z : Z)
| Infinity (negative : bool).

(** The double nearest to an integer: 53 significant bits, a tie goes
    to the even neighbour, and what rounds to [2^1024] or beyond is an
    infinity. *)
Definition to_double (v : Z) : JsNumber :=
  let a := Z.abs v in
  if (a <? 2 ^ 53)%Z then Finite v
  else
    let e := (Z.log2 a - 52)%Z in
    let q := Z.shiftr a e in
    let r := (a - Z.shiftl q e)%Z in
    let half := Z.shiftl 1 (e - 1) in
    let q' := if (half <? r)%Z || ((half =? r)%Z && Z.odd q)
              then (q + 1)%Z else q in
    let m := Z.shiftl q' e in
    if (2 ^ 1024 <=? m)%Z then Infinity (v <? 0)%Z
    else Finite (if (v <? 0)%Z then (- m)%Z else m).

Fixpoint digits_prefix (s : jsstring) : jsstring :=
  match s with
  | c :: s' => if Compression.is_digit c then c :: digits_prefix s' else []
  | [] => []
  end.

(** [parseInt(s, 10)]: the digits after white space and a sign, read
    as one integer and rounded to a double as V8 does; the sign of a
    zero is not kept. *)
Definition parseInt (s : jsstring) : JsNumber :=
  let s := trimStart s in
  let '(negative, s) :=
    match s with
    | c :: r => if N.eqb c 45 then (true, r)
                else if N.eqb c 43 then (false, r) else (false, s)
    | [] => (false, s)
    end in
  match digits_prefix s with
  | [] => NaN
  | ds => let v := Z.of_N (Compression.decimal_value ds) in
          to_double (if negative then (- v)%Z else v)
  end.

(** [String(z)] for an integer. *)
Definition numZ (z : Z) : jsstring :=
  match z with
  | Z0 => js "0"
  | Zpos p => uint_units (Pos.to_uint p)
  | Zneg p => 45%N :: uint_units (Pos.to_uint p)
  end.

(** [s.replace(".", "\\.")]: the first dot only. *)
Fixpoint escape_first_dot (s : jsstring) : jsstring :=
  match s with
  | [] => []
  | c :: s' => if N.eqb c 46 then 92%N :: 46%N :: s'
               else c :: escape_first_dot s'
  end.

(** A text can only be JSON when, after white space, it starts like a
    JSON value; whatever else [JSON.parse] decides is the host's. *)
Fixpoint json_start (s : jsstring) : option N :=
  match s with
  | [] => None
  | c :: s' =>
      if N.eqb c 32 || N.eqb c 9 || N.eqb c 10 || N.eqb c 13
      then json_start s' else Some c
  end.

Definition may_be_json (s : jsstring) : bool :=
  match json_start s with
  | None => false
  | Some c => existsb (N.eqb c) (DQUOTE :: js "{[-0123456789tfn")
  end.

Section Program.

Variable host : Host.

Definition JSON_parse (s : jsstring) : option Compression.JsonValue :=
  if may_be_json s then json_parse host s else None.

(** *** Calls into the surroundings: [node:fs], [proper-lockfile],
    [@memvid/sdk], the clock, the random source and the console *)

(** A call that returns nothing: recorded, and it may throw. *)
Definition call (c : Call) : M unit :=
  fun w =>
    match fault host (log w) c with
    | Some e => (Throw e, record c w)
    | None => (Ok tt, record c w)
    end.

(** A call whose answer the host gives. *)
Definition call_for {A} (c : Call) (answer : list Call -> A) : M A :=
  fun w =>
    match fault host (log w) c with
    | Some e => (Throw e, record c w)
    | None => (Ok (answer (log w ++ [c])), record c w)
    end.

Definition Date_now : M Z :=
  fun w => (Ok (now host (log w)), record c_now w).

Definition console_error (l : LogLine) : M unit :=
  fun w => (Ok tt, record (c_console l) w).

Definition mkdir_recursive (p : jsstring) : M unit := call (c_mkdir p).

Definition touch (p : jsstring) : M unit :=
  call (c_touch p) ;;
  modify (fun w =>
            match lookup_file (key w p) (files w) with
            | Some _ => w
            | None => set_files (files w ++ [(key w p, 0%Z)]) w
            end).

Definition existsSync (p : jsstring) : M bool :=
  get (fun w => match lookup_file (key w p) (files w) with
                | Some _ => true
                | None => false
                end).

Definition statSync_size (p : jsstring) : M Z :=
  call (c_stat p) ;;
  sz <- get (fun w => lookup_file (key w p) (files w)) ;;
  match sz with
  | Some z => ret z
  | None => throw ENOENT
  end.

Definition renameSync (a b : jsstring) : M unit :=
  call (c_rename a b) ;;
  sz <- get (fun w => lookup_file (key w a) (files w)) ;;
  match sz with
  | Some z =>
      modify (fun w =>
                set_files (put_file (key w b) z
                             (remove_file (key w a) (files w))) w)
  | None => throw ENOENT
  end.

Definition unlinkSync (p : jsstring) : M unit :=
  call (c_unlink p) ;;
  sz <- get (fun w => lookup_file (key w p) (files w)) ;;
  match sz with
  | Some _ => modify (fun w => set_files (remove_file (key w p) (files w)) w)
  | None => throw ENOENT
  end.

(** The names of the files directly inside [d]. *)
Definition entries (w : World) (d : jsstring) : list jsstring :=
  map (fun e => or_str (pop (split SLASH (fst e))) [])
    (filter (fun e => str_eqb (Path.dirname (fst e)) (key w d)) (files w)).

Definition readdirSync (d : jsstring) : M (list jsstring) :=
  call (c_readdir d) ;;
  get (fun w => entries w d).

(** [lockfile.lock(p, LOCK_OPTIONS)]: retrying and stale-lock stealing
    happen inside the library; here the call ends holding the lock or
    throws.  The function it resolves to is [lockfile_release p]. *)
Definition lockfile_lock (p : jsstring) : M unit :=
  call (c_lock p) ;;
  held <- get (fun w => existsb (str_eqb (key w p)) (locked w)) ;;
  if held then throw ELOCKED
  else modify (fun w => set_locked (key w p :: locked w) w).

Definition lockfile_release (p : jsstring) : M unit :=
  call (c_release p) ;;
  modify (fun w =>
            set_locked
              (filter (fun k => negb (str_eqb k (key w p))) (locked w)) w).

Definition sdk_create (p : jsstring) : M Memvid :=
  call (c_create p) ;;
  modify (fun w => set_files (put_file (key w p) (fresh_size host) (files w)) w) ;;
  ret {| mv_path := p; mv_created := true |}.

Definition sdk_use (p : jsstring) : M Memvid :=
  call (c_use p) ;;
  ret {| mv_path := p; mv_created := false |}.

Definition generateId : M jsstring :=
  fun w => (Ok (random_hex host (log w)), record c_random w).

(** *** src/utils/lock.ts *)

Definition withMemvidLock {A} (lockPath : jsstring) (fn : M A) : M A :=
  mkdir_recursive (Path.dirname lockPath) ;;
  touch lockPath ;;
  lockfile_lock lockPath ;;
  try_finally fn (lockfile_release lockPath).

(** *** src/core/mind.ts *)

Record Backup := {
  b_name : jsstring;
  b_path : jsstring;
  b_time : JsNumber
}.

(** The sign of [x - y] as a sort reads the result of its comparator:
    [NaN], which is also what the difference of two like infinities is,
    counts as zero. *)
Definition minus_sign (x y : JsNumber) : comparison :=
  match x, y with
  | NaN, _ | _, NaN => Eq
  | Finite a, Finite b => (a ?= b)%Z
  | Infinity n, Infinity m =>
      if Bool.eqb n m then Eq else if n then Lt else Gt
  | Infinity n, Finite _ => if n then Lt else Gt
  | Finite _, Infinity m => if m then Gt else Lt
  end.

(** [(a, b) => b.time - a.time] is at most zero.  With a [NaN] among
    the times the comparator is not consistent and the order is the
    engine's; the model then orders as an insertion sort does. *)
Definition newer_first (a b : Backup) : bool :=
  match minus_sign (b_time b) (b_time a) with
  | Gt => false
  | _ => true
  end.

Definition backupPattern_source (baseName : jsstring) : jsstring :=
  js "^" ++ escape_first_dot baseName ++ js "\.backup-\d+$".

(** [new RegExp(src)], kept as its source; outside the interpreted
    sources the host says whether the source is a syntax error. *)
Definition new_RegExp (src : jsstring) : M jsstring :=
  match RegExpLite.compile src with
  | Some _ => ret src
  | None => match regexp_error host src with
            | Some e => throw e
            | None => ret src
            end
  end.

(** [pattern.test(f)] *)
Definition RegExp_test (src f : jsstring) : bool :=
  match RegExpLite.test src f with
  | Some b => b
  | None => regexp_test host src f
  end.

Fixpoint prune_loop (olds : list Backup) : M unit :=
  match olds with
  | [] => ret tt
  | b :: rest =>
      try_catch
        (unlinkSync (b_path b) ;; console_error (LogPruned (b_name b)))
        (fun _ => ret tt) ;;
      prune_loop rest
  end.

Definition pruneBackups (memoryPath : jsstring) (keepCount : nat) : M unit :=
  try_catch
    (let dir := Path.dirname memoryPath in
     let baseName := or_str (pop (split SLASH memoryPath)) (js "mind.mv2") in
     backupPattern <- new_RegExp (backupPattern_source baseName) ;;
     files <- readdirSync dir ;;
     here <- get cwd ;;
     let backups :=
       stable_sort newer_first
         (map (fun f =>
                 {| b_name := f;
                    b_path := Path.resolve here [dir; f];
                    b_time := parseInt (or_str (pop (split 45 f)) (js "0")) |})
              (filter (RegExp_test backupPattern) files)) in
     prune_loop (skipn keepCount backups))
    (fun _ => ret tt).

Definition loadSDK : M unit :=
  loaded <- get sdkLoaded ;;
  if loaded then ret tt
  else call c_import_sdk ;; modify (set_sdkLoaded true).

Definition corruption_signatures : list jsstring :=
  [js "Deserialization"; js "UnexpectedVariant"; js "Invalid"; js "corrupt";
   js "validation failed"; js "unable to recover"; js "table of contents"].

(** [openError instanceof Error ? openError.message : String(openError)] *)
Definition errorMessage (e : Thrown) : jsstring :=
  match e with
  | JsError m => m
  | JsValue t => t
  end.

Definition MAX_FILE_SIZE_MB : Z := 100.

(** [fileSize / (1024 * 1024) > MAX_FILE_SIZE_MB]; the division by a
    power of two is exact. *)
Definition too_large (fileSize : Z) : bool :=
  (MAX_FILE_SIZE_MB * (1024 * 1024) <? fileSize)%Z.

Definition backup_path (memoryPath : jsstring) (t : Z) : jsstring :=
  memoryPath ++ js ".backup-" ++ numZ t.

(** The critical section of [Mind.open]; it yields the handle the
    source assigns to [memvid]. *)
Definition open_locked (memoryPath : jsstring) : M Memvid :=
  present <- existsSync memoryPath ;;
  if negb present then sdk_create memoryPath
  else
    fileSize <- statSync_size memoryPath ;;
    if too_large fileSize then
      console_error (LogTooLarge fileSize) ;;
      t <- Date_now ;;
      try_catch (renameSync memoryPath (backup_path memoryPath t))
                (fun _ => ret tt) ;;
      sdk_create memoryPath
    else
      try_catch (sdk_use memoryPath)
        (fun openError =>
           if existsb (includes (errorMessage openError)) corruption_signatures
           then
             console_error LogCorrupted ;;
             t <- Date_now ;;
             try_catch (renameSync memoryPath (backup_path memoryPath t))
               (fun _ => try_catch (unlinkSync memoryPath) (fun _ => ret tt)) ;;
             sdk_create memoryPath
           else throw openError).

Definition Mind_open (configOverrides : ConfigOverrides) : M Mind :=
  loadSDK ;;
  let config := merge_config DEFAULT_CONFIG configOverrides in
  here <- get cwd ;;
  env <- get CLAUDE_PROJECT_DIR ;;
  let projectDir := or_str env here in
  let memoryPath := Path.resolve here [projectDir; memoryPath config] in
  let memoryDir := Path.dirname memoryPath in
  mkdir_recursive memoryDir ;;
  let lockPath := memoryPath ++ js ".lock" in
  memvid <- withMemvidLock lockPath (open_locked memoryPath) ;;
  sessionId <- generateId ;;
  let mind := {| memvid := memvid; config := config; sessionId := sessionId;
                 initialized := true |} in
  pruneBackups memoryPath 3 ;;
  (if debug config then console_error (LogOpened memoryPath) else ret tt) ;;
  ret mind.

Definition getMemoryPath (mind : Mind) : M jsstring :=
  here <- get cwd ;;
  ret (Path.resolve here [here; memoryPath (config mind)]).

Definition withLock {A} (mind : Mind) (fn : M A) : M A :=
  memoryPath <- getMemoryPath mind ;;
  let lockPath := memoryPath ++ js ".lock" in
  withMemvidLock lockPath fn.

(** [title.replace(/^\[.*?\]\s*/, "")]: a leading bracketed tag, up to
    the first closing bracket on the first line, and the white space
    after it. *)
Fixpoint after_tag (s : jsstring) : option jsstring :=
  match s with
  | [] => None
  | c :: s' =>
      if N.eqb c 93 then Some (trimStart s')
      else if RegExpLite.is_line_terminator c then None
      else after_tag s'
  end.

Definition strip_tag (title : jsstring) : jsstring :=
  match title with
  | c :: s' =>
      if N.eqb c 91 then
        match after_tag s' with
        | Some rest => rest
        | None => title
        end
      else title
  | [] => title
  end.

(** [a || b] on numbers ([undefined] and [0] are falsy) and on
    possibly missing strings. *)
Definition or_num (a : option Z) (b : Z) : Z :=
  match a with
  | Some z => if (z =? 0)%Z then b else z
  | None => b
  end.

Definition or_opt (a b : option jsstring) : option jsstring :=
  match a with
  | Some (c :: s) => a
  | _ => b
  end.

Definition meta {A} (f : FrameMetadata -> option A) (frame : Frame)
  : option A :=
  match f_metadata frame with
  | Some m => f m
  | None => None
  end.

Definition remember (mind : Mind) (input : RememberInput) : M jsstring :=
  id <- generateId ;;
  timestamp <- Date_now ;;
  frameId <-
    withLock mind
      (call_for
         (c_put (memvid mind)
            {| pa_title := js "[" ++ type_name (ri_type input) ++ js "] "
                           ++ ri_summary input;
               pa_label := type_name (ri_type input);
               pa_text := ri_content input;
               pa_metadata :=
                 ObservationMetadata id timestamp (ri_tool input)
                   (sessionId mind) (ri_metadata input);
               pa_tags :=
                 filter_nonempty
                   [type_name (ri_type input); or_str (ri_tool input) []] |})
         (put_result host)) ;;
  (if debug (config mind)
   then console_error (LogRemembered (ri_summary input)) else ret tt) ;;
  ret frameId.

Definition search_row (frame : Frame) : SearchResult :=
  {| sr_observation :=
       {| ob_id := or_opt (meta fm_observationId frame) (f_frame_id frame);
          ob_timestamp := or_num (meta fm_timestamp frame) 0;
          ob_type := f_label frame;
          ob_tool := meta fm_tool frame;
          ob_summary := or_str (option_map strip_tag (f_title frame)) [];
          ob_content := or_str (f_text frame) [];
          ob_metadata := f_metadata frame |};
     sr_score := or_num (f_score frame) 0;
     sr_snippet :=
       or_str (f_snippet frame)
         (or_str (option_map (slice0 200) (f_text frame)) []) |}.

Definition searchUnlocked (mind : Mind) (query : jsstring) (limit : Z)
  : M (list SearchResult) :=
  results <- call_for (c_find (memvid mind) query limit) (find_result host) ;;
  ret (map search_row
         (match fr_frames results with
          | Some fs => fs
          | None => []
          end)).

Definition search (mind : Mind) (query : jsstring) (limit : option Z)
  : M (list SearchResult) :=
  withLock mind (searchUnlocked mind query (override limit 10%Z)).

Definition ask (mind : Mind) (question : jsstring) : M jsstring :=
  withLock mind
    (result <- call_for (c_ask (memvid mind) question) (ask_result host) ;;
     ret (or_str (ar_answer result) (js "No relevant memories found."))).

Definition timeline_frames (t : Timeline) : list Frame :=
  match t with
  | TimelineArray fs => fs
  | TimelineObject (Some fs) => fs
  | TimelineObject None => []
  end.

Definition context_row (frame : Frame) : Observation :=
  let ts := or_num (meta fm_timestamp frame) (or_num (f_timestamp frame) 0) in
  let ts := if ((0 <? ts) && (ts <? 4102444800))%Z then (ts * 1000)%Z else ts in
  {| ob_id := or_opt (meta fm_observationId frame) (f_frame_id frame);
     ob_timestamp := ts;
     ob_type :=
       Some (or_str (f_label frame)
               (or_str (meta fm_type frame) (js "observation")));
     ob_tool := meta fm_tool frame;
     ob_summary :=
       or_str (option_map strip_tag (f_title frame))
         (or_str (option_map (slice0 100) (f_preview frame)) []);
     ob_content := or_str (f_text frame) (or_str (f_preview frame) []);
     ob_metadata := f_metadata frame |}.

(** The text whose tokens are counted for one observation. *)
Definition context_line (obs : Observation) : jsstring :=
  js "[" ++ match ob_type obs with
            | Some t => t
            | None => js "undefined"
            end ++ js "] " ++ ob_summary obs.

(** The accounting loop of [getContext], from its current count. *)
Fixpoint count_tokens (budget : Z) (tokenCount : nat)
  (observations : list Observation) : nat :=
  match observations with
  | [] => tokenCount
  | obs :: rest =>
      let tokens := estimateTokens (context_line obs) in
      if (budget <? Z.of_nat (tokenCount + tokens))%Z then tokenCount
      else count_tokens budget (tokenCount + tokens) rest
  end.

Definition getContext_locked (mind : Mind) (query : option jsstring)
  : M Context :=
  timeline <-
    call_for (c_timeline (memvid mind)
                (maxContextObservations (config mind)) true)
             (timeline_result host) ;;
  let frames := timeline_frames timeline in
  let recentObservations := map context_row frames in
  relevantMemories <-
    match query with
    | Some (c :: q) =>
        searchResults <- searchUnlocked mind (c :: q) 10 ;;
        ret (map sr_observation searchResults)
    | _ => ret []
    end ;;
  let tokenCount :=
    count_tokens (maxContextTokens (config mind)) 0 recentObservations in
  ret {| recentObservations := recentObservations;
         relevantMemories := relevantMemories;
         sessionSummaries := [];
         tokenCount := tokenCount |}.

Definition getContext (mind : Mind) (query : option jsstring) : M Context :=
  withLock mind (getContext_locked mind query).

Definition saveSessionSummary (mind : Mind) (summary : SessionSummaryInput)
  : M jsstring :=
  t0 <- Date_now ;;
  t1 <- Date_now ;;
  let sessionSummary :=
    {| ss_id := sessionId mind;
       ss_startTime := (t0 - 3600000)%Z;
       ss_endTime := t1;
       ss_observationCount := 0;
       ss_keyDecisions := si_keyDecisions summary;
       ss_filesModified := si_filesModified summary;
       ss_summary := si_summary summary |} in
  withLock mind
    (today <- Date_now ;;
     call_for
       (c_put (memvid mind)
          {| pa_title :=
               js "Session Summary: "
               ++ hd [] (split 84 (iso_string host today));
             pa_label := js "session";
             pa_text := json_stringify host sessionSummary;
             pa_metadata := SummaryMetadata sessionSummary;
             pa_tags := [js "session"; js "summary"] |})
       (put_result host)).

Definition first_timestamp (frames : list Frame) : Z :=
  match frames with
  | f :: _ => or_num (meta fm_timestamp f) (or_num (f_timestamp f) 0)
  | [] => 0%Z
  end.

Definition stats (mind : Mind) : M MindStats :=
  withLock mind
    (st <- call_for (c_stats (memvid mind)) (stats_result host) ;;
     timeline <-
       call_for (c_timeline (memvid mind) 1 false) (timeline_result host) ;;
     recentTimeline <-
       call_for (c_timeline (memvid mind) 1 true) (timeline_result host) ;;
     let oldestFrames := timeline_frames timeline in
     let newestFrames := timeline_frames recentTimeline in
     ret {| totalObservations := or_num (frame_count st) 0;
            totalSessions := 0;
            oldestMemory := first_timestamp oldestFrames;
            newestMemory := first_timestamp newestFrames;
            fileSize := or_num (size_bytes st) 0;
            topTypes := [] |}).

(** [var mindInstance = null; async function getMind(config)] *)
Definition getMind (config : ConfigOverrides) : M Mind :=
  current <- get mindInstance ;;
  match current with
  | Some mind => ret mind
  | None =>
      mind <- Mind_open config ;;
      modify (set_mindInstance (Some mind)) ;;
      ret mind
  end.

(** *** src/hooks/opencode/index.ts *)

Definition OBSERVED_TOOLS : list jsstring :=
  [js "Read"; js "Edit"; js "Write"; js "Bash"; js "Grep"; js "Glob"].

(** The [output] a tool hands over: a string, or a value with what
    [JSON.stringify] or [String] makes of it ([JSON.stringify] may throw,
    and may give [undefined]). *)
Inductive HookOutput :=
| OutputString (s : jsstring)
| OutputValue (text : Outcome (option jsstring)).

(** [resolve(projectDir, ".claude/mind.mv2")], fixed when the plugin is
    created in a process whose working directory is [here]. *)
Definition plugin_memoryPath (here projectDir : jsstring) : jsstring :=
  Path.resolve here [projectDir; js ".claude/mind.mv2"].

Definition only_memoryPath (p : jsstring) : ConfigOverrides :=
  {| o_memoryPath := Some p; o_maxContextObservations := None;
     o_maxContextTokens := None; o_autoCompress := None;
     o_minConfidence := None; o_debug := None |}.

Definition lift {A} (o : Outcome A) : M A :=
  match o with
  | Ok a => ret a
  | Throw e => throw e
  end.

(** The [tool.execute.after] handler of a plugin whose memory path is
    [memoryPath]. *)
Definition tool_execute_after (memoryPath : jsstring)
  (tool sessionID : jsstring) (output : HookOutput)
  (metadata : option Compression.ToolInput) : M unit :=
  if negb (existsb (str_eqb tool) OBSERVED_TOOLS) then ret tt
  else
    try_catch
      (mind <- getMind (only_memoryPath memoryPath) ;;
       outputStr <-
         match output with
         | OutputString s => ret s
         | OutputValue (Ok (Some s)) => ret s
         | OutputValue (Ok None) =>
             throw (JsError (js "Cannot read properties of undefined (reading 'toLowerCase')"))
         | OutputValue (Throw e) => throw e
         end ;;
       let type := classifyObservationType tool outputStr in
       result <-
         lift (Compression.compressToolOutput JSON_parse (regexp_matches host)
                 tool metadata outputStr) ;;
       remember mind
         {| ri_type := type;
            ri_summary := js "OpenCode " ++ tool ++ js " completed";
            ri_content := Compression.compressed result;
            ri_tool := Some tool;
            ri_metadata := metadata |} ;;
       ret tt)
      (fun e => console_error (LogCaptureError e)).

End Program.

(* ================================================================= *)
(** * The session events of the plugin

    The rest of src/hooks/opencode/index.ts and
    src/utils/file-capture.ts. *)

(** [basename(path)] of node:path (POSIX), without a suffix: the scan
    from the end skips trailing separators and stops at the separator
    before the last segment. *)
Fixpoint drop_slashes (r : jsstring) : jsstring :=
  match r with
  | c :: r' => if N.eqb c SLASH then drop_slashes r' else r
  | [] => []
  end.

Fixpoint until_slash (r : jsstring) : jsstring :=
  match r with
  | c :: r' => if N.eqb c SLASH then [] else c :: until_slash r'
  | [] => []
  end.

Definition basename (path : jsstring) : jsstring :=
  rev (until_slash (drop_slashes (rev path))).

(** [Math.round(a / b)] for a positive [b]: halves go up. *)
Definition Math_round_div (a b : Z) : Z := ((2 * a + b) / (2 * b))%Z.

(** *** src/utils/file-capture.ts *)

(** The four commands [captureFileChanges] runs with [execSync]. *)
Inductive ShellCommand :=
| sh_diff_names     (* git diff --name-only HEAD || git diff --name-only || echo *)
| sh_staged_names   (* git diff --cached --name-only || echo *)
| sh_diff_stat      (* git diff HEAD --stat | head -30 *)
| sh_find_recent.   (* find . -maxdepth 4 -type f ... -mmin -30 ... | head -30 *)

Record FileChanges := {
  fc_files : list jsstring;
  fc_gitDiffContent : jsstring
}.

(** [f.replace(/^\.\//, "")] *)
Definition strip_dot_slash (f : jsstring) : jsstring :=
  match f with
  | 46%N :: 47%N :: rest => rest
  | _ => f
  end.

(** [for (const file of files) if (!all.includes(file)) all.push(file)] *)
Fixpoint push_missing (all files : list jsstring) : list jsstring :=
  match files with
  | [] => all
  | file :: rest =>
      if existsb (str_eqb file) all then push_missing all rest
      else push_missing (all ++ [file]) rest
  end.

(** [execSync] answers with the text a command wrote, or throws; each
    command is run at most once. *)
Definition captureFileChanges (execSync : ShellCommand -> Outcome jsstring)
  : FileChanges :=
  let '(allChangedFiles, gitDiffContent) :=
    match execSync sh_diff_names with
    | Throw _ => ([], [])
    | Ok out =>
        let diffNames := trim out in
        match execSync sh_staged_names with
        | Throw _ => ([], [])
        | Ok out =>
            let stagedNames := trim out in
            let gitFiles :=
              dedupe_by str_eqb []
                (filter_nonempty (split LF diffNames)
                 ++ filter_nonempty (split LF stagedNames)) in
            let gitDiffContent :=
              if 0 <? length gitFiles then
                match execSync sh_diff_stat with
                | Ok out => trim out
                | Throw _ => []
                end
              else [] in
            (gitFiles, gitDiffContent)
        end
    end in
  let recentFilesList :=
    match execSync sh_find_recent with
    | Ok out => map strip_dot_slash (filter_nonempty (split LF (trim out)))
    | Throw _ => []
    end in
  {| fc_files := push_missing allChangedFiles recentFilesList;
     fc_gitDiffContent := gitDiffContent |}.

Section Events.

Variable host : Host.
Variable execSync : ShellCommand -> Outcome jsstring.

(** *** src/hooks/opencode/index.ts, continued *)

Definition buildSessionContext (memoryPath projectDir : jsstring)
  : M jsstring :=
  let projectName := basename projectDir in
  let ready :=
    join [LF]
      [js "<opencode-brain-context>";
       js "# " ++ astral 129504 ++ js " OpenCode Brain Ready";
       [];
       astral 128193 ++ js " Project: **" ++ projectName ++ js "**";
       astral 128190 ++ js " Memory will be created at: `.claude/mind.mv2`";
       [];
       js "_Your observations will be automatically captured._";
       js "</opencode-brain-context>"] in
  memoryExists <- existsSync memoryPath ;;
  if memoryExists then
    try_catch
      (size <- statSync_size host memoryPath ;;
       let fileSizeKB := Math_round_div size 1024 in
       ret (join [LF]
              [js "<opencode-brain-context>";
               js "# " ++ astral 129504 ++ js " OpenCode Brain Active";
               [];
               astral 128193 ++ js " Project: **" ++ projectName ++ js "**";
               astral 128190 ++ js " Memory: `.claude/mind.mv2` ("
                 ++ numZ fileSizeKB ++ js " KB)";
               [];
               js "**Commands:**";
               js "- `/mind:search <query>` - Search memories";
               js "- `/mind:ask <question>` - Ask your memory";
               js "- `/mind:recent` - View timeline";
               js "- `/mind:stats` - View statistics";
               [];
               js "_Memories are captured automatically from your tool use._";
               js "</opencode-brain-context>"]))
      (fun _ => ret ready)
  else ret ready.

(** The observation that [session.idle] stores for the changed files.
    Of the caller's metadata [ri_metadata] keeps the fields the
    summarizers read; [files] and [fileCount] are none of them. *)
Definition idle_observation (changes : FileChanges) : RememberInput :=
  let files := fc_files changes in
  let contentParts :=
    [js "## Files Modified This Session" ++ [LF; LF]
       ++ join [LF] (map (fun f => js "- " ++ f) files)] in
  let contentParts :=
    match fc_gitDiffContent changes with
    | [] => contentParts
    | gitDiffContent =>
        contentParts
        ++ [LF :: js "## Git Changes Summary" ++ LF :: js "```"
               ++ LF :: gitDiffContent ++ LF :: js "```"]
    end in
  {| ri_type := refactor;
     ri_summary := js "Session edits: " ++ num (length files)
                   ++ js " file(s) modified";
     ri_content := join [LF] contentParts;
     ri_tool := Some (js "FileChanges");
     ri_metadata :=
       Some {| Compression.file_path := None; Compression.command := None;
               Compression.pattern := None |} |}.

(** The [event] handler of a plugin created for [projectDir]; it
    returns the session context or nothing. *)
Definition event (memoryPath projectDir : jsstring) (type : jsstring)
  : M (option jsstring) :=
  if str_eqb type (js "session.created") then
    context <- buildSessionContext memoryPath projectDir ;;
    ret (Some context)
  else if str_eqb type (js "session.idle") then
    try_catch
      (mind <- getMind host (only_memoryPath memoryPath) ;;
       let changes := captureFileChanges execSync in
       if length (fc_files changes) =? 0 then ret tt
       else
         remember host mind (idle_observation changes) ;;
         ret tt)
      (fun e => console_error (LogIdleError e)) ;;
    ret None
  else ret None.

End Events.

(* ================================================================= *)
(** * Specification vocabulary

    The words of the specification, written down independently of the
    code above, and the concrete situations used below. *)

(** ** Compression *)

(** The visible mark left where a summary was cut. *)
Definition truncation_marker : jsstring := LF :: js "... (compressed)".

Definition ends_with (s suffix : jsstring) : Prop :=
  exists front, s = front ++ suffix.

(** ** Classification *)

Definition problem_markers : list jsstring :=
  [js "error"; js "failed"; js "exception"].
Definition success_markers : list jsstring :=
  [js "success"; js "passed"; js "completed"].
Definition warning_markers : list jsstring :=
  [js "warning"; js "deprecated"].
Definition fix_markers : list jsstring := [js "fix"; js "bug"].

(** The lower-cased output contains one of the markers. *)
Definition mentions (output : jsstring) (markers : list jsstring) : Prop :=
  exists m, In m markers /\ includes (toLowerCase output) m = true.

(** The default that belongs to a tool. *)
Inductive tool_default (toolName output : jsstring)
  : ObservationType -> Prop :=
| td_lookup :
    In toolName [js "Read"; js "Glob"; js "Grep"] ->
    tool_default toolName output discovery
| td_edit_fix :
    toolName = js "Edit" -> mentions output fix_markers ->
    tool_default toolName output bugfix
| td_edit_other :
    toolName = js "Edit" -> ~ mentions output fix_markers ->
    tool_default toolName output refactor
| td_write :
    toolName = js "Write" -> tool_default toolName output feature
| td_unknown :
    ~ In toolName [js "Read"; js "Glob"; js "Grep"; js "Edit"; js "Write"] ->
    tool_default toolName output discovery.

(** The priority order: problem, success, warning, tool default. *)
Inductive classified (toolName output : jsstring)
  : ObservationType -> Prop :=
| cl_problem :
    mentions output problem_markers -> classified toolName output problem
| cl_success :
    ~ mentions output problem_markers ->
    mentions output success_markers ->
    classified toolName output success
| cl_warning :
    ~ mentions output problem_markers ->
    ~ mentions output success_markers ->
    mentions output warning_markers ->
    classified toolName output warning
| cl_default t :
    ~ mentions output problem_markers ->
    ~ mentions output success_markers ->
    ~ mentions output warning_markers ->
    tool_default toolName output t ->
    classified toolName output t.

(** ** The command summary *)

Definition bash_error_markers : list jsstring :=
  [js "error"; js "failed"; js "exception"; js "warning"].
Definition bash_success_markers : list jsstring :=
  [js "success"; js "passed"; js "completed"; js "done"].

Definition has_marker (markers : list jsstring) (line : jsstring) : bool :=
  existsb (includes (toLowerCase line)) markers.

Definition first_line (s : jsstring) : jsstring := hd [] (split LF s).

(** The report for a command, section by section.  [full n] decides
    from the number of lines whether the whole output is included. *)
Definition bash_report (full : nat -> bool)
  (toolInput : option Compression.ToolInput) (output : jsstring) : jsstring :=
  let cmd := or_str (Compression.field Compression.command toolInput)
                    (js "command") in
  let lines := split LF output in
  let errors := filter (has_marker bash_error_markers) lines in
  let successes := filter (has_marker bash_success_markers) lines in
  (astral 128421 ++ 65039%N :: js " Command: " ++ firstn 100 (first_line cmd))
  ++ (match errors with
      | [] => []
      | _ => LF :: 10060%N :: js " Errors (" ++ num (length errors) ++ js "):"
             ++ join [LF] (firstn 10 errors)
      end)
  ++ (match successes with
      | [] => []
      | _ => LF :: 9989%N :: js " Success indicators:"
             ++ join [LF] (firstn 5 successes)
      end)
  ++ (LF :: astral 128202 ++ js " Output: "
         ++ num (S (count_occ N.eq_dec output LF)) ++ js " lines total")
  ++ (if full (length lines) then LF :: js "--- Full output ---" ++ output
      else LF :: js "--- First 10 lines ---" ++ join [LF] (firstn 10 lines)
           ++ LF :: js "--- Last 5 lines ---"
           ++ join [LF] (skipn (length lines - 5) lines)).

(** Twenty lines of 160 units each: more than 3000 units in all. *)
Fixpoint repeat_text (n : nat) (s : jsstring) : jsstring :=
  match n with
  | O => []
  | S k => s ++ repeat_text k s
  end.

Definition twenty_lines : jsstring :=
  repeat_text 19 (repeat_text 16 (js "0123456789") ++ [LF])
  ++ repeat_text 16 (js "0123456789").

(** A test log: a hundred passing cases, one failure, and the verdict. *)
Definition npm_test_input : option Compression.ToolInput :=
  Some {| Compression.file_path := None;
          Compression.command := Some (js "npm test");
          Compression.pattern := None |}.

Definition npm_test_log : jsstring :=
  repeat_text 100 (js "running test case number x ok" ++ [LF])
  ++ js "Error: failed to load" ++ [LF]
  ++ repeat_text 20 (js "another line of text here" ++ [LF])
  ++ js "All tests passed".

(** A test log of thirteen long failing lines and the verdict. *)
Definition long_errors_log : jsstring :=
  repeat_text 13
    (js "Error: failed " ++ repeat_text 25 (js "0123456789") ++ [LF])
  ++ js "All tests passed".

(** A file listing whose first directory is called [constructor]. *)
Definition constructor_listing : jsstring :=
  repeat_text 150 (js "constructor/index.ts" ++ [LF]).

(** ** Token accounting *)

(** The text ["[type] summary"] of an observation. *)
Definition bracketed_summary (obs : Observation) : jsstring :=
  (91%N :: match ob_type obs with
           | Some t => t
           | None => js "undefined"
           end)
  ++ 93%N :: 32%N :: ob_summary obs.

(** A quarter of a length, rounded up. *)
Definition quarter_up (n : nat) : nat :=
  n / 4 + (if n mod 4 =? 0 then 0 else 1).

Definition line_tokens (obs : Observation) : nat :=
  quarter_up (length (bracketed_summary obs)).

Definition tokens_of (observations : list Observation) : nat :=
  list_sum (map line_tokens observations).

(** ** A quiet host and a small project

    No call fails, the clock advances with every call, and the engine
    answers with two stored frames. *)

Definition stored_frame (label title : jsstring) : Frame :=
  {| f_metadata := None; f_frame_id := Some (js "frame-1");
     f_timestamp := Some 1700000000%Z; f_label := Some label;
     f_title := Some title; f_preview := None; f_text := Some title;
     f_score := None; f_snippet := None |}.

Definition two_frames : list Frame :=
  [stored_frame (js "discovery") (js "[discovery] OpenCode Read completed");
   stored_frame (js "problem") (js "[problem] OpenCode Bash completed")].

Definition quiet_host : Host :=
  {| fault := fun _ _ => None;
     now := fun l => (1700000000000 + Z.of_nat (length l))%Z;
     random_hex := fun l => js "00c0ffee0000" ++ num (1000 + length l);
     fresh_size := 4096;
     put_result := fun l => js "frame-" ++ num (length l);
     find_result := fun _ => {| fr_frames := Some two_frames |};
     ask_result := fun _ => {| ar_answer := None |};
     timeline_result := fun _ => TimelineArray two_frames;
     stats_result := fun _ => {| frame_count := Some 2%Z;
                                 size_bytes := Some 4096%Z |};
     regexp_error := fun _ => None;
     regexp_test := fun _ _ => false;
     json_parse := fun _ => None;
     json_stringify := fun _ => js "{}";
     regexp_matches := fun _ _ => [];
     iso_string := fun _ => js "2023-11-14T22:13:20.000Z" |}.

Definition project_world (fs : list (jsstring * Z)) : World :=
  {| cwd := js "/proj"; CLAUDE_PROJECT_DIR := None; files := fs;
     locked := []; log := []; sdkLoaded := false; mindInstance := None |}.

Definition mind_with_budget (budget : Z) : Mind :=
  {| memvid := {| mv_path := js "/proj/.claude/mind.mv2";
                  mv_created := false |};
     config := merge_config DEFAULT_CONFIG
                 {| o_memoryPath := None; o_maxContextObservations := None;
                    o_maxContextTokens := Some budget; o_autoCompress := None;
                    o_minConfidence := None; o_debug := None |};
     sessionId := js "00c0ffee00001000";
     initialized := true |}.

(** ** Calls and what may be said about them *)

(** Calls that reach the storage engine through an open handle. *)
Definition engine_call (c : Call) : bool :=
  match c with
  | c_put _ _ | c_find _ _ _ | c_ask _ _ | c_timeline _ _ _ | c_stats _ => true
  | _ => false
  end.

(** A program adds calls to the log, and all of them satisfy [P]. *)
Definition emits (P : Call -> Prop) {A} (m : M A) : Prop :=
  forall w, exists calls,
    log (snd (m w)) = log w ++ calls /\ Forall P calls.

(** The text written by a [put] is the hook's output string itself, of
    at most [threshold] units, or has at most [target] units. *)
Definition hook_text (output : HookOutput) : option jsstring :=
  match output with
  | OutputString s => Some s
  | OutputValue (Ok (Some s)) => Some s
  | OutputValue _ => None
  end.

Definition put_text_bounded (output : HookOutput) (c : Call) : Prop :=
  match c with
  | c_put _ a =>
      length (pa_text a) <= Compression.TARGET_COMPRESSED_SIZE
      \/ (hook_text output = Some (pa_text a)
          /\ length (pa_text a) <= Compression.COMPRESSION_THRESHOLD)
  | _ => True
  end.

(** ** Backups *)

(** [name] is [baseName], then [.backup-], then one or more digits. *)
Definition is_backup_of (baseName name : jsstring) : bool :=
  startsWith name (baseName ++ js ".backup-")
  && match skipn (length baseName + 8) name with
     | [] => false
     | digits => forallb Compression.is_digit digits
     end.

(** Sorting by a number, larger first, as a comparator, and the order
    it is meant to produce. *)
Definition later_first {A} (time : A -> Z) (a b : A) : bool :=
  (time b <=? time a)%Z.

Definition not_older {A} (time : A -> Z) (a b : A) : Prop :=
  (time b <= time a)%Z.

(** The number [parseInt] read at the end of a backup's name, with an
    infinity beyond every double. *)
Definition backup_time (b : Backup) : Z :=
  match b_time b with
  | Finite t => t
  | Infinity false => 2 ^ 1024
  | Infinity true => - 2 ^ 1024
  | NaN => 0
  end%Z.

(** A time that orders: no [NaN], and if finite, in the range of the
    doubles. *)
Definition orders (x : JsNumber) : Prop :=
  match x with
  | NaN => False
  | Finite t => (Z.abs t < 2 ^ 1024)%Z
  | Infinity _ => True
  end.

(** A project whose memory file has two dots in its name, with three
    backups of it and one backup of a neighbouring store. *)
Definition two_dot_config : ConfigOverrides :=
  only_memoryPath (js ".claude/my.mind.mv2").

Definition two_dot_world : World :=
  project_world
    [(js "/proj/.claude/my.mind.mv2", 2048%Z);
     (js "/proj/.claude/my.mind.mv2.backup-1700000000001", 512%Z);
     (js "/proj/.claude/my.mind.mv2.backup-1700000000002", 512%Z);
     (js "/proj/.claude/my.mind-mv2.backup-1700000000009", 512%Z);
     (js "/proj/.claude/my.mind.mv2.backup-1700000000003", 512%Z)].

(** ** The process-wide instance *)

(** The lock files asked for, in order. *)
Definition locks_requested (l : list Call) : list jsstring :=
  flat_map (fun c => match c with
                     | c_lock p => [p]
                     | _ => []
                     end) l.

(** A process started in [/work] for the project [/proj]. *)
Definition away_world : World :=
  {| cwd := js "/work"; CLAUDE_PROJECT_DIR := Some (js "/proj");
     files := [(js "/proj/.claude/mind.mv2", 2048%Z)];
     locked := []; log := []; sdkLoaded := false; mindInstance := None |}.

(** ** The locking discipline *)

(** What [withMemvidLock] does before it enters the critical section. *)
Definition acquire (host : Host) (lockPath : jsstring) : M unit :=
  mkdir_recursive host (Path.dirname lockPath) ;;
  touch host lockPath ;;
  lockfile_lock host lockPath.

(** The lock file of an instance, for a process in the state [w]. *)
Definition lockPath_of (mind : Mind) (w : World) : jsstring :=
  Path.resolve (cwd w) [cwd w; memoryPath (config mind)] ++ js ".lock".

(** Calls an operation may make outside its critical section: clock,
    random source and console. *)
Definition outside_call (c : Call) : Prop :=
  match c with
  | c_now | c_random | c_console _ => True
  | _ => False
  end.

(** Calls a critical section makes: the engine, and the clock. *)
Definition section_call (c : Call) : Prop :=
  engine_call c = true \/ c = c_now.

(** An operation is some preparation, then one use of [withLock] around
    its critical section, then some follow-up; only the critical
    section talks to the engine. *)
Definition locked_operation (host : Host) (mind : Mind) {A} (op : M A)
  : Prop :=
  exists (B : Type) (prelude : M B) (section : B -> M A)
         (postlude : A -> M A),
    (forall w,
        op w = (b <- prelude ;;
                a <- withLock host mind (section b) ;;
                postlude a) w)
    /\ emits outside_call prelude
    /\ (forall b, emits section_call (section b))
    /\ (forall a, emits outside_call (postlude a)).

(** [withLock] around any critical section [fn]: if the lock is not
    obtained, [fn] does not run and nothing is held; otherwise [fn] runs
    once, from the state in which the lock is held, the release follows
    its only run whether it returned or threw, and the lock is free
    again unless the release itself failed. *)
Definition runs_in_lock (host : Host) (mind : Mind) {A} (fn : M A)
  (w : World) : Prop :=
  let lp := lockPath_of mind w in
  match acquire host lp w with
  | (Throw e, w1) =>
      withLock host mind fn w = (Throw e, w1)
      /\ locked w1 = locked w
      /\ exists calls,
           log w1 = log w ++ calls
           /\ Forall (fun c => engine_call c = false) calls
  | (Ok _, w_in) =>
      log w_in
      = log w ++ [c_mkdir (Path.dirname lp); c_touch lp; c_lock lp]
      /\ locked w_in = key w lp :: locked w
      /\ ~ In (key w lp) (locked w)
      /\ let '(r, w_out) := fn w_in in
         let '(r', w') := withLock host mind fn w in
         log w' = log w_out ++ [c_release lp]
         /\ match fault host (log w_out) (c_release lp) with
            | None => r' = r /\ ~ In (key w_out lp) (locked w')
            | Some e => r' = Throw e
            end
  end.

(** ** Opening an existing memory file *)

(** The host lets the steps around the engine succeed: loading the
    engine, directories, lock file, lock and release, [stat], [create]. *)
Definition cooperative (host : Host) : Prop :=
  forall history c,
    match c with
    | c_import_sdk | c_mkdir _ | c_touch _ | c_lock _ | c_release _
    | c_stat _ | c_create _ => fault host history c = None
    | _ => True
    end.

(** A handle that [create] returned. *)
Definition created (p : jsstring) : Memvid :=
  {| mv_path := p; mv_created := true |}.

(** The path [Mind.open] resolves for the memory file. *)
Definition open_memoryPath (overrides : ConfigOverrides) (w : World)
  : jsstring :=
  Path.resolve (cwd w)
    [or_str (CLAUDE_PROJECT_DIR w) (cwd w);
     memoryPath (merge_config DEFAULT_CONFIG overrides)].

(** The calls of [Mind.open] up to the moment its lock is held. *)
Definition calls_to_enter (overrides : ConfigOverrides) (w : World)
  : list Call :=
  let mp := open_memoryPath overrides w in
  let lp := mp ++ js ".lock" in
  (if sdkLoaded w then [] else [c_import_sdk])
  ++ [c_mkdir (Path.dirname mp); c_mkdir (Path.dirname lp); c_touch lp;
      c_lock lp].

(** What happens after the critical section: listing and pruning the
    backups, and console lines. *)
Definition housekeeping_call (c : Call) : Prop :=
  match c with
  | c_readdir _ | c_unlink _ | c_console _ => True
  | _ => False
  end.

(** The part of the state that the steps of [Mind.open] leave alone. *)
Definition same_process (w w' : World) : Prop :=
  cwd w' = cwd w /\ CLAUDE_PROJECT_DIR w' = CLAUDE_PROJECT_DIR w
  /\ locked w' = locked w.


(** A memory file of 200 MB, and a host whose engine rejects the file
    it is asked to open. *)
Definition oversized_world : World :=
  project_world [(js "/proj/.claude/mind.mv2", 209715200%Z)].

Definition garbage_world : World :=
  project_world [(js "/proj/.claude/mind.mv2", 2048%Z)].

Definition rejecting_host (message : jsstring) : Host :=
  {| fault := fun _ c => match c with
                         | c_use _ => Some (JsError message)
                         | _ => None
                         end;
     now := now quiet_host;
     random_hex := random_hex quiet_host;
     fresh_size := fresh_size quiet_host;
     put_result := put_result quiet_host;
     find_result := find_result quiet_host;
     ask_result := ask_result quiet_host;
     timeline_result := timeline_result quiet_host;
     stats_result := stats_result quiet_host;
     regexp_error := regexp_error quiet_host;
     regexp_test := regexp_test quiet_host;
     json_parse := json_parse quiet_host;
     json_stringify := json_stringify quiet_host;
     regexp_matches := regexp_matches quiet_host;
     iso_string := iso_string quiet_host |}.

(** The fixed signatures by which an error of the engine is taken for
    a corrupt file: its message contains one of them. *)
Definition carries_signature (e : Thrown) : bool :=
  existsb (includes match e with
                    | JsError message => message
                    | JsValue text => text
                    end)
    [js "Deserialization"; js "UnexpectedVariant"; js "Invalid";
     js "corrupt"; js "validation failed"; js "unable to recover";
     js "table of contents"].

(** When [Mind.open] has returned, the file at [p] holds [size] bytes,
    unless the pruning at the end of [Mind.open] was asked to delete
    it. *)
Definition holds_unless_pruned (w w' : World) (rest : list Call)
  (p : jsstring) (size : Z) : Prop :=
  lookup_file (key w p) (files w') = Some size
  \/ exists q, In (c_unlink q) rest /\ key w q = key w p.

(** A host on which the calls picked out by [fails] throw, and that is
    the quiet host otherwise. *)
Definition failing_host (fails : Call -> bool) (message : jsstring) : Host :=
  {| fault := fun _ c => if fails c then Some (JsError message) else None;
     now := now quiet_host;
     random_hex := random_hex quiet_host;
     fresh_size := fresh_size quiet_host;
     put_result := put_result quiet_host;
     find_result := find_result quiet_host;
     ask_result := ask_result quiet_host;
     timeline_result := timeline_result quiet_host;
     stats_result := stats_result quiet_host;
     regexp_error := regexp_error quiet_host;
     regexp_test := regexp_test quiet_host;
     json_parse := json_parse quiet_host;
     json_stringify := json_stringify quiet_host;
     regexp_matches := regexp_matches quiet_host;
     iso_string := iso_string quiet_host |}.

Definition is_rename (c : Call) : bool :=
  match c with
  | c_rename _ _ => true
  | _ => false
  end.

Definition is_create (c : Call) : bool :=
  match c with
  | c_create _ => true
  | _ => false
  end.

(** The default memory file with five backups, listed out of order. *)
Definition five_backups_world : World :=
  project_world
    [(js "/proj/.claude/mind.mv2.backup-1700000000004", 512%Z);
     (js "/proj/.claude/mind.mv2", 2048%Z);
     (js "/proj/.claude/mind.mv2.backup-1700000000001", 512%Z);
     (js "/proj/.claude/mind.mv2.backup-1700000000005", 512%Z);
     (js "/proj/.claude/notes.txt", 64%Z);
     (js "/proj/.claude/mind.mv2.backup-1700000000002", 512%Z);
     (js "/proj/.claude/mind.mv2.backup-1700000000003", 512%Z)].

(** A host whose engine refuses every write. *)
Definition read_only_host : Host :=
  {| fault := fun _ c => match c with
                         | c_put _ _ => Some (JsError (js "write failed"))
                         | _ => None
                         end;
     now := now quiet_host;
     random_hex := random_hex quiet_host;
     fresh_size := fresh_size quiet_host;
     put_result := put_result quiet_host;
     find_result := find_result quiet_host;
     ask_result := ask_result quiet_host;
     timeline_result := timeline_result quiet_host;
     stats_result := stats_result quiet_host;
     regexp_error := regexp_error quiet_host;
     regexp_test := regexp_test quiet_host;
     json_parse := json_parse quiet_host;
     json_stringify := json_stringify quiet_host;
     regexp_matches := regexp_matches quiet_host;
     iso_string := iso_string quiet_host |}.

Definition a_note : RememberInput :=
  {| ri_type := decision; ri_summary := js "use the file lock";
     ri_content := js "one writer at a time"; ri_tool := None;
     ri_metadata := None |}.

(** The kinds of calls in a log, without their arguments. *)
Definition call_kind (c : Call) : jsstring :=
  match c with
  | c_import_sdk => js "import" | c_mkdir _ => js "mkdir"
  | c_touch _ => js "touch" | c_lock _ => js "lock"
  | c_release _ => js "release" | c_stat _ => js "stat"
  | c_rename _ _ => js "rename" | c_unlink _ => js "unlink"
  | c_readdir _ => js "readdir" | c_create _ => js "create"
  | c_use _ => js "use" | c_put _ _ => js "put" | c_find _ _ _ => js "find"
  | c_ask _ _ => js "ask" | c_timeline _ _ _ => js "timeline"
  | c_stats _ => js "stats" | c_now => js "now" | c_random => js "random"
  | c_console _ => js "console"
  end.

(* ================================================================= *)
(** * Further vocabulary *)

(** The directory under which the glob summarizer files an entry. *)
Definition glob_dir (f : jsstring) : jsstring :=
  or_str (Some (join [SLASH] (slice_init (split SLASH f)))) [SLASH].

(** A listing entry whose directory is the name of a property that
    every plain object inherits. *)
Definition in_inherited_dir (f : jsstring) : bool :=
  existsb (str_eqb (glob_dir f)) Compression.Object_prototype_keys.

(** Text without any character that means something in a regular
    expression, and file names made of such text with at most one dot. *)
Definition plain_text (s : jsstring) : bool :=
  forallb (fun c => negb (RegExpLite.is_syntax_char c)) s.

Definition simple_file_name (baseName : jsstring) : bool :=
  match split 46 baseName with
  | [stem] => plain_text stem
  | [stem; extension] => plain_text stem && plain_text extension
  | _ => false
  end.

(** The path an edit is reported for: the [file_path] of the metadata,
    or [unknown] when that is missing or empty. *)
Definition edited_path (toolInput : option Compression.ToolInput)
  : jsstring :=
  match toolInput with
  | Some ti =>
      match Compression.file_path ti with
      | Some (c :: p) => c :: p
      | _ => js "unknown"
      end
  | None => js "unknown"
  end.

(** [segment] is what stands behind the last separator of [path]: all
    of [path] when it has no separator. *)
Definition last_segment (path segment : jsstring) : Prop :=
  ~ In SLASH segment
  /\ (path = segment \/ exists dir, path = dir ++ SLASH :: segment).

(** The paths handed to [unlink], in order. *)
Definition unlinked (l : list Call) : list jsstring :=
  flat_map (fun c => match c with
                     | c_unlink p => [p]
                     | _ => []
                     end) l.

(** The entries of the directory of [memoryPath] that the backup
    pattern accepts, as [pruneBackups] describes them: in the order of
    the listing, and newest first. *)
Definition accepted_backups (host : Host) (w : World) (memoryPath : jsstring)
  : list Backup :=
  let dir := Path.dirname memoryPath in
  let baseName := or_str (pop (split SLASH memoryPath)) (js "mind.mv2") in
  map (fun f =>
         {| b_name := f;
            b_path := Path.resolve (cwd w) [dir; f];
            b_time := parseInt (or_str (pop (split 45 f)) (js "0")) |})
    (filter (RegExp_test host (backupPattern_source baseName))
       (entries w dir)).

Definition backups_found (host : Host) (w : World) (memoryPath : jsstring)
  : list Backup :=
  stable_sort newer_first (accepted_backups host w memoryPath).

(** Four backups whose numbers lie beyond [2^53]: the second of them is
    no double, and reads as the first. *)
Definition large_times_world : World :=
  project_world
    [(js "/proj/.claude/mind.mv2", 2048%Z);
     (js "/proj/.claude/mind.mv2.backup-9007199254740992", 512%Z);
     (js "/proj/.claude/mind.mv2.backup-9007199254740993", 512%Z);
     (js "/proj/.claude/mind.mv2.backup-9007199254740994", 512%Z);
     (js "/proj/.claude/mind.mv2.backup-9007199254740996", 512%Z)].

(** The same instance with another token budget. *)
Definition with_budget (budget : Z) (mind : Mind) : Mind :=
  {| memvid := memvid mind;
     config :=
       {| memoryPath := memoryPath (config mind);
          maxContextObservations := maxContextObservations (config mind);
          maxContextTokens := budget;
          autoCompress := autoCompress (config mind);
          minConfidence := minConfidence (config mind);
          debug := debug (config mind) |};
     sessionId := sessionId mind;
     initialized := initialized mind |}.

(** A program continued by a pure function of its result. *)
Definition then_apply {A B} (f : A -> B) (m : M A) : M B :=
  fun w =>
    match m w with
    | (Ok a, w') => (Ok (f a), w')
    | (Throw e, w') => (Throw e, w')
    end.

(** The names in the answer of a shell command: the answer loses the
    white space at its two ends, and each non-empty line of what is
    left is a name. *)
Definition answer_lines (out : jsstring) : list jsstring :=
  filter_nonempty (split LF (trim out)).

(** [name] is [line] without a leading [./]. *)
Definition without_dot_slash (line name : jsstring) : Prop :=
  line = 46%N :: 47%N :: name
  \/ (name = line /\ startsWith line [46%N; 47%N] = false).

(** A shell in which nothing is a repository and nothing was edited,
    and one that reports two edited files. *)
Definition empty_shell (c : ShellCommand) : Outcome jsstring :=
  match c with
  | sh_diff_names | sh_staged_names => Ok [LF]
  | sh_diff_stat => Ok []
  | sh_find_recent => Ok []
  end.

Definition busy_shell (c : ShellCommand) : Outcome jsstring :=
  match c with
  | sh_diff_names => Ok (js "src/a.ts" ++ LF :: js "src/b.ts" ++ [LF])
  | sh_staged_names => Ok (js "src/b.ts" ++ [LF])
  | sh_diff_stat => Ok (js " 2 files changed, 3 insertions(+)" ++ [LF])
  | sh_find_recent => Ok (js "./src/a.ts" ++ LF :: js "./README.md" ++ [LF])
  end.

(** The pattern that is meant for the backups of [baseName]: the name
    letter by letter, then [.backup-], then digits. *)
Definition literal_pieces (s : jsstring) : list RegExpLite.Piece :=
  map (fun c => {| RegExpLite.atom := RegExpLite.ALit c;
                   RegExpLite.plus := false |}) s.

Definition backup_suffix_pieces : list RegExpLite.Piece :=
  literal_pieces (js ".backup-")
  ++ [{| RegExpLite.atom := RegExpLite.ADigit; RegExpLite.plus := true |}].

(** The markers the file-read summarizer looks for, as written. *)
Definition todo_markers : list jsstring :=
  [js "TODO"; js "FIXME"; js "HACK"; js "XXX"; js "BUG"].

(** The first unit of a text is not the repetition sign. *)
Definition no_plus_ahead (s : jsstring) : Prop :=
  match s with
  | q :: _ => N.eqb q 43 = false
  | [] => True
  end.

(** What a stored observation must allow: read back through [search],
    a frame with the stored title, label and text shows the type, the
    summary (less leading white space) and the content it was given. *)
Definition recoverable (input : RememberInput) (c : Call) : Prop :=
  match c with
  | c_put _ a =>
      forall frame,
        f_title frame = Some (pa_title a) ->
        f_label frame = Some (pa_label a) ->
        f_text frame = Some (pa_text a) ->
        let found := sr_observation (search_row frame) in
        ob_type found = Some (type_name (ri_type input))
        /\ ob_summary found = trimStart (ri_summary input)
        /\ ob_content found = ri_content input
  | _ => True
  end.

(** The text stored for the changes of a session: a heading, the
    changed files as a list, and after an empty line the git summary in
    a code block, when there is one. *)
Definition changes_text (changes : FileChanges) : jsstring :=
  js "## Files Modified This Session" ++ [LF; LF]
  ++ join [LF] (map (fun f => 45%N :: 32%N :: f) (fc_files changes))
  ++ match fc_gitDiffContent changes with
     | [] => []
     | summary =>
         [LF; LF] ++ js "## Git Changes Summary" ++ [LF] ++ js "```" ++ [LF]
         ++ summary ++ [LF] ++ js "```"
     end.

(** What the [event] handler may do for [session.idle]: it may open
    the store, and of the operations on an open store it uses [put]
    alone, when files changed, for the observation built from them. *)
Definition idle_call (changes : FileChanges) (c : Call) : Prop :=
  match c with
  | c_put _ a =>
      fc_files changes <> []
      /\ pa_title a
         = js "[refactor] Session edits: " ++ num (length (fc_files changes))
           ++ js " file(s) modified"
      /\ pa_label a = js "refactor"
      /\ pa_text a = changes_text changes
  | c_find _ _ _ | c_ask _ _ | c_timeline _ _ _ | c_stats _ => False
  | _ => True
  end.

(** What it may do for an event of the given type: for
    [session.created] it looks at the size of the memory file and does
    nothing else, and for an event that is neither [session.created]
    nor [session.idle] it makes no call. *)
Definition event_call (memoryPath : jsstring) (changes : FileChanges)
  (type : jsstring) (c : Call) : Prop :=
  if str_eqb type (js "session.created") then c = c_stat memoryPath
  else if str_eqb type (js "session.idle") then idle_call changes c
  else False.

(** The context with its token count taken again under [budget]. *)
Definition recount (budget : Z) (ctx : Context) : Context :=
  {| recentObservations := recentObservations ctx;
     relevantMemories := relevantMemories ctx;
     sessionSummaries := sessionSummaries ctx;
     tokenCount := count_tokens budget 0 (recentObservations ctx) |}.

(** Requests and releases of a lock among the calls made. *)
Definition is_lock (c : Call) : bool :=
  match c with
  | c_lock _ => true
  | _ => false
  end.

Definition is_release (c : Call) : bool :=
  match c with
  | c_release _ => true
  | _ => false
  end.

(** An operation asks for a lock at most once, and releases no more
    often than it asked. *)
Definition locks_once {A} (op : M A) : Prop :=
  forall w, exists calls,
    log (snd (op w)) = log w ++ calls
    /\ length (filter is_lock calls) <= 1
    /\ length (filter is_release calls) <= length (filter is_lock calls).

(** A program leaves a component of the state as it found it. *)
Definition keeps {B} (f : World -> B) {A} (m : M A) : Prop :=
  forall w, f (snd (m w)) = f w.

(** A handle that [use] returned. *)
Definition reopened (p : jsstring) : Memvid :=
  {| mv_path := p; mv_created := false |}.

(** The end of [resolve]: the normalized path, rooted when absolute,
    and a dot for an empty relative path. *)
Definition rooted (resolvedAbsolute : bool) (normalized : jsstring)
  : jsstring :=
  if resolvedAbsolute then SLASH :: normalized
  else match normalized with
       | [] => Path.dot
       | _ => normalized
       end.

(** A project whose memory file is in good order. *)
Definition healthy_world : World :=
  project_world [(js "/proj/.claude/mind.mv2", 2048%Z)].

(** A project without a memory file. *)
Definition fresh_world : World := project_world [].

(** The lines the grep summarizer counts as matches and the files it
    names, as it computes them. *)
Definition grep_matches (output : jsstring) : list jsstring :=
  filter_nonempty (split LF output).

Definition grep_named_files (output : jsstring) : list jsstring :=
  dedupe_by str_eqb [] (Compression.grep_files (grep_matches output)).

(** Any call but the import of the engine. *)
Definition not_import (c : Call) : Prop := c <> c_import_sdk.

(** What [Mind.open] does once the engine is loaded. *)
Definition open_loaded (host : Host) (configOverrides : ConfigOverrides)
  : M Mind :=
  let config := merge_config DEFAULT_CONFIG configOverrides in
  here <- get cwd ;;
  env <- get CLAUDE_PROJECT_DIR ;;
  let projectDir := or_str env here in
  let memoryPath := Path.resolve here [projectDir; memoryPath config] in
  let memoryDir := Path.dirname memoryPath in
  mkdir_recursive host memoryDir ;;
  let lockPath := memoryPath ++ js ".lock" in
  memvid <- withMemvidLock host lockPath (open_locked host memoryPath) ;;
  sessionId <- generateId host ;;
  let mind := {| memvid := memvid; config := config; sessionId := sessionId;
                 initialized := true |} in
  pruneBackups host memoryPath 3 ;;
  (if debug config then console_error (LogOpened memoryPath) else ret tt) ;;
  ret mind.

(** A call that uses an open store: [put], [find], [ask], [timeline]
    or [stats]. *)
Definition store_operation (c : Call) : Prop :=
  match c with
  | c_put _ _ | c_find _ _ _ | c_ask _ _ | c_timeline _ _ _ | c_stats _ => True
  | _ => False
  end.

(** A listing of the glob tool that is no JSON and names a directory
    called [toString], long enough to be compressed. *)
Definition inherited_listing : jsstring :=
  repeat_text 200 (js "toString/index.ts" ++ [LF]).
(* ================================================================= *)
(** * Properties *)

(** ** Small runs of the model *)

Example classify_ex1 :
  classifyObservationType (js "Write") (js "Build FAILED with 2 issues") = problem.
Proof. vm_compute. reflexivity. Qed.

Example resolve_ex1 :
  Path.resolve (js "/work") [js "/proj"; js ".claude/mind.mv2"]
  = js "/proj/.claude/mind.mv2".
Proof. vm_compute. reflexivity. Qed.

Example resolve_ex2 :
  Path.resolve (js "/work/a") [js "../b/./c//d"] = js "/work/b/c/d".
Proof. vm_compute. reflexivity. Qed.

Example dirname_ex1 :
  Path.dirname (js "/proj/.claude/mind.mv2.lock") = js "/proj/.claude".
Proof. vm_compute. reflexivity. Qed.

Example dirname_ex2 : Path.dirname (js "/mind.mv2") = js "/".
Proof. vm_compute. reflexivity. Qed.

Example regexp_ex1 :
  RegExpLite.test (js "^mind\.mv2\.backup-\d+$") (js "mind.mv2.backup-1700000000000")
  = Some true.
Proof. vm_compute. reflexivity. Qed.

Example regexp_ex2 :
  RegExpLite.test (js "^mind\.mv2\.backup-\d+$") (js "mind.mv2.backup-17x")
  = Some false.
Proof. vm_compute. reflexivity. Qed.

Example regexp_ex3 :
  RegExpLite.test (js "^c++\.backup-\d+$") (js "c++.backup-1") = None.
Proof. vm_compute. reflexivity. Qed.

Example grep_summary_example :
  Compression.compressGrepOutput None
    (js "a.ts:1:foo" ++ LF :: js "b.ts:2:bar" ++ LF :: js "a.ts:3:baz"
     ++ LF :: js ":x" ++ LF :: js "nocolon")
  = astral 128269 ++ js " Grep: " ++ DQUOTE :: js "pattern" ++ DQUOTE ::
    astral 128193 ++ js " Found in 2 files, 5 matches" ++ LF ::
    astral 128194 ++ js " Files: a.ts, b.ts" ++ LF ::
    js "--- Top matches ---a.ts:1:foo" ++ LF :: js "b.ts:2:bar" ++ LF ::
    js "a.ts:3:baz" ++ LF :: js ":x" ++ LF :: js "nocolon".
Proof. vm_compute. reflexivity. Qed.

(** Directories named by numbers come first among equals, as the keys
    of an object do. *)
Example glob_summary_example :
  Compression.compressGlobOutput (fun _ => None) None
    (js "src/a.ts" ++ LF :: js "src/b.ts" ++ LF :: js "10/c.ts" ++ LF ::
     js "2/x" ++ LF :: js "top.md")
  = Ok (astral 128194 ++ js " Glob: " ++ DQUOTE :: js "pattern" ++ DQUOTE ::
        astral 128193 ++ js " Found 5 files in 4 directories" ++ LF ::
        js "--- Top directories ---src/ (2 files)2/ (1 files)10/ (1 files)// (1 files)"
        ++ LF :: js "--- Sample files ---a.ts, b.ts, c.ts, x, top.md").
Proof. vm_compute. reflexivity. Qed.

(** JSON of the wrong shape is not caught by the [try] around
    [JSON.parse]. *)
Example glob_wrong_shape_example :
  Compression.compressGlobOutput
    (fun _ => Some (Compression.JObject
                      [(js "filenames", Compression.JNumber true)]))
    None (js "{}")
  = Throw (not_a_function "files.forEach").
Proof. vm_compute. reflexivity. Qed.

Example edit_summary_example :
  Compression.compressEditOutput
    (Some {| Compression.file_path := Some (js "/proj/src/index.ts");
             Compression.command := None; Compression.pattern := None |})
    (js "ok")
  = 9999%N :: 65039%N :: js " Edited: index.ts" ++ LF ::
    astral 128221 ++ js " Changes applied successfully" ++ LF :: js "ok".
Proof. vm_compute. reflexivity. Qed.

(** ** Strings *)

Lemma str_eqb_refl (a : jsstring) : str_eqb a a = true.
Proof.
  induction a as [|x a IH]; simpl; [reflexivity|].
  now rewrite N.eqb_refl, IH.
Qed.

Lemma str_eqb_eq (a b : jsstring) : str_eqb a b = true <-> a = b.
Proof.
  split.
  - revert b; induction a as [|x a IH]; intros [|y b] H; simpl in H;
      try discriminate; [reflexivity|].
    apply andb_true_iff in H as [Hx Hab].
    apply N.eqb_eq in Hx. apply IH in Hab. now subst.
  - intros ->. apply str_eqb_refl.
Qed.

Lemma str_eqb_neq (a b : jsstring) : str_eqb a b = false <-> a <> b.
Proof.
  rewrite <- str_eqb_eq. destruct (str_eqb a b); split; intros H; congruence.
Qed.

Lemma split_nonempty (sep : N) (s : jsstring) : split sep s <> [].
Proof.
  induction s as [|c s IH]; simpl; [discriminate|].
  destruct (N.eqb c sep); [discriminate|].
  destruct (split sep s); [contradiction|discriminate].
Qed.

(** Splitting on a unit and joining on it again gives the text back. *)
Lemma join_split (sep : N) (s : jsstring) : join [sep] (split sep s) = s.
Proof.
  induction s as [|c s IH]; simpl; [reflexivity|].
  destruct (N.eqb c sep) eqn:E.
  - apply N.eqb_eq in E; subst c.
    pose proof (split_nonempty sep s) as Hne.
    destruct (split sep s) as [|l ls]; [contradiction|].
    simpl in *. now rewrite IH.
  - pose proof (split_nonempty sep s) as Hne.
    destruct (split sep s) as [|l ls]; [contradiction|].
    destruct ls as [|l' ls]; simpl in *; now rewrite <- IH.
Qed.

(** The number of parts is the number of separators plus one. *)
Lemma length_split (sep : N) (s : jsstring) :
  length (split sep s) = S (count_occ N.eq_dec s sep).
Proof.
  induction s as [|c s IH]; simpl; [reflexivity|].
  destruct (N.eqb c sep) eqn:E.
  - apply N.eqb_eq in E; subst c. simpl.
    destruct (N.eq_dec sep sep); [|contradiction]. now rewrite IH.
  - apply N.eqb_neq in E.
    destruct (N.eq_dec c sep); [contradiction|].
    pose proof (split_nonempty sep s) as Hne.
    destruct (split sep s) as [|l ls]; [contradiction|]. exact IH.
Qed.

Lemma startsWith_nil (s : jsstring) : startsWith s [] = true.
Proof. now destruct s. Qed.

Lemma startsWith_skipn (s x : jsstring) :
  startsWith s x = true -> s = x ++ skipn (length x) s.
Proof.
  revert s. induction x as [|c x IH]; intros s H; [reflexivity|].
  destruct s as [|d s]; simpl in H; [discriminate H|].
  apply andb_true_iff in H as [Hc Hs]. apply N.eqb_eq in Hc. subst d.
  simpl. f_equal. now apply IH.
Qed.

Lemma startsWith_self_app (x rest : jsstring) : startsWith (x ++ rest) x = true.
Proof.
  induction x as [|c x IH]; simpl; [now destruct rest|].
  now rewrite N.eqb_refl, IH.
Qed.

Lemma includes_middle (front x rest : jsstring) :
  includes (front ++ x ++ rest) x = true.
Proof.
  induction front as [|c front IH].
  - pose proof (startsWith_self_app x rest) as H. cbn [app].
    destruct (x ++ rest); cbn [includes]; now rewrite H.
  - cbn [app includes]. rewrite IH. apply orb_true_r.
Qed.

Lemma includes_iff (s sub : jsstring) :
  includes s sub = true <-> exists front rest, s = front ++ sub ++ rest.
Proof.
  split.
  - induction s as [|c s IH]; cbn [includes]; intros H.
    + rewrite orb_false_r in H. apply startsWith_skipn in H.
      exists [], (skipn (length sub) []). exact H.
    + apply orb_true_iff in H as [H|H].
      * apply startsWith_skipn in H.
        exists [], (skipn (length sub) (c :: s)). exact H.
      * destruct (IH H) as (front & rest & ->).
        exists (c :: front), rest. reflexivity.
  - intros (front & rest & ->). apply includes_middle.
Qed.

Lemma includes_trans (a b c : jsstring) :
  includes a b = true -> includes b c = true -> includes a c = true.
Proof.
  rewrite !includes_iff. intros (f1 & r1 & ->) (f2 & r2 & ->).
  exists (f1 ++ f2), (r2 ++ r1). now rewrite <- !app_assoc.
Qed.

Lemma includes_lower (s sub : jsstring) :
  includes s sub = true ->
  includes (toLowerCase s) (toLowerCase sub) = true.
Proof.
  rewrite !includes_iff. intros (front & rest & ->).
  exists (toLowerCase front), (toLowerCase rest).
  unfold toLowerCase. now rewrite !map_app.
Qed.

Lemma includes_in_part (before part after sub : jsstring) :
  includes part sub = true -> includes (before ++ part ++ after) sub = true.
Proof.
  rewrite !includes_iff. intros (front & rest & ->).
  exists (before ++ front), (rest ++ after). now rewrite <- !app_assoc.
Qed.

Lemma includes_end (front sub : jsstring) :
  includes (front ++ sub) sub = true.
Proof.
  rewrite <- (app_nil_r sub) at 1. apply includes_middle.
Qed.

(** ** The compression engine *)

Section CompressionFacts.

Import Compression.

Variable JSON_parse : jsstring -> option JsonValue.
Variable RegExp_matches : SourceRegExp -> jsstring -> list Match.

Lemma truncateToTarget_length (text : jsstring) :
  length (truncateToTarget text) <= TARGET_COMPRESSED_SIZE.
Proof.
  unfold truncateToTarget.
  destruct (length text <=? TARGET_COMPRESSED_SIZE) eqn:E.
  - now apply Nat.leb_le.
  - rewrite length_app. unfold slice0. rewrite length_firstn.
    unfold TARGET_COMPRESSED_SIZE. simpl length. lia.
Qed.

Lemma truncateToTarget_cut (text : jsstring) :
  TARGET_COMPRESSED_SIZE < length text ->
  truncateToTarget text = firstn 1980 text ++ truncation_marker.
Proof.
  intros H. unfold truncateToTarget.
  destruct (length text <=? TARGET_COMPRESSED_SIZE) eqn:E.
  - apply Nat.leb_le in E. lia.
  - reflexivity.
Qed.

Lemma truncateToTarget_keep (text : jsstring) :
  length text <= TARGET_COMPRESSED_SIZE -> truncateToTarget text = text.
Proof.
  intros H. unfold truncateToTarget.
  apply Nat.leb_le in H. now rewrite H.
Qed.

(** Whatever the summarizer, a result above the threshold is marked as
    compressed, is the truncation of some summary, and fits the target. *)
Lemma compress_large_result toolName toolInput output r :
  COMPRESSION_THRESHOLD < length output ->
  compressToolOutput JSON_parse RegExp_matches toolName toolInput output = Ok r ->
  wasCompressed r = true
  /\ originalSize r = length output
  /\ length (compressed r) <= TARGET_COMPRESSED_SIZE
  /\ exists summary,
       compressed r = truncateToTarget summary
       /\ (TARGET_COMPRESSED_SIZE < length summary ->
           compressed r = firstn 1980 summary ++ truncation_marker).
Proof.
  intros Hlen H. unfold compressToolOutput in H.
  destruct (length output <=? COMPRESSION_THRESHOLD) eqn:E.
  { apply Nat.leb_le in E. lia. }
  match type of H with
  | match ?s with _ => _ end = _ => destruct s as [text|e] eqn:Es
  end; [|discriminate].
  injection H as <-. simpl.
  repeat split; try apply truncateToTarget_length.
  exists text. split; [reflexivity|apply truncateToTarget_cut].
Qed.

(** Only the glob summarizer can throw. *)
Lemma compress_returns toolName toolInput output :
  toolName <> js "Glob" ->
  exists r,
    compressToolOutput JSON_parse RegExp_matches toolName toolInput output
    = Ok r.
Proof.
  intros Hglob. apply str_eqb_neq in Hglob.
  unfold compressToolOutput.
  destruct (length output <=? COMPRESSION_THRESHOLD); [eauto|].
  destruct (str_eqb toolName (js "Read")); [eauto|].
  destruct (str_eqb toolName (js "Bash")); [eauto|].
  destruct (str_eqb toolName (js "Grep")); [eauto|].
  rewrite Hglob.
  destruct (str_eqb toolName (js "Edit") || str_eqb toolName (js "Write"));
    eauto.
Qed.

(** Below the threshold nothing is touched, whatever the tool. *)
Lemma compress_small toolName toolInput output :
  length output <= COMPRESSION_THRESHOLD ->
  compressToolOutput JSON_parse RegExp_matches toolName toolInput output
  = Ok {| compressed := output; wasCompressed := false;
          originalSize := length output |}.
Proof.
  intros H. unfold compressToolOutput.
  apply Nat.leb_le in H. now rewrite H.
Qed.

End CompressionFacts.

(** C3. For every tool name, tool input and output of at most 3000
    units, [compressToolOutput] returns the output unchanged with
    [wasCompressed = false] and [originalSize] the length of the output. *)
Theorem compress_below_threshold_unchanged
  (JSON_parse : jsstring -> option Compression.JsonValue)
  (RegExp_matches : Compression.SourceRegExp -> jsstring
                    -> list Compression.Match)
  (toolName : jsstring) (toolInput : option Compression.ToolInput)
  (output : jsstring) :
  length output <= 3000 ->
  exists r,
    Compression.compressToolOutput JSON_parse RegExp_matches
      toolName toolInput output = Ok r
    /\ Compression.compressed r = output
    /\ Compression.wasCompressed r = false
    /\ Compression.originalSize r = length output.
Proof.
  intros H. eexists. split.
  - apply compress_small. exact H.
  - simpl. auto.
Qed.

Lemma compress_below_threshold_unchanged_witness :
  length (js "All tests passed") <= 3000
  /\ exists r,
    Compression.compressToolOutput (fun _ => None) (fun _ _ => [])
      (js "Bash") npm_test_input (js "All tests passed") = Ok r
    /\ Compression.compressed r = js "All tests passed"
    /\ Compression.wasCompressed r = false
    /\ Compression.originalSize r = length (js "All tests passed").
Proof.
  split; [simpl; lia|].
  apply compress_below_threshold_unchanged. simpl. lia.
Defined.

(** C2. Above 3000 units [compressToolOutput] is to return a result
    marked as compressed with at most 2000 units.  For the glob tool
    and a listing of 3150 units whose entries sit in a directory named
    [constructor] it throws a [TypeError] instead: [byDir] is a plain
    object, so [byDir["constructor"]] is the inherited function, which
    is truthy and has no [push]. *)
Theorem compress_glob_listing_throws (host : Host) :
  3000 < length constructor_listing
  /\ Compression.compressToolOutput (JSON_parse host) (regexp_matches host)
       (js "Glob") None constructor_listing
     = Throw (not_a_function "byDir[dir].push").
Proof.
  split.
  - vm_compute. lia.
  - unfold Compression.compressToolOutput, Compression.compressGlobOutput,
      Compression.glob_files, JSON_parse.
    replace (may_be_json constructor_listing) with false
      by (vm_compute; reflexivity).
    vm_compute. reflexivity.
Qed.

(** ** The classifier *)

Lemma mentions_existsb (output : jsstring) (markers : list jsstring) :
  mentions output markers
  <-> existsb (includes (toLowerCase output)) markers = true.
Proof.
  unfold mentions. rewrite existsb_exists. reflexivity.
Qed.

Lemma not_mentions_existsb (output : jsstring) (markers : list jsstring) :
  ~ mentions output markers
  <-> existsb (includes (toLowerCase output)) markers = false.
Proof.
  rewrite mentions_existsb.
  destruct (existsb _ markers); split; intros; congruence.
Qed.

(** The classifier as a decision list over the marker groups. *)
Lemma classify_unfold (toolName output : jsstring) :
  classifyObservationType toolName output =
  let found := existsb (includes (toLowerCase output)) in
  if found problem_markers then problem
  else if found success_markers then success
  else if found warning_markers then warning
  else if existsb (str_eqb toolName) [js "Read"; js "Glob"; js "Grep"]
       then discovery
  else if str_eqb toolName (js "Edit")
       then (if found fix_markers then bugfix else refactor)
  else if str_eqb toolName (js "Write") then feature
  else discovery.
Proof.
  unfold classifyObservationType, problem_markers, success_markers,
    warning_markers, fix_markers.
  cbn [existsb]. rewrite !orb_false_r, !orb_assoc. reflexivity.
Qed.

Lemma tool_default_fun (toolName output : jsstring) (t : ObservationType) :
  tool_default toolName output t
  <-> (if existsb (str_eqb toolName) [js "Read"; js "Glob"; js "Grep"]
       then discovery
       else if str_eqb toolName (js "Edit")
            then (if existsb (includes (toLowerCase output)) fix_markers
                  then bugfix else refactor)
            else if str_eqb toolName (js "Write") then feature
                 else discovery) = t.
Proof.
  split.
  - intros H. destruct H as [Hin|He Hm|He Hm|Hw|Hn].
    + assert (existsb (str_eqb toolName) [js "Read"; js "Glob"; js "Grep"]
              = true) as ->; [|reflexivity].
      apply existsb_exists. exists toolName. split; [exact Hin|].
      apply str_eqb_refl.
    + subst toolName. apply mentions_existsb in Hm.
      cbn [existsb]. rewrite Hm. reflexivity.
    + subst toolName. apply not_mentions_existsb in Hm.
      cbn [existsb]. rewrite Hm. reflexivity.
    + subst toolName. reflexivity.
    + destruct (existsb (str_eqb toolName) [js "Read"; js "Glob"; js "Grep"])
        eqn:E1; [reflexivity|].
      destruct (str_eqb toolName (js "Edit")) eqn:E2.
      { apply str_eqb_eq in E2. exfalso. apply Hn. subst. simpl. tauto. }
      destruct (str_eqb toolName (js "Write")) eqn:E3; [|reflexivity].
      apply str_eqb_eq in E3. exfalso. apply Hn. subst. simpl. tauto.
  - destruct (existsb (str_eqb toolName) [js "Read"; js "Glob"; js "Grep"])
      eqn:E1.
    { intros <-. apply td_lookup.
      apply existsb_exists in E1 as (x & Hin & Hx).
      apply str_eqb_eq in Hx. now subst. }
    destruct (str_eqb toolName (js "Edit")) eqn:E2.
    { apply str_eqb_eq in E2.
      destruct (existsb (includes (toLowerCase output)) fix_markers) eqn:E;
        intros <-.
      - apply td_edit_fix; [exact E2|]. now apply mentions_existsb.
      - apply td_edit_other; [exact E2|]. now apply not_mentions_existsb. }
    destruct (str_eqb toolName (js "Write")) eqn:E3.
    { apply str_eqb_eq in E3. intros <-. now apply td_write. }
    intros <-. apply td_unknown. intros Hin.
    apply str_eqb_neq in E2, E3.
    assert (In toolName [js "Read"; js "Glob"; js "Grep"]) as Hin'.
    { simpl in Hin |- *. intuition congruence. }
    assert (existsb (str_eqb toolName) [js "Read"; js "Glob"; js "Grep"]
            = true); [|congruence].
    apply existsb_exists. exists toolName. split; [exact Hin'|].
    apply str_eqb_refl.
Qed.

(** C6. [classifyObservationType] is a function of the tool name and
    the output alone, and it computes exactly the priority order of the
    specification: a problem marker in the lower-cased output gives
    [problem] whatever the tool; otherwise a success marker gives
    [success]; otherwise a warning marker gives [warning]; only then the
    tool's default applies (Read, Glob, Grep: discovery; Edit: bugfix
    when the output mentions fix or bug, else refactor; Write: feature;
    any other tool: discovery). *)
Theorem classify_follows_priority (toolName output : jsstring) :
  (forall t, classified toolName output t
             <-> classifyObservationType toolName output = t)
  /\ (mentions output problem_markers ->
      forall otherTool, classifyObservationType otherTool output = problem).
Proof.
  split.
  - intros t. rewrite classify_unfold. cbv zeta. split.
    + intros H. destruct H as [Hp|Hp Hs|Hp Hs Hw|t Hp Hs Hw Hd].
      * apply mentions_existsb in Hp. now rewrite Hp.
      * apply not_mentions_existsb in Hp. apply mentions_existsb in Hs.
        now rewrite Hp, Hs.
      * apply not_mentions_existsb in Hp, Hs. apply mentions_existsb in Hw.
        now rewrite Hp, Hs, Hw.
      * apply not_mentions_existsb in Hp, Hs, Hw. rewrite Hp, Hs, Hw.
        now apply tool_default_fun.
    + destruct (existsb _ problem_markers) eqn:Ep.
      { intros <-. apply cl_problem. now apply mentions_existsb. }
      destruct (existsb _ success_markers) eqn:Es.
      { intros <-. apply cl_success; [now apply not_mentions_existsb|].
        now apply mentions_existsb. }
      destruct (existsb _ warning_markers) eqn:Ew.
      { intros <-. apply cl_warning; try now apply not_mentions_existsb.
        now apply mentions_existsb. }
      intros H. apply cl_default; try now apply not_mentions_existsb.
      now apply tool_default_fun.
  - intros Hp otherTool. rewrite classify_unfold. cbv zeta.
    apply mentions_existsb in Hp. now rewrite Hp.
Qed.

Lemma classify_follows_priority_witness :
  mentions (js "Build FAILED with 2 issues") problem_markers
  /\ classifyObservationType (js "Write") (js "Build FAILED with 2 issues")
     = problem.
Proof.
  assert (mentions (js "Build FAILED with 2 issues") problem_markers) as H.
  { exists (js "failed"). split; [simpl; tauto|vm_compute; reflexivity]. }
  split; [exact H|].
  exact (proj2 (classify_follows_priority (js "Read")
                  (js "Build FAILED with 2 issues")) H (js "Write")).
Defined.

(** ** The command summary *)

Lemma join_empty_sep (parts : list jsstring) : join [] parts = concat parts.
Proof.
  induction parts as [|p ps IH]; [reflexivity|].
  destruct ps as [|q ps].
  - simpl. now rewrite app_nil_r.
  - change (join [] (p :: q :: ps)) with (p ++ [] ++ join [] (q :: ps)).
    rewrite IH. reflexivity.
Qed.

Lemma bash_error_line_markers (l : jsstring) :
  Compression.bash_error_line l = has_marker bash_error_markers l.
Proof.
  unfold Compression.bash_error_line, has_marker, bash_error_markers.
  cbn [existsb]. now rewrite !orb_false_r, !orb_assoc.
Qed.

Lemma bash_success_line_markers (l : jsstring) :
  Compression.bash_success_line l = has_marker bash_success_markers l.
Proof.
  unfold Compression.bash_success_line, has_marker, bash_success_markers.
  cbn [existsb]. now rewrite !orb_false_r, !orb_assoc.
Qed.

Lemma compressBashOutput_report (toolInput : option Compression.ToolInput)
  (output : jsstring) :
  Compression.compressBashOutput toolInput output
  = bash_report (fun n => n <=? 20) toolInput output.
Proof.
  unfold Compression.compressBashOutput, bash_report, first_line,
    slice0, slice_last.
  rewrite (filter_ext _ _ bash_error_line_markers).
  rewrite (filter_ext _ _ bash_success_line_markers).
  rewrite <- length_split.
  set (lines := split LF output).
  set (errors := filter (has_marker bash_error_markers) lines).
  set (successes := filter (has_marker bash_success_markers) lines).
  assert (join [LF] lines = output) as Hjoin by apply join_split.
  assert ((20 <? length lines) = negb (length lines <=? 20)) as ->.
  { destruct (Nat.ltb_spec 20 (length lines));
      destruct (Nat.leb_spec (length lines) 20); simpl; try reflexivity; lia. }
  destruct errors as [|e errors]; destruct successes as [|s successes];
    destruct (length lines <=? 20);
    cbn [length Nat.ltb Nat.leb negb]; rewrite join_empty_sep;
    cbn [concat app]; rewrite ?Hjoin, ?app_nil_r, <- ?app_assoc;
    cbn [app]; rewrite <- ?app_assoc; reflexivity.
Qed.

(** A line of the kind of the specification's example counts for its
    section. *)
Lemma error_line_marked (line : jsstring) :
  includes line (js "Error: failed") = true ->
  has_marker bash_error_markers line = true.
Proof.
  intros H. apply includes_lower in H.
  unfold has_marker, bash_error_markers. cbn [existsb].
  assert (includes (toLowerCase line) (js "error") = true) as ->
    by (eapply includes_trans; [exact H|vm_compute; reflexivity]).
  reflexivity.
Qed.

Lemma success_line_marked (line : jsstring) :
  includes line (js "All tests passed") = true ->
  has_marker bash_success_markers line = true.
Proof.
  intros H. apply includes_lower in H.
  unfold has_marker, bash_success_markers. cbn [existsb].
  assert (includes (toLowerCase line) (js "passed") = true) as ->
    by (eapply includes_trans; [exact H|vm_compute; reflexivity]).
  now rewrite orb_true_r.
Qed.

Lemma filter_found {A} (f : A -> bool) (l : list A) (x : A) :
  In x l -> f x = true -> filter f l <> [].
Proof.
  intros Hin Hf Hnil.
  assert (In x (filter f l)) as H by (apply filter_In; auto).
  rewrite Hnil in H. exact H.
Qed.

(** C9 (as amended). The command summary consists of: the first line of
    the command cut to 100 units; when some line contains "error",
    "failed", "exception" or "warning" (in any case), their number and
    the first 10 of them; when some line contains "success", "passed",
    "completed" or "done", the first 5 of those; the total number of
    lines; and then the whole output when it has at most 20 lines, else
    its first 10 and last 5 lines.  For an output of more than 3000
    units the compressed result is this summary when it has at most
    2000 units, and otherwise its first 1980 units followed by the
    truncation marker; it never exceeds 2000 units.  For an output with
    a line containing "Error: failed" and a line containing "All tests
    passed" the summary has the error section, the success section and
    the line count; they are in the result when the summary is not
    cut. *)
Theorem bash_summary_sections :
  (forall toolInput output,
      Compression.compressBashOutput toolInput output
      = bash_report (fun n => n <=? 20) toolInput output)
  /\ (forall JSON_parse RegExp_matches toolInput output,
        3000 < length output ->
        let report := bash_report (fun n => n <=? 20) toolInput output in
        exists r,
          Compression.compressToolOutput JSON_parse RegExp_matches
            (js "Bash") toolInput output = Ok r
          /\ length (Compression.compressed r) <= 2000
          /\ (length report <= 2000 -> Compression.compressed r = report)
          /\ (2000 < length report ->
              Compression.compressed r
              = firstn 1980 report ++ truncation_marker))
  /\ (forall toolInput output,
        let report := bash_report (fun n => n <=? 20) toolInput output in
        ((exists line,
             In line (split LF output)
             /\ includes line (js "Error: failed") = true) ->
         includes report (10060%N :: js " Errors (") = true)
        /\ ((exists line,
                In line (split LF output)
                /\ includes line (js "All tests passed") = true) ->
            includes report (9989%N :: js " Success indicators:") = true)
        /\ includes report (js " lines total") = true).
Proof.
  split; [apply compressBashOutput_report|]. split.
  - intros JSON_parse RegExp_matches toolInput output Hlong report.
    eexists. split.
    + unfold Compression.compressToolOutput.
      destruct (Nat.leb_spec (length output) Compression.COMPRESSION_THRESHOLD)
        as [Hle|_]; [unfold Compression.COMPRESSION_THRESHOLD in Hle; lia|].
      replace (str_eqb (js "Bash") (js "Read")) with false
        by (vm_compute; reflexivity).
      replace (str_eqb (js "Bash") (js "Bash")) with true
        by (vm_compute; reflexivity).
      rewrite compressBashOutput_report. fold report. reflexivity.
    + cbn [Compression.compressed]. split; [|split].
      * apply truncateToTarget_length.
      * apply truncateToTarget_keep.
      * apply truncateToTarget_cut.
  - intros toolInput output report. unfold report, bash_report.
    set (lines := split LF output).
    set (errors := filter (has_marker bash_error_markers) lines).
    set (successes := filter (has_marker bash_success_markers) lines).
    match goal with
    | |- context [?c ++ ?e ++ ?s ++ ?f ++ ?t] =>
        set (command := c); set (footer := f); set (tail := t)
    end.
    split; [|split].
    + intros (line & Hline & Hmark).
      assert (errors <> []) as Hne
        by (eapply filter_found; [exact Hline|now apply error_line_marked]).
      destruct errors as [|e errs]; [contradiction|].
      apply includes_in_part.
      match goal with
      | |- includes (LF :: ?c :: ?a ++ ?r) _ = true =>
          exact (includes_middle [LF] (c :: a) r)
      end.
    + intros (line & Hline & Hmark).
      assert (successes <> []) as Hne
        by (eapply filter_found; [exact Hline|now apply success_line_marked]).
      destruct successes as [|s0 succs]; [contradiction|].
      rewrite app_assoc. apply includes_in_part.
      match goal with
      | |- includes (LF :: ?c :: ?a ++ ?r) _ = true =>
          exact (includes_middle [LF] (c :: a) r)
      end.
    + rewrite !app_assoc. rewrite <- (app_assoc _ footer tail).
      apply includes_in_part. unfold footer.
      rewrite app_comm_cons, !app_assoc. apply includes_end.
Qed.

(** The test log of a hundred short passing lines, one failure and the
    verdict: its summary is not cut, and shows the three sections. *)
Example bash_npm_test_example :
  exists r,
    Compression.compressToolOutput (fun _ => None) (fun _ _ => [])
      (js "Bash") npm_test_input npm_test_log = Ok r
    /\ length npm_test_log = 3558
    /\ includes (Compression.compressed r)
         (10060%N :: js " Errors (1):Error: failed to load") = true
    /\ includes (Compression.compressed r)
         (9989%N :: js " Success indicators:All tests passed") = true
    /\ includes (Compression.compressed r)
         (js " Output: 122 lines total") = true
    /\ length (Compression.compressed r) <= 2000.
Proof.
  eexists. split; [vm_compute; reflexivity|].
  cbn [Compression.compressed].
  repeat split; vm_compute; try reflexivity.
  apply Nat.leb_le. vm_compute. reflexivity.
Qed.

(** C9, as stated, fails in two ways.  An output of exactly twenty
    lines (3219 units) is included in full: read with "under 20 lines"
    the summary would end with the first 10 and last 5 lines.  And a
    log of 3461 units with thirteen long lines containing "Error:
    failed" and a last line "All tests passed" has a summary of more
    than 2000 units: the result is cut inside the error section, and
    shows neither the success section nor the line count. *)
Lemma bash_summary_counterexample :
  (3000 < length twenty_lines
   /\ length (split LF twenty_lines) = 20
   /\ Compression.compressBashOutput None twenty_lines
      <> bash_report (fun n => n <? 20) None twenty_lines)
  /\ (length long_errors_log = 3461
      /\ In (js "All tests passed") (split LF long_errors_log)
      /\ exists r,
           Compression.compressToolOutput (fun _ => None) (fun _ _ => [])
             (js "Bash") npm_test_input long_errors_log = Ok r
           /\ includes (Compression.compressed r) (js " Errors (13):") = true
           /\ includes (Compression.compressed r) (js "Success indicators")
              = false
           /\ includes (Compression.compressed r) (js "lines total") = false
           /\ skipn 1980 (Compression.compressed r) = truncation_marker).
Proof.
  split; [split; [|split]|split; [|split]].
  - apply Nat.ltb_lt. vm_compute. reflexivity.
  - vm_compute. reflexivity.
  - intros H.
    assert (includes (Compression.compressBashOutput None twenty_lines)
              (js "--- Full output ---")
            = includes (bash_report (fun n => n <? 20) None twenty_lines)
                (js "--- Full output ---")) as Hinc by (rewrite H; reflexivity).
    vm_compute in Hinc. discriminate Hinc.
  - vm_compute. reflexivity.
  - vm_compute. tauto.
  - eexists. split; [vm_compute; reflexivity|].
    cbn [Compression.compressed].
    split; [vm_compute; reflexivity|]. split; [vm_compute; reflexivity|].
    split; [vm_compute; reflexivity|].
    vm_compute. reflexivity.
Qed.

(** ** Reasoning about effects *)

Lemma bind_Ok {A B} (m : M A) (k : A -> M B) (w w' : World) (b : B) :
  bind m k w = (Ok b, w') ->
  exists a w1, m w = (Ok a, w1) /\ k a w1 = (Ok b, w').
Proof.
  unfold bind. destruct (m w) as [[a|e] w1]; intros H; [eauto|discriminate].
Qed.

Lemma try_finally_Ok {A} (m : M A) (f : M unit) (w w' : World) (a : A) :
  try_finally m f w = (Ok a, w') ->
  exists w1, m w = (Ok a, w1).
Proof.
  unfold try_finally. destruct (m w) as [r w1].
  destruct (f w1) as [[u|e] w2]; intros H; [|discriminate].
  injection H as -> _. eauto.
Qed.

(** A locked operation that returns got its value from its critical
    section. *)
Lemma withLock_Ok {A} (host : Host) (mind : Mind) (fn : M A)
  (w w' : World) (a : A) :
  withLock host mind fn w = (Ok a, w') ->
  exists w_in w_out, fn w_in = (Ok a, w_out).
Proof.
  unfold withLock, withMemvidLock. intros H.
  apply bind_Ok in H as (p & w1 & _ & H).
  apply bind_Ok in H as (u1 & w2 & _ & H).
  apply bind_Ok in H as (u2 & w3 & _ & H).
  apply bind_Ok in H as (u3 & w4 & _ & H).
  apply try_finally_Ok in H as (w5 & H). eauto.
Qed.

(** ** The context budget *)

Lemma estimateTokens_ceiling (text : jsstring) :
  length text <= 4 * estimateTokens text
  /\ 4 * estimateTokens text < length text + 4.
Proof.
  unfold estimateTokens.
  pose proof (Nat.div_mod_eq (length text + 3) 4) as H.
  pose proof (Nat.mod_upper_bound (length text + 3) 4) as Hm.
  lia.
Qed.

(** What the code counts for an observation is a quarter of the
    length of its bracketed line, rounded up. *)
Lemma quarter_up_spec (n : nat) :
  n <= 4 * quarter_up n /\ 4 * quarter_up n < n + 4.
Proof.
  unfold quarter_up.
  pose proof (Nat.div_mod_eq n 4) as H.
  pose proof (Nat.mod_upper_bound n 4) as Hm.
  destruct (Nat.eqb_spec (n mod 4) 0); lia.
Qed.

Lemma context_line_bracketed (obs : Observation) :
  context_line obs = bracketed_summary obs.
Proof.
  unfold context_line, bracketed_summary.
  change (js "[") with [91%N]. change (js "] ") with [93%N; 32%N].
  reflexivity.
Qed.

Lemma line_tokens_counted (obs : Observation) :
  estimateTokens (context_line obs) = line_tokens obs.
Proof.
  rewrite context_line_bracketed. unfold line_tokens.
  pose proof (estimateTokens_ceiling (bracketed_summary obs)) as He.
  pose proof (quarter_up_spec (length (bracketed_summary obs))) as Hq.
  lia.
Qed.

Lemma tokens_of_cons (obs : Observation) (rest : list Observation) :
  tokens_of (obs :: rest) = estimateTokens (context_line obs) + tokens_of rest.
Proof. rewrite line_tokens_counted. reflexivity. Qed.

Lemma count_tokens_bound budget n observations :
  (Z.of_nat n <= budget)%Z ->
  (Z.of_nat (count_tokens budget n observations) <= budget)%Z.
Proof.
  revert n. induction observations as [|obs rest IH]; intros n Hn; simpl.
  - exact Hn.
  - destruct (Z.ltb_spec budget
                (Z.of_nat (n + estimateTokens (context_line obs)))).
    + exact Hn.
    + apply IH. assumption.
Qed.

(** The count is the sum over a prefix, and the first observation
    after the prefix would not have fitted. *)
Lemma count_tokens_prefix budget n observations :
  exists k,
    k <= length observations
    /\ count_tokens budget n observations
       = n + tokens_of (firstn k observations)
    /\ (k < length observations ->
        (budget < Z.of_nat (n + tokens_of (firstn (S k) observations)))%Z).
Proof.
  revert n. induction observations as [|obs rest IH]; intros n.
  - exists 0. simpl. unfold tokens_of. simpl. split; [lia|]. split; lia.
  - simpl count_tokens.
    destruct (Z.ltb_spec budget
                (Z.of_nat (n + estimateTokens (context_line obs)))) as [Hlt|Hge].
    + exists 0. cbn [firstn length]. unfold tokens_of at 1. simpl list_sum.
      split; [lia|]. split; [lia|]. intros _.
      rewrite tokens_of_cons. unfold tokens_of at 1. simpl list_sum.
      rewrite Nat.add_0_r. exact Hlt.
    + destruct (IH (n + estimateTokens (context_line obs)))
        as (k & Hk & Heq & Hover).
      exists (S k). cbn [length]. split; [lia|]. split.
      * rewrite Heq. cbn [firstn]. rewrite tokens_of_cons. lia.
      * intros Hlen. assert (k < length rest) as Hk' by lia.
        specialize (Hover Hk').
        change (firstn (S (S k)) (obs :: rest))
          with (obs :: firstn (S k) rest).
        rewrite tokens_of_cons. lia.
Qed.

Lemma getContext_observations host mind query w ctx w' :
  getContext host mind query w = (Ok ctx, w') ->
  tokenCount ctx
  = count_tokens (maxContextTokens (config mind)) 0 (recentObservations ctx)
  /\ Forall (fun obs => ob_type obs <> None) (recentObservations ctx).
Proof.
  unfold getContext. intros H.
  apply withLock_Ok in H as (w_in & w_out & H).
  unfold getContext_locked in H.
  apply bind_Ok in H as (timeline & w1 & _ & H).
  apply bind_Ok in H as (relevant & w2 & _ & H).
  unfold ret in H. injection H as <- _. split; [reflexivity|].
  cbn [recentObservations]. apply Forall_forall. intros obs Hobs.
  apply in_map_iff in Hobs as (frame & <- & _). discriminate.
Qed.

(** C7 (as amended). For a token budget that is not negative, the
    [tokenCount] that [getContext] returns never exceeds the budget.
    Every recent observation has a type, and counts with a quarter,
    rounded up, of the length of the text made of an opening bracket,
    its type, a closing bracket, a space and its summary.  The count is
    the sum of these over the longest prefix of the recent observations
    that fits, so the observation that would overflow, and all after
    it, add nothing. *)
Theorem getContext_within_budget host mind query w ctx w' :
  (0 <= maxContextTokens (config mind))%Z ->
  getContext host mind query w = (Ok ctx, w') ->
  (Z.of_nat (tokenCount ctx) <= maxContextTokens (config mind))%Z
  /\ (exists k,
         k <= length (recentObservations ctx)
         /\ tokenCount ctx = tokens_of (firstn k (recentObservations ctx))
         /\ (k < length (recentObservations ctx) ->
             (maxContextTokens (config mind)
              < Z.of_nat (tokens_of (firstn (S k) (recentObservations ctx))))%Z))
  /\ Forall (fun obs => ob_type obs <> None) (recentObservations ctx)
  /\ (forall obs type,
         ob_type obs = Some type ->
         let text := js "[" ++ type ++ js "] " ++ ob_summary obs in
         length text <= 4 * line_tokens obs
         /\ 4 * line_tokens obs < length text + 4).
Proof.
  intros Hbudget H. apply getContext_observations in H as [H Htypes].
  rewrite H. split; [|split; [|split]].
  - apply count_tokens_bound. simpl. exact Hbudget.
  - destruct (count_tokens_prefix (maxContextTokens (config mind)) 0
                (recentObservations ctx)) as (k & Hk & Heq & Hover).
    exists k. simpl in Heq, Hover. auto.
  - exact Htypes.
  - intros obs type Htype text.
    assert (text = bracketed_summary obs) as ->.
    { unfold text, bracketed_summary. rewrite Htype.
      change (js "[") with [91%N]. change (js "] ") with [93%N; 32%N].
      reflexivity. }
    apply quarter_up_spec.
Qed.

Lemma getContext_within_budget_witness :
  (0 <= maxContextTokens (config (mind_with_budget 12)))%Z
  /\ match getContext quiet_host (mind_with_budget 12) None (project_world [])
     with
     | (Ok ctx, _) =>
         (Z.of_nat (tokenCount ctx)
          <= maxContextTokens (config (mind_with_budget 12)))%Z
     | (Throw _, _) => False
     end.
Proof.
  split; [simpl; lia|].
  destruct (getContext quiet_host (mind_with_budget 12) None
              (project_world [])) as [[ctx|e] w'] eqn:E.
  - destruct (@getContext_within_budget quiet_host (mind_with_budget 12) None
                (project_world []) ctx w') as [Hle _];
      [simpl; lia|exact E|exact Hle].
  - vm_compute in E. discriminate E.
Defined.

(** C7, as stated for every configured budget, fails for a negative
    one: with [maxContextTokens = -1] nothing is counted, and the
    returned count 0 still exceeds the budget. *)
Lemma getContext_negative_budget_counterexample :
  match getContext quiet_host (mind_with_budget (-1)) None (project_world [])
  with
  | (Ok ctx, _) =>
      (maxContextTokens (config (mind_with_budget (-1)))
       <? Z.of_nat (tokenCount ctx))%Z
  | (Throw _, _) => false
  end = true.
Proof. vm_compute. reflexivity. Qed.

(** ** Pruning of backups *)

(** [sort] rearranges, and with a total order it sorts. *)
Lemma sort_insert_perm {A} (before : A -> A -> bool) (x : A) (l : list A) :
  Permutation (x :: l) (sort_insert before x l).
Proof.
  induction l as [|y l IH]; simpl; [reflexivity|].
  destruct (before x y); [reflexivity|].
  rewrite perm_swap. now apply perm_skip.
Qed.

Lemma stable_sort_perm {A} (before : A -> A -> bool) (l : list A) :
  Permutation l (stable_sort before l).
Proof.
  induction l as [|x l IH]; simpl; [reflexivity|].
  rewrite <- sort_insert_perm. now apply perm_skip.
Qed.

Section SortedByTime.

Variable A : Type.
Variable time : A -> Z.

Lemma sort_insert_sorted (x : A) (l : list A) :
  StronglySorted (not_older time) l ->
  StronglySorted (not_older time) (sort_insert (later_first time) x l).
Proof.
  induction 1 as [|y l Hs IH Hy]; simpl.
  - repeat constructor.
  - unfold later_first at 1.
    destruct (Z.leb_spec (time y) (time x)) as [Hle|Hgt].
    + constructor; [now constructor|].
      constructor; [exact Hle|].
      eapply Forall_impl; [|exact Hy]. unfold not_older. intros; lia.
    + constructor; [exact IH|].
      rewrite <- (sort_insert_perm (later_first time) x l).
      constructor; [unfold not_older; lia|exact Hy].
Qed.

Lemma stable_sort_sorted (l : list A) :
  StronglySorted (not_older time) (stable_sort (later_first time) l).
Proof.
  induction l as [|x l IH]; simpl; [constructor|].
  now apply sort_insert_sorted.
Qed.

Lemma sorted_front_back (n : nat) (l : list A) :
  StronglySorted (not_older time) l ->
  forall kept doomed,
    In kept (firstn n l) -> In doomed (skipn n l) ->
    not_older time kept doomed.
Proof.
  intros Hs. revert n.
  induction Hs as [|x l Hs IH Hx]; intros n kept doomed Hk Hd.
  - destruct n; contradiction.
  - destruct n as [|n]; [contradiction|]. simpl in Hk, Hd.
    destruct Hk as [<-|Hk].
    + rewrite Forall_forall in Hx. apply Hx.
      rewrite <- (firstn_skipn n l). apply in_or_app. now right.
    + now apply (IH n).
Qed.

(** What is deleted after sorting is never newer than what is kept. *)
Lemma pruned_are_oldest (keepCount : nat) (l : list A) :
  forall kept doomed,
    In kept (firstn keepCount (stable_sort (later_first time) l)) ->
    In doomed (skipn keepCount (stable_sort (later_first time) l)) ->
    (time doomed <= time kept)%Z.
Proof.
  intros kept doomed. apply sorted_front_back, stable_sort_sorted.
Qed.

End SortedByTime.

(** For times that order, the comparator of [pruneBackups] is the
    order of the numbers. *)
Lemma newer_first_numbers (a b : Backup) :
  orders (b_time a) -> orders (b_time b) ->
  newer_first a b = later_first backup_time a b.
Proof.
  unfold newer_first, later_first, backup_time, minus_sign, orders.
  destruct (b_time a) as [|ta|[]]; [contradiction| | |];
    (destruct (b_time b) as [|tb|[]]; [contradiction| | |]);
    intros Ha Hb; cbn [Bool.eqb];
    try (destruct (Z.compare_spec tb ta); destruct (Z.leb_spec tb ta);
         reflexivity || lia);
    match goal with
    | |- _ = (?x <=? ?y)%Z => destruct (Z.leb_spec x y); reflexivity || lia
    end.
Qed.

Lemma sort_insert_newer_first (b : Backup) (l : list Backup) :
  orders (b_time b) ->
  Forall (fun y => orders (b_time y)) l ->
  sort_insert newer_first b l = sort_insert (later_first backup_time) b l.
Proof.
  intros Hb Hl. induction Hl as [|y l Hy Hl IH]; [reflexivity|].
  simpl. rewrite newer_first_numbers, IH by assumption. reflexivity.
Qed.

Lemma stable_sort_newer_first (bs : list Backup) :
  Forall (fun b => orders (b_time b)) bs ->
  stable_sort newer_first bs = stable_sort (later_first backup_time) bs.
Proof.
  intros Hall. induction Hall as [|b bs Hb Hall IH]; [reflexivity|].
  simpl. rewrite IH. apply sort_insert_newer_first; [exact Hb|].
  rewrite Forall_forall in Hall |- *. intros x Hx. apply Hall.
  eapply Permutation_in; [|exact Hx]. symmetry. apply stable_sort_perm.
Qed.

(** C5. After [Mind.open] only the three newest files named
    [<basename>.backup-<digits>] are to be left.  The pattern escapes
    the first dot of the base name only, so for [my.mind.mv2] it also
    accepts [my.mind-mv2.backup-1700000000009], ranks that file first,
    and deletes [my.mind.mv2.backup-1700000000001], although that is one
    of the only three backups of the opened file. *)
Theorem pruning_deletes_one_of_three_backups :
  let dir := js "/proj/.claude" in
  let '(r, after) := Mind_open quiet_host two_dot_config two_dot_world in
  (exists mind, r = Ok mind)
  /\ filter (is_backup_of (js "my.mind.mv2")) (entries two_dot_world dir)
     = [js "my.mind.mv2.backup-1700000000001";
        js "my.mind.mv2.backup-1700000000002";
        js "my.mind.mv2.backup-1700000000003"]
  /\ filter (is_backup_of (js "my.mind.mv2")) (entries after dir)
     = [js "my.mind.mv2.backup-1700000000002";
        js "my.mind.mv2.backup-1700000000003"].
Proof.
  vm_compute. split; [eexists; reflexivity|]. split; reflexivity.
Qed.

(** For the default file name the pruning does what is asked: of five
    backups the three newest stay, and other files are not touched. *)
Example pruning_keeps_three_newest_example :
  map fst (files (snd (Mind_open quiet_host no_overrides five_backups_world)))
  = [js "/proj/.claude/mind.mv2.backup-1700000000004";
     js "/proj/.claude/mind.mv2";
     js "/proj/.claude/mind.mv2.backup-1700000000005";
     js "/proj/.claude/notes.txt";
     js "/proj/.claude/mind.mv2.backup-1700000000003";
     js "/proj/.claude/mind.mv2.lock"].
Proof. vm_compute. reflexivity. Qed.

(** ** What the hook persists *)

Section Emits.

Variable host : Host.
Variable P : Call -> Prop.

Lemma emits_ret {A} (a : A) : emits P (ret a).
Proof. intros w. exists []. simpl. rewrite app_nil_r. auto. Qed.

Lemma emits_throw {A} (e : Thrown) : emits P (@throw A e).
Proof. intros w. exists []. simpl. rewrite app_nil_r. auto. Qed.

Lemma emits_get {A} (f : World -> A) : emits P (get f).
Proof. intros w. exists []. simpl. rewrite app_nil_r. auto. Qed.

Lemma emits_modify (f : World -> World) :
  (forall w, log (f w) = log w) -> emits P (modify f).
Proof. intros Hf w. exists []. simpl. rewrite app_nil_r, Hf. auto. Qed.

Lemma emits_bind {A B} (m : M A) (k : A -> M B) :
  emits P m -> (forall a, emits P (k a)) -> emits P (bind m k).
Proof.
  intros Hm Hk w. unfold bind.
  destruct (Hm w) as (c1 & E1 & F1).
  destruct (m w) as [[a|e] w1]; simpl in E1.
  - destruct (Hk a w1) as (c2 & E2 & F2).
    exists (c1 ++ c2). rewrite E2, E1, app_assoc. split; [reflexivity|].
    apply Forall_app; auto.
  - exists c1. simpl. auto.
Qed.

Lemma emits_try_catch {A} (m : M A) (h : Thrown -> M A) :
  emits P m -> (forall e, emits P (h e)) -> emits P (try_catch m h).
Proof.
  intros Hm Hh w. unfold try_catch.
  destruct (Hm w) as (c1 & E1 & F1).
  destruct (m w) as [[a|e] w1]; simpl in E1.
  - exists c1. simpl. auto.
  - destruct (Hh e w1) as (c2 & E2 & F2).
    exists (c1 ++ c2). rewrite E2, E1, app_assoc. split; [reflexivity|].
    apply Forall_app; auto.
Qed.

Lemma emits_try_finally {A} (m : M A) (f : M unit) :
  emits P m -> emits P f -> emits P (try_finally m f).
Proof.
  intros Hm Hf w. unfold try_finally.
  destruct (Hm w) as (c1 & E1 & F1).
  destruct (m w) as [r w1]; simpl in E1.
  destruct (Hf w1) as (c2 & E2 & F2).
  exists (c1 ++ c2).
  destruct (f w1) as [[u|e] w2]; simpl in E2 |- *;
    rewrite E2, E1, app_assoc; (split; [reflexivity|apply Forall_app; auto]).
Qed.

Lemma emits_call (c : Call) : P c -> emits P (call host c).
Proof.
  intros Hc w. exists [c]. unfold call.
  destruct (fault host (log w) c); simpl; auto.
Qed.

Lemma emits_call_for {A} (c : Call) (answer : list Call -> A) :
  P c -> emits P (call_for host c answer).
Proof.
  intros Hc w. exists [c]. unfold call_for.
  destruct (fault host (log w) c); simpl; auto.
Qed.

Lemma emits_lift {A} (o : Outcome A) : emits P (lift o).
Proof. destruct o; [apply emits_ret|apply emits_throw]. Qed.

Lemma emits_Date_now : P c_now -> emits P (Date_now host).
Proof. intros H w. exists [c_now]. simpl. auto. Qed.

Lemma emits_console (l : LogLine) : P (c_console l) -> emits P (console_error l).
Proof. intros H w. exists [c_console l]. simpl. auto. Qed.

Lemma emits_generateId : P c_random -> emits P (generateId host).
Proof. intros H w. exists [c_random]. simpl. auto. Qed.

(** Everything but the engine's own calls is allowed from here on. *)
Hypothesis P_other : forall c, engine_call c = false -> P c.

Ltac emits_step :=
  first
    [ apply emits_ret | apply emits_throw | apply emits_get
    | apply emits_Date_now; apply P_other; reflexivity
    | apply emits_console; apply P_other; reflexivity
    | apply emits_generateId; apply P_other; reflexivity
    | apply emits_lift
    | apply emits_call; apply P_other; reflexivity
    | apply emits_call_for; apply P_other; reflexivity
    | apply emits_modify; intros; reflexivity
    | apply emits_bind; [|intros]
    | apply emits_try_catch; [|intros]
    | apply emits_try_finally
    | match goal with
      | |- emits _ (match ?x with _ => _ end) => destruct x
      | |- emits _ (if ?x then _ else _) => destruct x
      | |- emits _ (let '(_, _) := ?x in _) => destruct x
      end ].

Ltac emits_auto := repeat emits_step.

Lemma emits_touch p : emits P (touch host p).
Proof.
  unfold touch. emits_auto.
  apply emits_modify. intros w. destruct (lookup_file _ _); reflexivity.
Qed.

Lemma emits_existsSync p : emits P (existsSync p).
Proof. unfold existsSync. emits_auto. Qed.

Lemma emits_statSync_size p : emits P (statSync_size host p).
Proof. unfold statSync_size. emits_auto. Qed.

Lemma emits_renameSync a b : emits P (renameSync host a b).
Proof. unfold renameSync. emits_auto. Qed.

Lemma emits_unlinkSync p : emits P (unlinkSync host p).
Proof. unfold unlinkSync. emits_auto. Qed.

Lemma emits_readdirSync d : emits P (readdirSync host d).
Proof. unfold readdirSync. emits_auto. Qed.

Lemma emits_lockfile_lock p : emits P (lockfile_lock host p).
Proof. unfold lockfile_lock. emits_auto. Qed.

Lemma emits_lockfile_release p : emits P (lockfile_release host p).
Proof. unfold lockfile_release. emits_auto. Qed.

Lemma emits_sdk_create p : emits P (sdk_create host p).
Proof. unfold sdk_create. emits_auto. Qed.

Lemma emits_sdk_use p : emits P (sdk_use host p).
Proof. unfold sdk_use. emits_auto. Qed.

Lemma emits_withMemvidLock {A} lockPath (fn : M A) :
  emits P fn -> emits P (withMemvidLock host lockPath fn).
Proof.
  intros Hfn. unfold withMemvidLock, mkdir_recursive.
  apply emits_bind; [emits_auto|intros _].
  apply emits_bind; [apply emits_touch|intros _].
  apply emits_bind; [apply emits_lockfile_lock|intros _].
  apply emits_try_finally; [exact Hfn|apply emits_lockfile_release].
Qed.

Lemma emits_withLock {A} mind (fn : M A) :
  emits P fn -> emits P (withLock host mind fn).
Proof.
  intros Hfn. unfold withLock, getMemoryPath.
  apply emits_bind; [emits_auto|intros p].
  now apply emits_withMemvidLock.
Qed.

Lemma emits_prune_loop olds : emits P (prune_loop host olds).
Proof.
  induction olds as [|b rest IH]; simpl; [apply emits_ret|].
  apply emits_bind; [|intros _; exact IH].
  apply emits_try_catch; [|intros; apply emits_ret].
  apply emits_bind; [apply emits_unlinkSync|intros _; emits_step].
Qed.

Lemma emits_pruneBackups memoryPath keepCount :
  emits P (pruneBackups host memoryPath keepCount).
Proof.
  unfold pruneBackups.
  apply emits_try_catch; [|intros; apply emits_ret].
  apply emits_bind; [unfold new_RegExp; emits_auto|intros src].
  apply emits_bind; [apply emits_readdirSync|intros names].
  apply emits_bind; [apply emits_get|intros here].
  apply emits_prune_loop.
Qed.

Lemma emits_open_locked memoryPath : emits P (open_locked host memoryPath).
Proof.
  unfold open_locked.
  apply emits_bind; [apply emits_existsSync|intros present].
  destruct (negb present); [apply emits_sdk_create|].
  apply emits_bind; [apply emits_statSync_size|intros size].
  destruct (too_large size).
  - apply emits_bind; [emits_step|intros _].
    apply emits_bind; [emits_step|intros t].
    apply emits_bind; [|intros _; apply emits_sdk_create].
    apply emits_try_catch; [apply emits_renameSync|intros; apply emits_ret].
  - apply emits_try_catch; [apply emits_sdk_use|intros e].
    destruct (existsb _ corruption_signatures); [|apply emits_throw].
    apply emits_bind; [emits_step|intros _].
    apply emits_bind; [emits_step|intros t].
    apply emits_bind; [|intros _; apply emits_sdk_create].
    apply emits_try_catch; [apply emits_renameSync|intros _].
    apply emits_try_catch; [apply emits_unlinkSync|intros; apply emits_ret].
Qed.

Lemma emits_Mind_open overrides : emits P (Mind_open host overrides).
Proof.
  unfold Mind_open, loadSDK, mkdir_recursive.
  apply emits_bind; [emits_auto|intros _].
  apply emits_bind; [apply emits_get|intros here].
  apply emits_bind; [apply emits_get|intros env].
  apply emits_bind; [emits_auto|intros _].
  apply emits_bind;
    [apply emits_withMemvidLock, emits_open_locked|intros handle].
  apply emits_bind; [emits_step|intros id].
  apply emits_bind; [apply emits_pruneBackups|intros _].
  apply emits_bind; [|intros _; apply emits_ret].
  destruct (debug _); emits_step.
Qed.

Lemma emits_getMind overrides : emits P (getMind host overrides).
Proof.
  unfold getMind.
  apply emits_bind; [apply emits_get|intros [mind|]]; [apply emits_ret|].
  apply emits_bind; [apply emits_Mind_open|intros mind].
  emits_auto.
Qed.

(** [remember] writes exactly the content it is given. *)
Lemma emits_remember mind input :
  (forall m a, pa_text a = ri_content input -> P (c_put m a)) ->
  emits P (remember host mind input).
Proof.
  intros Hput. unfold remember.
  apply emits_bind; [emits_step|intros id].
  apply emits_bind; [emits_step|intros t].
  apply emits_bind; [|intros frameId].
  - apply emits_withLock. apply emits_call_for. apply Hput. reflexivity.
  - apply emits_bind; [|intros _; apply emits_ret].
    destruct (debug _); emits_step.
Qed.

End Emits.

Lemma emits_bind_ret (P : Call -> Prop) {A B} (a : A) (k : A -> M B) :
  emits P (k a) -> emits P (bind (ret a) k).
Proof. intros H w. exact (H w). Qed.

Lemma put_text_bounded_other (output : HookOutput) (c : Call) :
  engine_call c = false -> put_text_bounded output c.
Proof. destruct c; simpl; intros H; try exact I; discriminate H. Qed.

(** The capture path for one output string. *)
Lemma emits_capture host output mind tool metadata outputStr :
  hook_text output = Some outputStr ->
  emits (put_text_bounded output)
    (result <-
       lift (Compression.compressToolOutput (JSON_parse host)
               (regexp_matches host) tool metadata outputStr) ;;
     remember host mind
       {| ri_type := classifyObservationType tool outputStr;
          ri_summary := js "OpenCode " ++ tool ++ js " completed";
          ri_content := Compression.compressed result;
          ri_tool := Some tool;
          ri_metadata := metadata |} ;;
     ret tt).
Proof.
  intros Htext.
  destruct (Compression.compressToolOutput (JSON_parse host)
              (regexp_matches host) tool metadata outputStr)
    as [result|e] eqn:E; simpl lift.
  2:{ intros w. exists []. simpl. rewrite app_nil_r. auto. }
  apply emits_bind_ret.
  apply emits_bind; [|intros _; apply emits_ret].
  apply emits_remember; [apply put_text_bounded_other|].
  intros m a Ha. simpl in Ha. simpl.
  destruct (Nat.leb_spec (length outputStr) Compression.COMPRESSION_THRESHOLD)
    as [Hsmall|Hlarge].
  - right. rewrite compress_small in E by exact Hsmall.
    injection E as <-. simpl in Ha. rewrite Ha. auto.
  - left. rewrite Ha.
    eapply compress_large_result in E; [|exact Hlarge].
    now destruct E as (_ & _ & Hle & _).
Qed.

(** C8 (as amended). Whatever [tool.execute.after] persists has at
    most 3000 units: the text handed to [put] is either a compressed
    summary of at most 2000 units, or the tool's output string itself,
    unchanged, when that has at most 3000 units.  No other call of the
    handler writes to the store. *)
Theorem hook_persists_bounded_text host memoryPath tool sessionID
  output metadata :
  emits (put_text_bounded output)
    (tool_execute_after host memoryPath tool sessionID output metadata).
Proof.
  unfold tool_execute_after.
  destruct (negb (existsb (str_eqb tool) OBSERVED_TOOLS)); [apply emits_ret|].
  apply emits_try_catch;
    [|intros e; apply emits_console, put_text_bounded_other; reflexivity].
  apply emits_bind;
    [apply emits_getMind, put_text_bounded_other|intros mind].
  destruct output as [s|[[s|]|e]]; simpl.
  - apply emits_bind_ret. now apply emits_capture.
  - apply emits_bind_ret. now apply emits_capture.
  - intros w. exists []. simpl. rewrite app_nil_r. auto.
  - intros w. exists []. simpl. rewrite app_nil_r. auto.
Qed.

(** C8, as stated with the 2000 ceiling, fails for an output between
    the target and the threshold: a Bash output of 2500 units is not
    compressed, and the handler persists all 2500 units. *)
Lemma hook_persists_uncompressed_counterexample :
  existsb (fun c => match c with
                    | c_put _ a => 2000 <? length (pa_text a)
                    | _ => false
                    end)
    (log (snd (tool_execute_after quiet_host (js "/proj/.claude/mind.mv2")
                 (js "Bash") (js "session-1")
                 (OutputString (repeat_text 250 (js "0123456789"))) None
                 (project_world []))))
  = true.
Proof. vm_compute. reflexivity. Qed.

(** ** Opening and the process-wide instance *)

Lemma try_catch_Ok {A} (m : M A) (h : Thrown -> M A) (w w' : World) (a : A) :
  try_catch m h w = (Ok a, w') ->
  m w = (Ok a, w') \/ exists e w1, m w = (Throw e, w1) /\ h e w1 = (Ok a, w').
Proof.
  unfold try_catch. destruct (m w) as [[x|e] w1]; intros H.
  - left. exact H.
  - right. eauto.
Qed.

Lemma sdk_create_Ok host p w h w' :
  sdk_create host p w = (Ok h, w') ->
  h = {| mv_path := p; mv_created := true |}.
Proof.
  unfold sdk_create. intros H.
  apply bind_Ok in H as (u & w1 & _ & H).
  apply bind_Ok in H as (u' & w2 & _ & H).
  unfold ret in H. now injection H as <- _.
Qed.

Lemma sdk_use_Ok host p w h w' :
  sdk_use host p w = (Ok h, w') ->
  h = {| mv_path := p; mv_created := false |}.
Proof.
  unfold sdk_use. intros H.
  apply bind_Ok in H as (u & w1 & _ & H).
  unfold ret in H. now injection H as <- _.
Qed.

(** Every way out of the critical section of [Mind.open] that returns
    yields a handle on the memory path itself. *)
Lemma open_locked_Ok host memoryPath w h w' :
  open_locked host memoryPath w = (Ok h, w') -> mv_path h = memoryPath.
Proof.
  unfold open_locked. intros H.
  apply bind_Ok in H as (present & w1 & _ & H).
  destruct (negb present).
  { apply sdk_create_Ok in H. now subst h. }
  apply bind_Ok in H as (size & w2 & _ & H).
  destruct (too_large size).
  - apply bind_Ok in H as (u1 & w3 & _ & H).
    apply bind_Ok in H as (t & w4 & _ & H).
    apply bind_Ok in H as (u2 & w5 & _ & H).
    apply sdk_create_Ok in H. now subst h.
  - apply try_catch_Ok in H as [H|(e & w3 & _ & H)].
    + apply sdk_use_Ok in H. now subst h.
    + destruct (existsb _ corruption_signatures); [|discriminate H].
      apply bind_Ok in H as (u1 & w4 & _ & H).
      apply bind_Ok in H as (t & w5 & _ & H).
      apply bind_Ok in H as (u2 & w6 & _ & H).
      apply sdk_create_Ok in H. now subst h.
Qed.

Lemma loadSDK_Ok host w u w' :
  loadSDK host w = (Ok u, w') ->
  cwd w' = cwd w /\ CLAUDE_PROJECT_DIR w' = CLAUDE_PROJECT_DIR w.
Proof.
  unfold loadSDK, bind, get, call, modify, ret.
  destruct (sdkLoaded w).
  - intros H. injection H as _ <-. auto.
  - destruct (fault host (log w) c_import_sdk); intros H; [discriminate|].
    injection H as _ <-. auto.
Qed.

Lemma withMemvidLock_Ok {A} host lockPath (fn : M A) w a w' :
  withMemvidLock host lockPath fn w = (Ok a, w') ->
  exists w_in w_out, fn w_in = (Ok a, w_out).
Proof.
  unfold withMemvidLock. intros H.
  apply bind_Ok in H as (u1 & w2 & _ & H).
  apply bind_Ok in H as (u2 & w3 & _ & H).
  apply bind_Ok in H as (u3 & w4 & _ & H).
  apply try_finally_Ok in H as (w5 & H). eauto.
Qed.

(** What a successful [Mind.open] returns. *)
Lemma Mind_open_Ok host overrides w mind w' :
  Mind_open host overrides w = (Ok mind, w') ->
  config mind = merge_config DEFAULT_CONFIG overrides
  /\ mv_path (memvid mind)
     = Path.resolve (cwd w)
         [or_str (CLAUDE_PROJECT_DIR w) (cwd w);
          memoryPath (merge_config DEFAULT_CONFIG overrides)]
  /\ initialized mind = true.
Proof.
  unfold Mind_open. intros H.
  apply bind_Ok in H as (u & w1 & Hload & H).
  apply loadSDK_Ok in Hload as [Hcwd Henv].
  apply bind_Ok in H as (here & w2 & Hhere & H).
  unfold get in Hhere. injection Hhere as <- <-.
  apply bind_Ok in H as (env & w3 & Hget & H).
  unfold get in Hget. injection Hget as <- <-.
  apply bind_Ok in H as (u1 & w4 & _ & H).
  apply bind_Ok in H as (handle & w5 & Hlock & H).
  apply withMemvidLock_Ok in Hlock as (w_in & w_out & Hlock).
  apply open_locked_Ok in Hlock.
  apply bind_Ok in H as (id & w6 & _ & H).
  apply bind_Ok in H as (u2 & w7 & _ & H).
  apply bind_Ok in H as (u3 & w8 & _ & H).
  unfold ret in H. injection H as <- _. simpl.
  rewrite Hlock, Hcwd, Henv. auto.
Qed.

(** C10. Once [getMind] has created the instance, every later call
    returns that same instance and leaves the process untouched, whatever
    configuration it is given: the instance keeps the configuration and
    the store path of the first call.  The lock path of its operations
    comes from [getMemoryPath], which resolves the configured path
    against the working directory, while [Mind.open] resolved it against
    [CLAUDE_PROJECT_DIR]: started in [/work] for the project [/proj],
    the store is opened under [/proj/.claude/mind.mv2.lock] and then
    used under [/work/.claude/mind.mv2.lock]. *)
Theorem getMind_keeps_first_instance host :
  (forall overrides w mind,
      mindInstance w = Some mind ->
      getMind host overrides w = (Ok mind, w))
  /\ (forall first w mind w1,
         mindInstance w = None ->
         getMind host first w = (Ok mind, w1) ->
         mindInstance w1 = Some mind
         /\ config mind = merge_config DEFAULT_CONFIG first
         /\ mv_path (memvid mind)
            = Path.resolve (cwd w)
                [or_str (CLAUDE_PROJECT_DIR w) (cwd w);
                 memoryPath (merge_config DEFAULT_CONFIG first)]
         /\ forall later, getMind host later w1 = (Ok mind, w1))
  /\ (forall mind w,
         getMemoryPath mind w
         = (Ok (Path.resolve (cwd w) [cwd w; memoryPath (config mind)]), w))
  /\ (let '(r1, w1) := getMind quiet_host no_overrides away_world in
      match r1 with
      | Ok mind =>
          let '(r2, w2) :=
            getMind quiet_host (only_memoryPath (js "/elsewhere/other.mv2")) w1
          in
          r2 = Ok mind
          /\ mv_path (memvid mind) = js "/proj/.claude/mind.mv2"
          /\ locks_requested (log w2) = [js "/proj/.claude/mind.mv2.lock"]
          /\ locks_requested (log (snd (ask quiet_host mind (js "why") w2)))
             = [js "/proj/.claude/mind.mv2.lock";
                js "/work/.claude/mind.mv2.lock"]
      | Throw _ => False
      end).
Proof.
  assert (forall overrides w mind,
             mindInstance w = Some mind ->
             getMind host overrides w = (Ok mind, w)) as Hsame.
  { intros overrides w mind H. unfold getMind, bind, get. now rewrite H. }
  split; [exact Hsame|]. split; [|split].
  - intros first w mind w1 Hnone H. unfold getMind in H.
    apply bind_Ok in H as (current & w0 & Hget & H).
    unfold get in Hget. injection Hget as <- <-. rewrite Hnone in H.
    apply bind_Ok in H as (m & w2 & Hopen & H).
    apply bind_Ok in H as (u & w3 & Hset & H).
    unfold modify in Hset. injection Hset as _ <-.
    unfold ret in H. injection H as -> <-.
    apply Mind_open_Ok in Hopen as (Hcfg & Hpath & _).
    repeat split; auto.
  - reflexivity.
  - vm_compute. repeat split; reflexivity.
Qed.

Lemma getMind_keeps_first_instance_witness :
  mindInstance (set_mindInstance (Some (mind_with_budget 2000)) away_world)
  = Some (mind_with_budget 2000)
  /\ getMind quiet_host (only_memoryPath (js "/elsewhere/other.mv2"))
       (set_mindInstance (Some (mind_with_budget 2000)) away_world)
     = (Ok (mind_with_budget 2000),
        set_mindInstance (Some (mind_with_budget 2000)) away_world).
Proof.
  split; [reflexivity|].
  apply (proj1 (getMind_keeps_first_instance quiet_host)). reflexivity.
Defined.


(** ** The locking discipline *)

Lemma existsb_str_eqb_false (k : jsstring) (l : list jsstring) :
  existsb (str_eqb k) l = false -> ~ In k l.
Proof.
  intros H Hin.
  assert (existsb (str_eqb k) l = true); [|congruence].
  apply existsb_exists. exists k. split; [exact Hin|apply str_eqb_refl].
Qed.

Lemma mkdir_run host p w :
  exists r w',
    mkdir_recursive host p w = (r, w')
    /\ log w' = log w ++ [c_mkdir p]
    /\ locked w' = locked w /\ cwd w' = cwd w.
Proof.
  unfold mkdir_recursive, call.
  destruct (fault host (log w) (c_mkdir p)); eauto 6.
Qed.

Lemma touch_run host p w :
  exists r w',
    touch host p w = (r, w')
    /\ log w' = log w ++ [c_touch p]
    /\ locked w' = locked w /\ cwd w' = cwd w.
Proof.
  unfold touch, bind, call, modify.
  destruct (fault host (log w) (c_touch p)); [eauto 6|].
  do 2 eexists. split; [reflexivity|].
  destruct (lookup_file _ _); simpl; auto.
Qed.

Lemma lockfile_lock_run host p w :
  exists r w',
    lockfile_lock host p w = (r, w')
    /\ log w' = log w ++ [c_lock p]
    /\ match r with
       | Ok _ => locked w' = key w p :: locked w /\ ~ In (key w p) (locked w)
       | Throw _ => locked w' = locked w
       end.
Proof.
  unfold lockfile_lock, bind, call, modify, get, throw.
  destruct (fault host (log w) (c_lock p)); [eauto 6|].
  cbn -[key].
  change (key (record (c_lock p) w) p) with (key w p).
  destruct (existsb (str_eqb (key w p)) (locked w)) eqn:E.
  - do 2 eexists. split; [reflexivity|]. simpl. auto.
  - do 2 eexists. split; [reflexivity|]. simpl. split; [reflexivity|].
    split; [reflexivity|]. now apply existsb_str_eqb_false.
Qed.

Lemma acquire_cases host lp w :
  match acquire host lp w with
  | (Throw e, w1) =>
      locked w1 = locked w
      /\ exists calls,
           log w1 = log w ++ calls
           /\ Forall (fun c => engine_call c = false) calls
  | (Ok _, w_in) =>
      log w_in
      = log w ++ [c_mkdir (Path.dirname lp); c_touch lp; c_lock lp]
      /\ locked w_in = key w lp :: locked w
      /\ ~ In (key w lp) (locked w)
  end.
Proof.
  unfold acquire, bind.
  destruct (mkdir_run host (Path.dirname lp) w)
    as (r1 & w1 & -> & Hlog1 & Hlocked1 & Hcwd1).
  destruct r1 as [u1|e1].
  2:{ split; [exact Hlocked1|]. eexists. split; [exact Hlog1|].
      repeat constructor. }
  destruct (touch_run host lp w1) as (r2 & w2 & -> & Hlog2 & Hlocked2 & Hcwd2).
  destruct r2 as [u2|e2].
  2:{ split; [congruence|]. eexists. rewrite Hlog2, Hlog1, <- app_assoc.
      split; [reflexivity|]. repeat constructor. }
  destruct (lockfile_lock_run host lp w2) as (r3 & w3 & -> & Hlog3 & Hr3).
  assert (key w2 lp = key w lp) as Hkey by (unfold key; congruence).
  destruct r3 as [u3|e3].
  - destruct Hr3 as [Hl Hfree]. rewrite Hkey in Hl, Hfree.
    rewrite Hlog3, Hlog2, Hlog1, <- !app_assoc. simpl.
    split; [reflexivity|]. split; [congruence|]. congruence.
  - split; [congruence|]. eexists.
    rewrite Hlog3, Hlog2, Hlog1, <- !app_assoc.
    split; [reflexivity|]. repeat constructor.
Qed.

Lemma withLock_unfold {A} host mind (fn : M A) w :
  withLock host mind fn w
  = match acquire host (lockPath_of mind w) w with
    | (Ok _, w_in) =>
        try_finally fn (lockfile_release host (lockPath_of mind w)) w_in
    | (Throw e, w1) => (Throw e, w1)
    end.
Proof.
  unfold withLock, getMemoryPath, withMemvidLock, acquire, lockPath_of.
  unfold bind at 1 2. unfold get at 1, ret at 1. unfold bind.
  destruct (mkdir_recursive host _ w) as [[u1|e1] w1]; [|reflexivity].
  destruct (touch host _ w1) as [[u2|e2] w2]; [|reflexivity].
  destruct (lockfile_lock host _ w2) as [[u3|e3] w3]; reflexivity.
Qed.

Lemma filter_not_in (k : jsstring) (l : list jsstring) :
  ~ In k (filter (fun x => negb (str_eqb x k)) l).
Proof.
  intros H. apply filter_In in H as [_ H].
  rewrite str_eqb_refl in H. discriminate H.
Qed.

Lemma withLock_runs_in_lock {A} host mind (fn : M A) w :
  runs_in_lock host mind fn w.
Proof.
  unfold runs_in_lock. cbv zeta.
  rewrite withLock_unfold.
  pose proof (acquire_cases host (lockPath_of mind w) w) as Hacq.
  destruct (acquire host (lockPath_of mind w) w) as [[u|e] w_in].
  - destruct Hacq as (Hlog & Hlocked & Hfree).
    split; [exact Hlog|]. split; [exact Hlocked|]. split; [exact Hfree|].
    unfold try_finally.
    destruct (fn w_in) as [r w_out].
    unfold lockfile_release, bind, call, modify.
    destruct (fault host (log w_out) (c_release (lockPath_of mind w)))
      as [e|]; simpl.
    + auto.
    + split; [reflexivity|]. split; [reflexivity|].
      apply filter_not_in.
  - destruct Hacq as (Hlocked & calls & Hlog & Hcalls).
    split; [reflexivity|]. split; [exact Hlocked|]. eauto.
Qed.

Lemma bind_ret_r {A} (m : M A) w : bind m ret w = m w.
Proof. unfold bind, ret. now destruct (m w) as [[a|e] w']. Qed.

Lemma emits_section_call_for host {A} c (answer : list Call -> A) :
  engine_call c = true -> emits section_call (call_for host c answer).
Proof. intros H. apply emits_call_for. now left. Qed.

Lemma remember_locked_operation host mind input :
  locked_operation host mind (remember host mind input).
Proof.
  exists (jsstring * Z)%type,
    (id <- generateId host ;; t <- Date_now host ;; ret (id, t)),
    (fun b =>
       call_for host
         (c_put (memvid mind)
            {| pa_title := js "[" ++ type_name (ri_type input) ++ js "] "
                           ++ ri_summary input;
               pa_label := type_name (ri_type input);
               pa_text := ri_content input;
               pa_metadata :=
                 ObservationMetadata (fst b) (snd b) (ri_tool input)
                   (sessionId mind) (ri_metadata input);
               pa_tags :=
                 filter_nonempty
                   [type_name (ri_type input); or_str (ri_tool input) []] |})
         (put_result host)),
    (fun frameId =>
       (if debug (config mind)
        then console_error (LogRemembered (ri_summary input)) else ret tt) ;;
       ret frameId).
  split; [|split; [|split]].
  - intros w. reflexivity.
  - apply emits_bind; [now apply emits_generateId|intros id].
    apply emits_bind; [now apply emits_Date_now|intros t]. apply emits_ret.
  - intros b. now apply emits_section_call_for.
  - intros a. apply emits_bind; [|intros _; apply emits_ret].
    destruct (debug _); [now apply emits_console|apply emits_ret].
Qed.

Lemma plain_locked_operation host mind {A} (fn : M A) :
  emits section_call fn -> locked_operation host mind (withLock host mind fn).
Proof.
  intros Hfn.
  exists unit, (ret tt), (fun _ => fn), (fun a => ret a).
  split; [|split; [|split]].
  - intros w. unfold bind at 1. unfold ret at 1.
    now rewrite bind_ret_r.
  - apply emits_ret.
  - intros _. exact Hfn.
  - intros a. apply emits_ret.
Qed.

Lemma emits_searchUnlocked host mind query limit :
  emits section_call (searchUnlocked host mind query limit).
Proof.
  unfold searchUnlocked.
  apply emits_bind; [now apply emits_section_call_for|intros r].
  apply emits_ret.
Qed.

Lemma emits_getContext_locked host mind query :
  emits section_call (getContext_locked host mind query).
Proof.
  unfold getContext_locked.
  apply emits_bind; [now apply emits_section_call_for|intros timeline].
  apply emits_bind; [|intros r; apply emits_ret].
  destruct query as [[|c q]|]; try apply emits_ret.
  apply emits_bind; [apply emits_searchUnlocked|intros r]. apply emits_ret.
Qed.

Lemma saveSessionSummary_locked_operation host mind summary :
  locked_operation host mind (saveSessionSummary host mind summary).
Proof.
  exists (Z * Z)%type,
    (t0 <- Date_now host ;; t1 <- Date_now host ;; ret (t0, t1)),
    (fun b =>
       let sessionSummary :=
         {| ss_id := sessionId mind;
            ss_startTime := (fst b - 3600000)%Z;
            ss_endTime := snd b;
            ss_observationCount := 0;
            ss_keyDecisions := si_keyDecisions summary;
            ss_filesModified := si_filesModified summary;
            ss_summary := si_summary summary |} in
       today <- Date_now host ;;
       call_for host
         (c_put (memvid mind)
            {| pa_title :=
                 js "Session Summary: "
                 ++ hd [] (split 84 (iso_string host today));
               pa_label := js "session";
               pa_text := json_stringify host sessionSummary;
               pa_metadata := SummaryMetadata sessionSummary;
               pa_tags := [js "session"; js "summary"] |})
         (put_result host)),
    (fun a => ret a).
  split; [|split; [|split]].
  - intros w. unfold saveSessionSummary.
    unfold bind at 1 2. unfold Date_now at 1 2.
    symmetry. unfold bind at 1 2 3. unfold Date_now at 1 2, ret at 1.
    cbv zeta. cbn [fst snd]. apply bind_ret_r.
  - apply emits_bind; [now apply emits_Date_now|intros t0].
    apply emits_bind; [now apply emits_Date_now|intros t1]. apply emits_ret.
  - intros b. cbv zeta.
    apply emits_bind; [apply emits_Date_now; now right|intros today].
    now apply emits_section_call_for.
  - intros a. apply emits_ret.
Qed.

(** A write that the engine refuses: the error reaches the caller, the
    release has followed the write, and no lock is left behind. *)
Example remember_releases_after_throw_example :
  let '(r, w') :=
    remember read_only_host (mind_with_budget 2000) a_note (project_world [])
  in
  r = Throw (JsError (js "write failed"))
  /\ map call_kind (log w')
     = [js "random"; js "now"; js "mkdir"; js "touch"; js "lock"; js "put";
        js "release"]
  /\ locks_requested (log w') = [js "/proj/.claude/mind.mv2.lock"]
  /\ locked w' = [].
Proof. vm_compute. repeat split. Qed.

(** C1. Each of [remember], [search], [ask], [getContext],
    [saveSessionSummary] and [stats] consists of a preparation that only
    reads the clock and the random source, one use of [withLock] around
    its critical section, and a follow-up that at most logs; all calls
    to the engine are made by the critical section.  [withLock] takes
    the lock file [<memoryPath>.lock] of the instance's own memory path;
    when the lock is obtained the critical section runs exactly once
    while the lock is held, and the release follows that run whether it
    returned or threw; when the lock is not obtained the critical
    section does not run. *)
Theorem store_operations_run_in_lock host mind :
  (forall input, locked_operation host mind (remember host mind input))
  /\ (forall query limit,
         locked_operation host mind (search host mind query limit))
  /\ (forall question, locked_operation host mind (ask host mind question))
  /\ (forall query, locked_operation host mind (getContext host mind query))
  /\ (forall summary,
         locked_operation host mind (saveSessionSummary host mind summary))
  /\ locked_operation host mind (stats host mind)
  /\ (forall A (fn : M A) w, runs_in_lock host mind fn w).
Proof.
  repeat split.
  - apply remember_locked_operation.
  - intros query limit. apply plain_locked_operation, emits_searchUnlocked.
  - intros question. apply plain_locked_operation.
    apply emits_bind; [now apply emits_section_call_for|intros r].
    apply emits_ret.
  - intros query. apply plain_locked_operation, emits_getContext_locked.
  - apply saveSessionSummary_locked_operation.
  - apply plain_locked_operation.
    apply emits_bind; [now apply emits_section_call_for|intros st].
    apply emits_bind; [now apply emits_section_call_for|intros t1].
    apply emits_bind; [now apply emits_section_call_for|intros t2].
    apply emits_ret.
  - intros A fn w. apply withLock_runs_in_lock.
Qed.

(** ** Opening an existing memory file *)

Lemma call_quiet host c w :
  fault host (log w) c = None -> call host c w = (Ok tt, record c w).
Proof. unfold call. now intros ->. Qed.

Lemma call_fails host c w e :
  fault host (log w) c = Some e -> call host c w = (Throw e, record c w).
Proof. unfold call. now intros ->. Qed.

Lemma statSync_size_run host p w size :
  fault host (log w) (c_stat p) = None ->
  lookup_file (key w p) (files w) = Some size ->
  statSync_size host p w = (Ok size, record (c_stat p) w).
Proof.
  intros Hq Hfile. unfold statSync_size, bind.
  rewrite call_quiet by exact Hq. unfold get.
  change (key (record (c_stat p) w) p) with (key w p).
  change (files (record (c_stat p) w)) with (files w).
  now rewrite Hfile.
Qed.

Lemma unlinkSync_run host p w :
  exists r w',
    unlinkSync host p w = (r, w')
    /\ log w' = log w ++ [c_unlink p]
    /\ same_process w w'.
Proof.
  unfold unlinkSync, bind, call, get, modify, throw.
  destruct (fault host (log w) (c_unlink p)); [do 2 eexists; repeat split|].
  cbn -[key lookup_file].
  destruct (lookup_file _ _); do 2 eexists; repeat split.
Qed.

Lemma sdk_create_run host p w :
  fault host (log w) (c_create p) = None ->
  exists w',
    sdk_create host p w = (Ok {| mv_path := p; mv_created := true |}, w')
    /\ log w' = log w ++ [c_create p]
    /\ same_process w w'.
Proof.
  intros Hq. unfold sdk_create, bind. rewrite call_quiet by exact Hq.
  unfold modify, ret. eexists. split; [reflexivity|]. repeat split.
Qed.


Lemma emits_prune_loop_housekeeping host olds :
  emits housekeeping_call (prune_loop host olds).
Proof.
  induction olds as [|b rest IH]; simpl; [apply emits_ret|].
  apply emits_bind; [|intros _; exact IH].
  apply emits_try_catch; [|intros; apply emits_ret].
  apply emits_bind; [|intros _; now apply emits_console].
  unfold unlinkSync.
  apply emits_bind; [now apply emits_call|intros _].
  apply emits_bind; [apply emits_get|intros [z|]].
  - apply emits_modify. reflexivity.
  - apply emits_throw.
Qed.

Lemma pruneBackups_run host memoryPath keepCount w :
  exists w' calls,
    pruneBackups host memoryPath keepCount w = (Ok tt, w')
    /\ log w' = log w ++ calls
    /\ Forall housekeeping_call calls.
Proof.
  assert (emits housekeeping_call (pruneBackups host memoryPath keepCount))
    as Hemits.
  { unfold pruneBackups.
    apply emits_try_catch; [|intros; apply emits_ret].
    apply emits_bind.
    { unfold new_RegExp. destruct (RegExpLite.compile _); [apply emits_ret|].
      destruct (regexp_error host _); [apply emits_throw|apply emits_ret]. }
    intros src.
    apply emits_bind.
    { unfold readdirSync.
      apply emits_bind; [now apply emits_call|intros _; apply emits_get]. }
    intros names. apply emits_bind; [apply emits_get|intros here].
    apply emits_prune_loop_housekeeping. }
  destruct (Hemits w) as (calls & Hlog & Hcalls).
  unfold pruneBackups, try_catch in Hlog |- *.
  match goal with
  | |- context [let (_, _) := ?m w in _] => destruct (m w) as [[[]|e] w1]
  end; simpl in Hlog; exists w1, calls; auto.
Qed.

Lemma loadSDK_run host w :
  cooperative host ->
  exists w1,
    loadSDK host w = (Ok tt, w1)
    /\ same_process w w1
    /\ files w1 = files w
    /\ log w1 = log w ++ (if sdkLoaded w then [] else [c_import_sdk]).
Proof.
  intros Hcoop. unfold loadSDK, bind, get.
  destruct (sdkLoaded w).
  - exists w. rewrite app_nil_r. repeat split.
  - rewrite call_quiet by exact (Hcoop (log w) c_import_sdk).
    eexists. split; [reflexivity|]. repeat split.
Qed.

Lemma lookup_file_app k fs extra sz :
  lookup_file k fs = Some sz -> lookup_file k (fs ++ extra) = Some sz.
Proof.
  induction fs as [|[k' z] fs IH]; simpl; [discriminate|].
  destruct (str_eqb k' k); auto.
Qed.

Lemma acquire_run host lp w :
  cooperative host ->
  ~ In (key w lp) (locked w) ->
  exists w_in,
    acquire host lp w = (Ok tt, w_in)
    /\ cwd w_in = cwd w
    /\ log w_in
       = log w ++ [c_mkdir (Path.dirname lp); c_touch lp; c_lock lp]
    /\ (forall k sz, lookup_file k (files w) = Some sz ->
                     lookup_file k (files w_in) = Some sz).
Proof.
  intros Hcoop Hfree. unfold acquire, mkdir_recursive, bind.
  rewrite call_quiet by exact (Hcoop _ (c_mkdir _)).
  unfold touch, bind.
  rewrite call_quiet by exact (Hcoop _ (c_touch _)).
  unfold modify.
  match goal with
  | |- context [lockfile_lock host lp ?w0] => set (w2 := w0)
  end.
  assert (cwd w2 = cwd w /\ locked w2 = locked w
          /\ log w2 = log w ++ [c_mkdir (Path.dirname lp); c_touch lp]
          /\ (forall k sz, lookup_file k (files w) = Some sz ->
                           lookup_file k (files w2) = Some sz))
    as (Hcwd & Hlocked & Hlog & Hfiles).
  { subst w2. destruct (lookup_file _ _); cbn [cwd locked log files record
      set_log set_files]; rewrite <- ?app_assoc; repeat split; auto.
    intros k sz. apply lookup_file_app. }
  clearbody w2.
  unfold lockfile_lock, bind.
  rewrite call_quiet by exact (Hcoop _ (c_lock _)).
  unfold get.
  change (key (record (c_lock lp) w2) lp) with (key w2 lp).
  change (locked (record (c_lock lp) w2)) with (locked w2).
  assert (key w2 lp = key w lp) as Hkey by (unfold key; now rewrite Hcwd).
  rewrite Hkey, Hlocked.
  destruct (existsb (str_eqb (key w lp)) (locked w)) eqn:Eheld.
  { exfalso. apply Hfree. apply existsb_exists in Eheld as (x & Hin & Hx).
    apply str_eqb_eq in Hx. now subst x. }
  unfold modify. eexists. split; [reflexivity|].
  cbn [cwd log files record set_log set_locked].
  rewrite Hlog, <- app_assoc. auto.
Qed.

Lemma release_run host lp w :
  cooperative host ->
  exists w',
    lockfile_release host lp w = (Ok tt, w')
    /\ log w' = log w ++ [c_release lp].
Proof.
  intros Hcoop. unfold lockfile_release, bind.
  rewrite call_quiet by exact (Hcoop _ (c_release _)).
  unfold modify. eexists. split; reflexivity.
Qed.

Lemma withMemvidLock_unfold {A} host lp (fn : M A) w :
  withMemvidLock host lp fn w
  = match acquire host lp w with
    | (Ok _, w_in) => try_finally fn (lockfile_release host lp) w_in
    | (Throw e, w1) => (Throw e, w1)
    end.
Proof.
  unfold withMemvidLock, acquire, bind.
  destruct (mkdir_recursive host _ w) as [[u1|e1] w1]; [|reflexivity].
  destruct (touch host _ w1) as [[u2|e2] w2]; [|reflexivity].
  destruct (lockfile_lock host _ w2) as [[u3|e3] w3]; reflexivity.
Qed.

Lemma Mind_open_run host overrides w :
  let mp := open_memoryPath overrides w in
  let lp := mp ++ js ".lock" in
  cooperative host ->
  ~ In (key w lp) (locked w) ->
  exists w_in,
    log w_in = log w ++ calls_to_enter overrides w
    /\ cwd w_in = cwd w
    /\ (forall k sz, lookup_file k (files w) = Some sz ->
                     lookup_file k (files w_in) = Some sz)
    /\ forall r w_out,
         open_locked host mp w_in = (r, w_out) ->
         match r with
         | Throw e =>
             exists w',
               Mind_open host overrides w = (Throw e, w')
               /\ log w' = log w_out ++ [c_release lp]
         | Ok handle =>
             exists mind w' rest,
               Mind_open host overrides w = (Ok mind, w')
               /\ memvid mind = handle
               /\ config mind = merge_config DEFAULT_CONFIG overrides
               /\ Forall housekeeping_call rest
               /\ log w' = log w_out ++ [c_release lp; c_random] ++ rest
         end.
Proof.
  intros mp lp Hcoop Hfree.
  destruct (@loadSDK_run host w Hcoop) as (w1 & Hload & (Hcwd1 & Henv1 & Hlocked1)
                                     & Hfiles1 & Hlog1).
  set (w2 := record (c_mkdir (Path.dirname mp)) w1).
  assert (~ In (key w2 lp) (locked w2)) as Hfree2.
  { unfold key. cbn [cwd locked w2 record set_log].
    rewrite Hcwd1, Hlocked1. exact Hfree. }
  destruct (@acquire_run host lp w2 Hcoop Hfree2) as (w_in & Hacq & Hcwd_in & Hlog_in
                                            & Hfiles_in).
  exists w_in. split; [|split; [|split]].
  - rewrite Hlog_in. cbn [log w2 record set_log]. rewrite Hlog1.
    unfold calls_to_enter. fold mp. fold lp. rewrite <- !app_assoc.
    reflexivity.
  - rewrite Hcwd_in. exact Hcwd1.
  - intros k sz Hk. apply Hfiles_in. cbn [files w2 record set_log].
    now rewrite Hfiles1.
  - intros r w_out Hopen.
    destruct (@release_run host lp w_out Hcoop) as (w5 & Hrel & Hlog5).
    assert (withMemvidLock host lp (open_locked host mp) w2 = (r, w5)) as Hlocked.
    { rewrite withMemvidLock_unfold, Hacq. unfold try_finally.
      now rewrite Hopen, Hrel. }
    destruct r as [handle|e];
      unfold Mind_open;
      unfold bind at 1; rewrite Hload;
      unfold bind at 1; unfold get at 1;
      unfold bind at 1; unfold get at 1;
      rewrite Hcwd1, Henv1; fold (open_memoryPath overrides w); fold mp;
      unfold bind at 1; unfold mkdir_recursive at 1;
      rewrite call_quiet by exact (Hcoop _ (c_mkdir _));
      fold w2; fold lp; unfold bind at 1; rewrite Hlocked.
    + unfold bind at 1. unfold generateId at 1.
      unfold bind at 1.
      match goal with
      | |- context [pruneBackups host mp 3 ?w0] =>
          destruct (pruneBackups_run host mp 3 w0)
            as (w7 & calls & -> & Hlog7 & Hcalls)
      end.
      unfold bind at 1.
      destruct (debug (merge_config DEFAULT_CONFIG overrides)).
      * unfold console_error at 1. unfold ret.
        do 2 eexists. exists (calls ++ [c_console (LogOpened mp)]).
        split; [reflexivity|]. split; [reflexivity|]. split; [reflexivity|].
        split.
        { apply Forall_app. split; [exact Hcalls|]. repeat constructor. }
        cbn [log record set_log]. rewrite Hlog7. cbn [log record set_log].
        rewrite Hlog5, <- !app_assoc. reflexivity.
      * unfold ret. do 2 eexists. exists calls.
        split; [reflexivity|]. split; [reflexivity|]. split; [reflexivity|].
        split; [exact Hcalls|].
        rewrite Hlog7. cbn [log record set_log].
        rewrite Hlog5, <- !app_assoc. reflexivity.
    + eexists. split; [reflexivity|]. exact Hlog5.
Qed.

Lemma quiet_host_cooperative : cooperative quiet_host.
Proof. intros history c. destruct c; simpl; auto. Qed.

(** A file the engine rejects as corrupt is kept as a backup, with its
    bytes, next to the fresh store; an error without a corruption
    signature leaves everything in place and reaches the caller. *)
Example open_corrupt_file_example :
  (let '(r, w') :=
     Mind_open (rejecting_host (js "Deserialization error: bad magic"))
       no_overrides garbage_world in
   (exists mind, r = Ok mind /\ memvid mind = created (js "/proj/.claude/mind.mv2"))
   /\ lookup_file (js "/proj/.claude/mind.mv2.backup-1700000000008") (files w')
      = Some 2048%Z
   /\ lookup_file (js "/proj/.claude/mind.mv2") (files w') = Some 4096%Z
   /\ locked w' = [])
  /\ (let '(r, w') :=
        Mind_open (rejecting_host (js "EBUSY: resource busy")) no_overrides
          garbage_world in
      r = Throw (JsError (js "EBUSY: resource busy"))
      /\ files w' = [(js "/proj/.claude/mind.mv2", 2048%Z);
                     (js "/proj/.claude/mind.mv2.lock", 0%Z)]
      /\ locked w' = []).
Proof.
  split.
  - vm_compute. split; [eexists; split; reflexivity|]. repeat split.
  - vm_compute. repeat split.
Qed.

(* ================================================================= *)
(** * Further properties of the code *)

(** ** Lines and lists *)

Lemma split_no_sep (sep : N) (s : jsstring) : ~ In sep s -> split sep s = [s].
Proof.
  induction s as [|c s IH]; intros H; simpl; [reflexivity|].
  destruct (N.eqb_spec c sep) as [->|Hne].
  - exfalso. apply H. now left.
  - rewrite IH; [reflexivity|]. intros Hin. apply H. now right.
Qed.

Lemma split_app_sep (sep : N) (p rest : jsstring) :
  ~ In sep p -> split sep (p ++ sep :: rest) = p :: split sep rest.
Proof.
  induction p as [|c p IH]; intros H; simpl.
  - now rewrite N.eqb_refl.
  - destruct (N.eqb_spec c sep) as [->|Hne].
    + exfalso. apply H. now left.
    + rewrite IH; [reflexivity|]. intros Hin. apply H. now right.
Qed.

(** No part of a split contains the separator. *)
Lemma split_parts (sep : N) (s : jsstring) :
  Forall (fun p => ~ In sep p) (split sep s).
Proof.
  induction s as [|c s IH]; simpl.
  - constructor; [intros []|constructor].
  - destruct (N.eqb_spec c sep) as [->|Hne].
    + constructor; [intros []|exact IH].
    + destruct (split sep s) as [|l ls];
        [repeat constructor; intros [H|[]]; congruence|].
      inversion IH as [|? ? Hl Hls]; subst. constructor; [|exact Hls].
      intros [H|H]; [congruence|contradiction].
Qed.

(** Joining parts that are free of the separator and splitting again
    gives the parts back. *)
Lemma split_join (sep : N) (parts : list jsstring) :
  parts <> [] -> Forall (fun p => ~ In sep p) parts ->
  split sep (join [sep] parts) = parts.
Proof.
  induction parts as [|p ps IH]; intros Hne Hall; [contradiction|].
  inversion Hall as [|? ? Hp Hps]; subst.
  destruct ps as [|q ps].
  - simpl. now apply split_no_sep.
  - change (join [sep] (p :: q :: ps)) with (p ++ sep :: join [sep] (q :: ps)).
    rewrite split_app_sep by exact Hp.
    rewrite IH; [reflexivity|discriminate|exact Hps].
Qed.

Lemma join_part_length (sep : jsstring) (parts : list jsstring) (p : jsstring) :
  In p parts -> length p <= length (join sep parts).
Proof.
  induction parts as [|q ps IH]; intros Hin; [contradiction|].
  destruct ps as [|q' ps].
  - destruct Hin as [->|[]]. simpl. lia.
  - change (join sep (q :: q' :: ps)) with (q ++ sep ++ join sep (q' :: ps)).
    rewrite !length_app. destruct Hin as [->|Hin]; [lia|].
    specialize (IH Hin). lia.
Qed.

Lemma split_part_length (sep : N) (s p : jsstring) :
  In p (split sep s) -> length p <= length s.
Proof.
  intros Hin. rewrite <- (join_split sep s).
  now apply join_part_length.
Qed.

Lemma last_in {A} (l : list A) (d : A) : l <> [] -> In (last l d) l.
Proof.
  induction l as [|x l IH]; intros H; [contradiction|].
  destruct l as [|y l]; [now left|].
  right. apply IH. discriminate.
Qed.

Lemma in_firstn {A} (n : nat) (l : list A) (x : A) :
  In x (firstn n l) -> In x l.
Proof.
  intros H. rewrite <- (firstn_skipn n l). apply in_or_app. now left.
Qed.

Lemma in_skipn {A} (n : nat) (l : list A) (x : A) :
  In x (skipn n l) -> In x l.
Proof.
  intros H. rewrite <- (firstn_skipn n l). apply in_or_app. now right.
Qed.

Lemma uint_units_digits (d : Decimal.uint) :
  Forall (fun c => Compression.is_digit c = true) (uint_units d).
Proof. induction d; simpl; constructor; auto. Qed.

Lemma num_no_LF (n : nat) : ~ In LF (num n).
Proof.
  intros H. pose proof (uint_units_digits (N.to_uint (N.of_nat n))) as Hd.
  rewrite Forall_forall in Hd. apply Hd in H. discriminate H.
Qed.

Section Dedupe.

Variable A : Type.
Variable eqb : A -> A -> bool.
Hypothesis eqb_eq : forall a b, eqb a b = true <-> a = b.

Lemma existsb_eqb_In (x : A) (seen : list A) :
  existsb (eqb x) seen = true <-> In x seen.
Proof.
  rewrite existsb_exists. split.
  - intros (y & Hin & Hy). apply eqb_eq in Hy. now subst y.
  - intros Hin. exists x. split; [exact Hin|now apply eqb_eq].
Qed.

Lemma dedupe_by_In (seen xs : list A) (x : A) :
  In x (dedupe_by eqb seen xs) <-> In x xs /\ ~ In x seen.
Proof.
  revert seen. induction xs as [|y xs IH]; intros seen; simpl.
  - tauto.
  - destruct (existsb (eqb y) seen) eqn:E.
    + apply existsb_eqb_In in E. rewrite IH. split.
      * intros [Hin Hs]. auto.
      * intros [[->|Hin] Hs]; [contradiction|auto].
    + assert (~ In y seen) as Hy.
      { intros Hin. apply existsb_eqb_In in Hin. congruence. }
      simpl. rewrite IH. simpl. split.
      * intros [->|[Hin Hs]]; [auto|]. split; [auto|]. tauto.
      * intros [[->|Hin] Hs]; [now left|].
        destruct (eqb y x) eqn:Eyx.
        { apply eqb_eq in Eyx. now left. }
        right. split; [exact Hin|]. intros [->|H]; [|contradiction].
        assert (eqb x x = true) by now apply eqb_eq. congruence.
Qed.

Lemma dedupe_by_NoDup (seen xs : list A) : NoDup (dedupe_by eqb seen xs).
Proof.
  revert seen. induction xs as [|y xs IH]; intros seen; simpl.
  - constructor.
  - destruct (existsb (eqb y) seen); [apply IH|].
    constructor; [|apply IH].
    rewrite dedupe_by_In. simpl. tauto.
Qed.

End Dedupe.

Lemma opt_eqb_eq (a b : option jsstring) :
  Compression.opt_eqb a b = true <-> a = b.
Proof.
  destruct a as [x|], b as [y|]; simpl; try (split; congruence).
  rewrite str_eqb_eq. split; congruence.
Qed.

(** ** The compression engine, further *)

(** Settles the comparisons of one literal tool name with another. *)
Ltac decide_tool :=
  repeat match goal with
         | |- context [str_eqb (js ?a) (js ?b)] =>
             let v := eval vm_compute in (str_eqb (js a) (js b)) in
             change (str_eqb (js a) (js b)) with v
         end;
  cbn [orb andb negb].

(** X1. [truncateToTarget] never returns more than 2000 units and
    changes nothing that already fits, so truncating twice is truncating
    once; a longer text is cut to its first 1980 units followed by the
    marker, 1997 units in all. *)
Theorem truncateToTarget_fixed_point (text : jsstring) :
  let r := Compression.truncateToTarget text in
  length r <= 2000
  /\ Compression.truncateToTarget r = r
  /\ (length text <= 2000 /\ r = text
      \/ 2000 < length text /\ length r = 1997
         /\ r = firstn 1980 text ++ truncation_marker).
Proof.
  cbv zeta.
  pose proof (truncateToTarget_length text) as Hlen.
  split; [exact Hlen|]. split; [now apply truncateToTarget_keep|].
  destruct (Nat.leb_spec (length text) 2000) as [Hle|Hgt].
  - left. split; [exact Hle|now apply truncateToTarget_keep].
  - right. split; [exact Hgt|].
    rewrite truncateToTarget_cut by exact Hgt.
    split; [|reflexivity].
    rewrite length_app, length_firstn. unfold truncation_marker.
    simpl length. lia.
Qed.

(** X2. The generic summary never has more than 30 lines and never
    more lines than the output.  An output of at most 30 lines is
    returned as it is; of a longer one the summary is a line with the
    number of lines, the first 15 lines and the last 10 lines, each
    under its heading and each verbatim. *)
Theorem compressGeneric_line_budget (output : jsstring) :
  let lines := split LF output in
  let summary := split LF (Compression.compressGeneric output) in
  length summary <= 30
  /\ length summary <= length lines
  /\ (if length lines <=? 30 then Compression.compressGeneric output = output
      else summary
           = (astral 128202 ++ js " Output: " ++ num (length lines)
                ++ js " lines")
             :: js "--- First 15 lines ---" :: firstn 15 lines
             ++ js "--- Last 10 lines ---"
                :: skipn (length lines - 10) lines).
Proof.
  cbv zeta. unfold Compression.compressGeneric.
  destruct (Nat.leb_spec (length (split LF output)) 30) as [Hle|Hgt].
  - split; [exact Hle|]. split; [lia|reflexivity].
  - set (lines := split LF output) in *.
    assert (split LF
              (join [LF]
                 ([astral 128202 ++ js " Output: " ++ num (length lines)
                     ++ js " lines"; js "--- First 15 lines ---"]
                  ++ slice0 15 lines ++ [js "--- Last 10 lines ---"]
                  ++ slice_last 10 lines))
            = (astral 128202 ++ js " Output: " ++ num (length lines)
                 ++ js " lines")
              :: js "--- First 15 lines ---" :: firstn 15 lines
              ++ js "--- Last 10 lines ---"
                 :: skipn (length lines - 10) lines) as Hsplit.
    { apply split_join; [discriminate|].
      pose proof (split_parts LF output) as Hall. fold lines in Hall.
      assert (forall n, Forall (fun p => ~ In LF p) (firstn n lines)) as Hfirst.
      { intros n. rewrite Forall_forall in Hall |- *.
        intros x Hx. apply Hall. eapply in_firstn. exact Hx. }
      assert (forall n, Forall (fun p => ~ In LF p) (skipn n lines)) as Hskip.
      { intros n. rewrite Forall_forall in Hall |- *.
        intros x Hx. apply Hall. eapply in_skipn. exact Hx. }
      constructor.
      { intros Hin. apply in_app_or in Hin as [Hin|Hin];
          [vm_compute in Hin; intuition discriminate|].
        apply in_app_or in Hin as [Hin|Hin];
          [vm_compute in Hin; intuition discriminate|].
        apply in_app_or in Hin as [Hin|Hin];
          [now apply num_no_LF in Hin|].
        vm_compute in Hin; intuition discriminate. }
      constructor.
      { intros Hin. vm_compute in Hin; intuition discriminate. }
      apply Forall_app. split; [apply Hfirst|].
      constructor; [|apply Hskip].
      intros Hin. vm_compute in Hin; intuition discriminate. }
    rewrite Hsplit. cbn [length]. rewrite length_app. cbn [length].
    rewrite length_firstn, length_skipn.
    split; [lia|]. split; [lia|reflexivity].
Qed.

Lemma join_snoc (sep : N) (init : list jsstring) (x : jsstring) :
  join [sep] (init ++ [x])
  = match init with
    | [] => x
    | _ => join [sep] init ++ sep :: x
    end.
Proof.
  induction init as [|p init IH]; [reflexivity|].
  destruct init as [|q init]; [reflexivity|].
  change (join [sep] ((p :: q :: init) ++ [x]))
    with (p ++ [sep] ++ join [sep] ((q :: init) ++ [x])).
  rewrite IH.
  change (join [sep] (p :: q :: init))
    with (p ++ [sep] ++ join [sep] (q :: init)).
  rewrite <- !app_assoc. reflexivity.
Qed.

(** What [path.split("/").pop()] is: the text behind the last
    separator of the path. *)
Lemma pop_last_segment (path : jsstring) :
  exists segment,
    pop (split SLASH path) = Some segment /\ last_segment path segment.
Proof.
  pose proof (split_nonempty SLASH path) as Hne.
  pose proof (split_parts SLASH path) as Hparts.
  pose proof (join_split SLASH path) as Hjoin.
  rewrite (app_removelast_last [] Hne) in Hparts, Hjoin.
  exists (last (split SLASH path) []). split.
  - unfold pop. now destruct (split SLASH path).
  - apply Forall_app in Hparts as [_ Hlast].
    inversion Hlast as [|? ? Hseg _]; subst. split; [exact Hseg|].
    rewrite join_snoc in Hjoin.
    match type of Hjoin with
    | match ?parts with _ => _ end = _ => destruct parts as [|p init]
    end; [left; exact (eq_sym Hjoin)|right].
    eexists. symmetry. exact Hjoin.
Qed.

Lemma edited_path_field (toolInput : option Compression.ToolInput) :
  or_str (Compression.field Compression.file_path toolInput) (js "unknown")
  = edited_path toolInput.
Proof.
  destruct toolInput as [[[[|c p]|] command pattern]|]; reflexivity.
Qed.

(** X3. For [Edit] and [Write] and an output above the threshold, the
    summary is three lines: the text behind the last separator of the
    file path (the word "file" when the path ends in a separator), the
    note that the changes were applied, and the first 500 units of the
    output, of which nothing else is kept.  The file path is that of
    the metadata, or "unknown" when it is missing or empty; when it has
    at most 1400 units the summary is never truncated. *)
Theorem edit_summary_keeps_500_units
  (JSON_parse : jsstring -> option Compression.JsonValue)
  (RegExp_matches : Compression.SourceRegExp -> jsstring
                    -> list Compression.Match)
  (toolName : jsstring) (toolInput : option Compression.ToolInput)
  (output : jsstring) :
  toolName = js "Edit" \/ toolName = js "Write" ->
  3000 < length output ->
  length (edited_path toolInput) <= 1400 ->
  exists segment,
    last_segment (edited_path toolInput) segment
    /\ Compression.compressToolOutput JSON_parse RegExp_matches toolName
         toolInput output
       = Ok {| Compression.compressed :=
                 (9999%N :: 65039%N :: js " Edited: "
                    ++ match segment with
                       | [] => js "file"
                       | _ => segment
                       end)
                 ++ LF :: (astral 128221 ++ js " Changes applied successfully")
                 ++ LF :: firstn 500 output;
               Compression.wasCompressed := true;
               Compression.originalSize := length output |}.
Proof.
  intros Htool Hlong Hpath.
  destruct (pop_last_segment (edited_path toolInput))
    as (segment & Hpop & Hsegment).
  exists segment. split; [exact Hsegment|].
  set (name := match segment with [] => js "file" | _ => segment end).
  assert (or_str (pop (split SLASH (edited_path toolInput))) (js "file")
          = name) as Hname
    by (rewrite Hpop; unfold name; now destruct segment).
  assert (length name <= 1400) as Hlen.
  { unfold name. destruct segment as [|c segment]; [simpl; lia|].
    destruct Hsegment as [_ [Heq|(dir & Heq)]]; rewrite Heq in Hpath;
      [exact Hpath|].
    rewrite length_app in Hpath. cbn [length] in Hpath |- *. lia. }
  unfold Compression.compressToolOutput.
  destruct (Nat.leb_spec (length output) Compression.COMPRESSION_THRESHOLD)
    as [Hle|_]; [unfold Compression.COMPRESSION_THRESHOLD in Hle; lia|].
  assert (Compression.compressEditOutput toolInput output
          = (9999%N :: 65039%N :: js " Edited: " ++ name)
            ++ LF :: (astral 128221 ++ js " Changes applied successfully")
            ++ LF :: firstn 500 output) as Hsum.
  { unfold Compression.compressEditOutput.
    rewrite edited_path_field, Hname.
    unfold slice0. cbn [join]. rewrite <- !app_assoc. reflexivity. }
  assert (Compression.truncateToTarget
            (Compression.compressEditOutput toolInput output)
          = Compression.compressEditOutput toolInput output) as Hkeep.
  { apply truncateToTarget_keep. rewrite Hsum.
    unfold Compression.TARGET_COMPRESSED_SIZE.
    cbn [length app]. rewrite !length_app. cbn [length].
    rewrite !length_app. cbn [length]. rewrite length_firstn.
    simpl length. lia. }
  destruct Htool as [->| ->]; decide_tool; rewrite Hkeep, Hsum; reflexivity.
Qed.

Lemma edit_summary_keeps_500_units_witness :
  (js "Edit" = js "Edit" \/ js "Edit" = js "Write")
  /\ 3000 < length (repeat_text 301 (js "0123456789"))
  /\ length (edited_path
               (Some {| Compression.file_path := Some (js "src/core/mind.ts");
                        Compression.command := None;
                        Compression.pattern := None |})) <= 1400
  /\ exists segment,
       last_segment (js "src/core/mind.ts") segment
       /\ Compression.compressToolOutput (fun _ => None) (fun _ _ => [])
            (js "Edit")
            (Some {| Compression.file_path := Some (js "src/core/mind.ts");
                     Compression.command := None;
                     Compression.pattern := None |})
            (repeat_text 301 (js "0123456789"))
          = Ok {| Compression.compressed :=
                    (9999%N :: 65039%N :: js " Edited: "
                       ++ match segment with
                          | [] => js "file"
                          | _ => segment
                          end)
                    ++ LF :: (astral 128221
                              ++ js " Changes applied successfully")
                    ++ LF :: firstn 500 (repeat_text 301 (js "0123456789"));
                  Compression.wasCompressed := true;
                  Compression.originalSize :=
                    length (repeat_text 301 (js "0123456789")) |}.
Proof.
  split; [left; reflexivity|].
  split; [apply Nat.ltb_lt; vm_compute; reflexivity|].
  split; [apply Nat.leb_le; vm_compute; reflexivity|].
  apply (@edit_summary_keeps_500_units (fun _ => None) (fun _ _ => [])
           (js "Edit")
           (Some {| Compression.file_path := Some (js "src/core/mind.ts");
                    Compression.command := None;
                    Compression.pattern := None |})
           (repeat_text 301 (js "0123456789"))).
  - left; reflexivity.
  - apply Nat.ltb_lt. vm_compute. reflexivity.
  - apply Nat.leb_le. vm_compute. reflexivity.
Defined.

(** X4. How an output is classified does not depend on the case of
    its letters, and the classifier only ever answers with problem,
    success, warning, discovery, bugfix, refactor or feature: never with
    decision, solution or session. *)
Theorem classify_ignores_case (toolName output : jsstring) :
  classifyObservationType toolName (toLowerCase output)
  = classifyObservationType toolName output
  /\ ~ In (classifyObservationType toolName output)
         [decision; solution; session].
Proof.
  split.
  - assert (toLowerCase (toLowerCase output) = toLowerCase output) as Hidem.
    { unfold toLowerCase. rewrite map_map. apply map_ext. intros c.
      unfold lower_unit.
      repeat match goal with
             | |- context [N.leb ?a ?b] =>
                 lazymatch b with
                 | context [if _ then _ else _] => fail
                 | _ => lazymatch a with
                        | context [if _ then _ else _] => fail
                        | _ => destruct (N.leb_spec a b); cbn [andb negb]
                        end
                 end
             | |- context [N.eqb ?a ?b] =>
                 lazymatch a with
                 | context [if _ then _ else _] => fail
                 | _ => destruct (N.eqb_spec a b); cbn [andb negb]
                 end
             end; try reflexivity; lia. }
    unfold classifyObservationType. rewrite Hidem. reflexivity.
  - unfold classifyObservationType.
    repeat match goal with
           | |- context [if ?c then _ else _] => destruct c
           end; simpl; intuition discriminate.
Qed.

(** X5. The file-read summarizer reports at most 10 marked lines; each
    is a line of the file that contains TODO, FIXME, HACK, XXX or BUG as
    written, trimmed and cut to 100 units. *)
Theorem extractErrorPatterns_bounded (code : jsstring) :
  length (Compression.extractErrorPatterns code) <= 10
  /\ Forall (fun e =>
               length e <= 100
               /\ exists line,
                    In line (split LF code)
                    /\ existsb (includes line) todo_markers = true
                    /\ e = firstn 100 (trim line))
       (Compression.extractErrorPatterns code).
Proof.
  unfold Compression.extractErrorPatterns, slice0. split.
  - rewrite length_firstn. lia.
  - rewrite Forall_forall. intros e He. apply in_firstn in He.
    apply in_map_iff in He as (line & <- & Hline).
    apply filter_In in Hline as [Hin Hmark]. split.
    + rewrite length_firstn. lia.
    + exists line. split; [exact Hin|]. split; [|reflexivity].
      unfold todo_markers. cbn [existsb]. now rewrite orb_false_r, !orb_assoc.
Qed.

(** X6. Whatever the regular expressions match, the lists of imports,
    exports, function names and class names that the file-read
    summarizer prints never repeat an entry, and no export is empty. *)
Theorem extracted_names_distinct
  (RegExp_matches : Compression.SourceRegExp -> jsstring
                    -> list Compression.Match)
  (code : jsstring) :
  NoDup (Compression.extractImports RegExp_matches code)
  /\ NoDup (Compression.extractExports RegExp_matches code)
  /\ NoDup (Compression.extractFunctionSignatures RegExp_matches code)
  /\ NoDup (Compression.extractClassNames RegExp_matches code)
  /\ ~ In [] (Compression.extractExports RegExp_matches code).
Proof.
  unfold Compression.extractImports, Compression.extractExports,
    Compression.extractFunctionSignatures, Compression.extractClassNames.
  repeat split; try (apply dedupe_by_NoDup; first [exact str_eqb_eq|exact opt_eqb_eq]).
  intros Hin. apply (@dedupe_by_In _ _ str_eqb_eq) in Hin as [Hin _].
  apply in_flat_map in Hin as (p & _ & Hin).
  apply in_flat_map in Hin as (m & _ & Hin).
  unfold filter_nonempty in Hin. apply filter_In in Hin as [_ H].
  discriminate H.
Qed.

(** *** When the glob summarizer throws *)

Lemma push_own_keys (byDir : Compression.ByDir) (k file : jsstring) :
  map fst (Compression.push_own byDir k file) = map fst byDir.
Proof.
  induction byDir as [|[d fs] rest IH]; simpl; [reflexivity|].
  destruct (str_eqb d k); simpl; [reflexivity|now rewrite IH].
Qed.

Lemma has_own_In (byDir : Compression.ByDir) (k : jsstring) :
  Compression.has_own byDir k = true -> In k (map fst byDir).
Proof.
  unfold Compression.has_own. intros H.
  apply existsb_exists in H as (e & Hin & He).
  apply str_eqb_eq in He. subst k. now apply in_map.
Qed.

(** Grouping lines by directory fails exactly when some line lies in a
    directory named like an inherited property: such a name never
    becomes a key of [byDir], so the first such line meets the
    inherited value. *)
Lemma glob_group_all_lines (lines : list jsstring) :
  forall byDir : Compression.ByDir,
    Forall (fun k => existsb (str_eqb k) Compression.Object_prototype_keys
                     = false) (map fst byDir) ->
    if existsb in_inherited_dir lines
    then Compression.glob_group_all byDir (map Compression.JString lines)
         = Throw (not_a_function "byDir[dir].push")
    else exists byDir',
        Compression.glob_group_all byDir (map Compression.JString lines)
        = Ok byDir'.
Proof.
  induction lines as [|f rest IH]; intros byDir Hkeys.
  - simpl. eauto.
  - cbn [map existsb Compression.glob_group_all].
    assert (Compression.glob_group byDir (Compression.JString f)
            = if Compression.has_own byDir (glob_dir f)
              then Ok (Compression.push_own byDir (glob_dir f)
                         (or_str (pop (split SLASH f)) f))
              else if in_inherited_dir f
                   then Throw (not_a_function "byDir[dir].push")
                   else Ok (byDir ++ [(glob_dir f,
                                       [or_str (pop (split SLASH f)) f])]))
      as -> by reflexivity.
    destruct (Compression.has_own byDir (glob_dir f)) eqn:Eown.
    + assert (in_inherited_dir f = false) as ->.
      { apply has_own_In in Eown. rewrite Forall_forall in Hkeys.
        now apply Hkeys. }
      cbn [orb]. apply IH. now rewrite push_own_keys.
    + destruct (in_inherited_dir f) eqn:Einh; cbn [orb]; [reflexivity|].
      apply IH. rewrite map_app. apply Forall_app. split; [exact Hkeys|].
      constructor; [exact Einh|constructor].
Qed.

Lemma compressGlobOutput_listing
  (JSON_parse : jsstring -> option Compression.JsonValue)
  (toolInput : option Compression.ToolInput) (output : jsstring) :
  JSON_parse output = None ->
  if existsb in_inherited_dir (filter_nonempty (split LF output))
  then Compression.compressGlobOutput JSON_parse toolInput output
       = Throw (not_a_function "byDir[dir].push")
  else exists summary,
      Compression.compressGlobOutput JSON_parse toolInput output = Ok summary.
Proof.
  intros Hjson.
  unfold Compression.compressGlobOutput, Compression.glob_files.
  rewrite Hjson.
  pose proof (@glob_group_all_lines (filter_nonempty (split LF output))
                [] (Forall_nil _)) as H.
  destruct (existsb in_inherited_dir (filter_nonempty (split LF output))).
  - now rewrite H.
  - destruct H as (byDir' & ->). eauto.
Qed.

(** X7. When the output of the glob tool is not JSON, the summarizer
    throws the [TypeError] exactly when some listed path lies in a
    directory whose whole name is a property every object inherits
    ([constructor], [toString], [valueOf], ...); on every other listing
    it returns a summary. *)
Theorem glob_listing_throws_iff
  (JSON_parse : jsstring -> option Compression.JsonValue)
  (toolInput : option Compression.ToolInput) (output : jsstring) :
  JSON_parse output = None ->
  if existsb in_inherited_dir (filter_nonempty (split LF output))
  then Compression.compressGlobOutput JSON_parse toolInput output
       = Throw (not_a_function "byDir[dir].push")
  else exists summary,
      Compression.compressGlobOutput JSON_parse toolInput output = Ok summary.
Proof. apply compressGlobOutput_listing. Qed.

Lemma glob_listing_throws_iff_witness :
  (fun _ : jsstring => @None Compression.JsonValue)
    (js "src/a.ts" ++ LF :: js "toString/b.ts") = None
  /\ Compression.compressGlobOutput (fun _ => None) None
       (js "src/a.ts" ++ LF :: js "toString/b.ts")
     = Throw (not_a_function "byDir[dir].push").
Proof.
  split; [reflexivity|].
  exact (@glob_listing_throws_iff (fun _ => None) None
           (js "src/a.ts" ++ LF :: js "toString/b.ts") eq_refl).
Defined.

(** X8. A Bash output of at most 20 lines is repeated in full at the
    end of its report, so the report is longer than the output; above
    the threshold such a report is always cut: what is kept are its
    first 1980 units and the marker. *)
Theorem bash_short_output_is_truncated
  (JSON_parse : jsstring -> option Compression.JsonValue)
  (RegExp_matches : Compression.SourceRegExp -> jsstring
                    -> list Compression.Match)
  (toolInput : option Compression.ToolInput) (output : jsstring) :
  3000 < length output ->
  length (split LF output) <= 20 ->
  ends_with (Compression.compressBashOutput toolInput output)
    (LF :: js "--- Full output ---" ++ output)
  /\ Compression.compressToolOutput JSON_parse RegExp_matches (js "Bash")
       toolInput output
     = Ok {| Compression.compressed :=
               firstn 1980 (Compression.compressBashOutput toolInput output)
               ++ truncation_marker;
             Compression.wasCompressed := true;
             Compression.originalSize := length output |}.
Proof.
  intros Hlong Hlines.
  assert (ends_with (Compression.compressBashOutput toolInput output)
            (LF :: js "--- Full output ---" ++ output)) as Hends.
  { rewrite compressBashOutput_report. unfold bash_report.
    apply Nat.leb_le in Hlines. rewrite Hlines.
    eexists. rewrite !app_assoc. reflexivity. }
  split; [exact Hends|].
  unfold Compression.compressToolOutput.
  destruct (Nat.leb_spec (length output) Compression.COMPRESSION_THRESHOLD)
    as [Hle|_]; [unfold Compression.COMPRESSION_THRESHOLD in Hle; lia|].
  decide_tool.
  rewrite truncateToTarget_cut; [reflexivity|].
  destruct Hends as (front & ->). rewrite length_app.
  unfold Compression.TARGET_COMPRESSED_SIZE. cbn [length].
  rewrite length_app. lia.
Qed.

Lemma bash_short_output_is_truncated_witness :
  3000 < length twenty_lines
  /\ length (split LF twenty_lines) <= 20
  /\ ends_with (Compression.compressBashOutput None twenty_lines)
       (LF :: js "--- Full output ---" ++ twenty_lines).
Proof.
  assert (3000 < length twenty_lines) as H1
    by (apply Nat.ltb_lt; vm_compute; reflexivity).
  assert (length (split LF twenty_lines) <= 20) as H2
    by (apply Nat.leb_le; vm_compute; reflexivity).
  split; [exact H1|]. split; [exact H2|].
  exact (proj1 (@bash_short_output_is_truncated (fun _ => None)
                  (fun _ _ => []) None twenty_lines H1 H2)).
Defined.

(** ** The backup pattern *)

Lemma not_syntax_char (c : N) :
  RegExpLite.is_syntax_char c = false ->
  N.eqb c 92 = false /\ N.eqb c 46 = false /\ N.eqb c 43 = false.
Proof.
  intros H. repeat split.
  - destruct (N.eqb_spec c 92) as [->|]; [vm_compute in H; discriminate|reflexivity].
  - destruct (N.eqb_spec c 46) as [->|]; [vm_compute in H; discriminate|reflexivity].
  - destruct (N.eqb_spec c 43) as [->|]; [vm_compute in H; discriminate|reflexivity].
Qed.

Lemma plain_text_cons (c : N) (s : jsstring) :
  plain_text (c :: s) = true ->
  RegExpLite.is_syntax_char c = false /\ plain_text s = true.
Proof.
  unfold plain_text. cbn [forallb]. intros H.
  apply andb_true_iff in H as [Hc Hs]. apply negb_true_iff in Hc. auto.
Qed.

Lemma no_plus_ahead_app (pre s : jsstring) :
  plain_text pre = true -> no_plus_ahead s -> no_plus_ahead (pre ++ s).
Proof.
  destruct pre as [|c pre]; intros Hp Hs; [exact Hs|].
  apply plain_text_cons in Hp as [Hc _]. simpl.
  now apply not_syntax_char in Hc.
Qed.

Lemma parse_one_literal (c : N) (s : jsstring) :
  RegExpLite.is_syntax_char c = false -> no_plus_ahead s ->
  RegExpLite.parse_body (c :: s)
  = RegExpLite.cons_piece (RegExpLite.ALit c) false (RegExpLite.parse_body s).
Proof.
  intros Hc Hs. pose proof (not_syntax_char c Hc) as (H92 & H46 & _).
  cbn [RegExpLite.parse_body]. rewrite H92.
  unfold RegExpLite.plain_atom. rewrite H46, Hc.
  destruct s as [|q s2]; [reflexivity|].
  simpl in Hs. now rewrite Hs.
Qed.

Lemma parse_plain (pre s : jsstring) (ps : list RegExpLite.Piece) :
  plain_text pre = true -> no_plus_ahead s ->
  RegExpLite.parse_body s = Some ps ->
  RegExpLite.parse_body (pre ++ s) = Some (literal_pieces pre ++ ps).
Proof.
  intros Hp Hs Hparse. induction pre as [|c pre IH]; [exact Hparse|].
  apply plain_text_cons in Hp as [Hc Hp].
  cbn [app]. rewrite parse_one_literal;
    [|exact Hc|now apply no_plus_ahead_app].
  rewrite (IH Hp). reflexivity.
Qed.

Lemma parse_escaped_dot (s : jsstring) :
  no_plus_ahead s ->
  RegExpLite.parse_body (92%N :: 46%N :: s)
  = RegExpLite.cons_piece (RegExpLite.ALit 46) false (RegExpLite.parse_body s).
Proof.
  intros Hs. cbn [RegExpLite.parse_body]. cbn [N.eqb Pos.eqb].
  unfold RegExpLite.escaped_atom. cbn [N.eqb Pos.eqb].
  destruct s as [|q s2]; [reflexivity|].
  simpl in Hs. now rewrite Hs.
Qed.

Lemma escape_first_dot_plain (s : jsstring) :
  plain_text s = true -> escape_first_dot s = s.
Proof.
  induction s as [|c s IH]; intros Hp; [reflexivity|].
  apply plain_text_cons in Hp as [Hc Hp].
  apply not_syntax_char in Hc as (_ & H46 & _).
  simpl. now rewrite H46, IH.
Qed.

Lemma escape_first_dot_stem (stem rest : jsstring) :
  plain_text stem = true ->
  escape_first_dot (stem ++ 46%N :: rest) = stem ++ 92%N :: 46%N :: rest.
Proof.
  induction stem as [|c s IH]; intros Hp; [reflexivity|].
  apply plain_text_cons in Hp as [Hc Hp].
  apply not_syntax_char in Hc as (_ & H46 & _).
  simpl. now rewrite H46, IH.
Qed.

(** For a simple file name the pattern is read as intended. *)
Lemma compile_backupPattern (baseName : jsstring) :
  simple_file_name baseName = true ->
  RegExpLite.compile (backupPattern_source baseName)
  = Some (literal_pieces baseName ++ backup_suffix_pieces).
Proof.
  intros Hsimple.
  assert (RegExpLite.parse_body (js "\.backup-\d+")
          = Some backup_suffix_pieces) as Htail by reflexivity.
  assert (no_plus_ahead (js "\.backup-\d+")) as Hhead by reflexivity.
  assert (RegExpLite.parse_body
            (escape_first_dot baseName ++ js "\.backup-\d+")
          = Some (literal_pieces baseName ++ backup_suffix_pieces)) as Hbody.
  { unfold simple_file_name in Hsimple.
    pose proof (join_split 46 baseName) as Hjoin.
    destruct (split 46 baseName) as [|stem [|extension [|]]];
      try discriminate Hsimple.
    - simpl in Hjoin. subst stem.
      rewrite escape_first_dot_plain by exact Hsimple.
      now apply parse_plain.
    - apply andb_true_iff in Hsimple as [Hstem Hext].
      change (join [46%N] [stem; extension])
        with (stem ++ 46%N :: extension) in Hjoin.
      subst baseName.
      rewrite escape_first_dot_stem by exact Hstem.
      rewrite <- app_assoc. cbn [app].
      assert (RegExpLite.parse_body (extension ++ js "\.backup-\d+")
              = Some (literal_pieces extension ++ backup_suffix_pieces))
        as Hrest by now apply parse_plain.
      erewrite parse_plain; [|exact Hstem|reflexivity|].
      2:{ rewrite parse_escaped_dot by now apply no_plus_ahead_app.
          rewrite Hrest. reflexivity. }
      unfold literal_pieces. rewrite map_app, <- app_assoc. reflexivity. }
  unfold backupPattern_source.
  change (js "^" ++ escape_first_dot baseName ++ js "\.backup-\d+$")
    with (94%N :: escape_first_dot baseName ++ js "\.backup-\d+" ++ [36%N]).
  unfold RegExpLite.compile. cbn [N.eqb Pos.eqb].
  rewrite app_assoc, rev_unit. cbn [N.eqb Pos.eqb].
  rewrite rev_involutive. exact Hbody.
Qed.

Lemma startsWith_app (s x y : jsstring) :
  startsWith s (x ++ y)
  = startsWith s x && startsWith (skipn (length x) s) y.
Proof.
  revert s. induction x as [|c x IH]; intros s.
  - now rewrite startsWith_nil.
  - destruct s as [|d s]; [reflexivity|].
    simpl. rewrite IH. now rewrite andb_assoc.
Qed.

Lemma match_literal_pieces (x : jsstring) (ps : list RegExpLite.Piece)
  (s : jsstring) :
  RegExpLite.match_pieces (literal_pieces x ++ ps) s
  = if startsWith s x then RegExpLite.match_pieces ps (skipn (length x) s)
    else Some false.
Proof.
  revert s. induction x as [|c x IH]; intros s.
  - now rewrite startsWith_nil.
  - destruct s as [|d s]; [reflexivity|].
    simpl. destruct (N.eqb c d); [apply IH|reflexivity].
Qed.

Lemma new_RegExp_backupPattern (host : Host) (baseName : jsstring)
  (w : World) :
  simple_file_name baseName = true ->
  new_RegExp host (backupPattern_source baseName) w
  = (Ok (backupPattern_source baseName), w).
Proof.
  intros Hsimple. unfold new_RegExp.
  now rewrite (compile_backupPattern baseName Hsimple).
Qed.

Lemma RegExp_test_backupPattern (host : Host) (baseName f : jsstring) :
  simple_file_name baseName = true ->
  RegExp_test host (backupPattern_source baseName) f
  = is_backup_of baseName f.
Proof.
  intros Hsimple. unfold RegExp_test, RegExpLite.test.
  rewrite (compile_backupPattern baseName Hsimple).
  unfold backup_suffix_pieces. rewrite !match_literal_pieces.
  unfold is_backup_of. rewrite startsWith_app.
  destruct (startsWith f baseName); [|reflexivity].
  destruct (startsWith (skipn (length baseName) f) (js ".backup-"));
    [|reflexivity].
  cbn [andb]. rewrite skipn_skipn.
  change (length (js ".backup-")) with 8.
  rewrite (Nat.add_comm 8).
  destruct (skipn (length baseName + 8) f) as [|d digits]; reflexivity.
Qed.

(** X9. For a memory file whose name has at most one dot and no other
    character that is special in a regular expression (as [mind.mv2]),
    the pattern built by [pruneBackups] is valid and accepts exactly the
    names made of that name, [.backup-] and one or more digits. *)
Theorem backup_pattern_of_simple_name (host : Host) (baseName : jsstring) :
  simple_file_name baseName = true ->
  (forall w,
      new_RegExp host (backupPattern_source baseName) w
      = (Ok (backupPattern_source baseName), w))
  /\ forall f,
      RegExp_test host (backupPattern_source baseName) f
      = is_backup_of baseName f.
Proof.
  intros Hsimple. split.
  - intros w. now apply new_RegExp_backupPattern.
  - intros f. now apply RegExp_test_backupPattern.
Qed.

Lemma backup_pattern_of_simple_name_witness :
  simple_file_name (js "mind.mv2") = true
  /\ RegExp_test quiet_host (backupPattern_source (js "mind.mv2"))
       (js "mind.mv2.backup-1700000000001")
     = is_backup_of (js "mind.mv2") (js "mind.mv2.backup-1700000000001").
Proof.
  split; [reflexivity|].
  exact (proj2 (@backup_pattern_of_simple_name quiet_host (js "mind.mv2")
                  eq_refl) (js "mind.mv2.backup-1700000000001")).
Defined.

(** ** Changed files *)

Lemma NoDup_snoc {A} (l : list A) (x : A) :
  NoDup l -> ~ In x l -> NoDup (l ++ [x]).
Proof.
  induction l as [|y l IH]; intros Hl Hx; simpl.
  - constructor; [intros []|constructor].
  - inversion Hl as [|? ? Hy Hl']; subst. constructor.
    + intros Hin. apply in_app_or in Hin as [Hin|[->|[]]]; [contradiction|].
      apply Hx. now left.
    + apply IH; [exact Hl'|]. intros Hin. apply Hx. now right.
Qed.

Lemma push_missing_NoDup (files all : list jsstring) :
  NoDup all -> NoDup (push_missing all files).
Proof.
  revert all. induction files as [|f rest IH]; intros all Hall; simpl.
  - exact Hall.
  - destruct (existsb (str_eqb f) all) eqn:E; [now apply IH|].
    apply IH. apply NoDup_snoc; [exact Hall|].
    now apply existsb_str_eqb_false.
Qed.

Lemma push_missing_keeps (files all : list jsstring) :
  exists added, push_missing all files = all ++ added.
Proof.
  revert all. induction files as [|f rest IH]; intros all; simpl.
  - exists []. now rewrite app_nil_r.
  - destruct (existsb (str_eqb f) all); [apply IH|].
    destruct (IH (all ++ [f])) as (added & ->).
    exists (f :: added). now rewrite <- app_assoc.
Qed.

Lemma push_missing_In (files all : list jsstring) (x : jsstring) :
  In x (push_missing all files) <-> In x all \/ In x files.
Proof.
  revert all. induction files as [|f rest IH]; intros all; simpl.
  - tauto.
  - destruct (existsb (str_eqb f) all) eqn:E.
    + rewrite IH. apply existsb_exists in E as (y & Hy & Heq).
      apply str_eqb_eq in Heq. subst y. split; [tauto|].
      intros [H|[->|H]]; auto.
    + rewrite IH, in_app_iff. simpl. tauto.
Qed.

Lemma strip_dot_slash_eq (line : jsstring) :
  strip_dot_slash line
  = if startsWith line [46%N; 47%N] then skipn 2 line else line.
Proof.
  unfold strip_dot_slash. destruct line as [|c [|d rest]]; [reflexivity| |].
  - destruct c as [|p]; [reflexivity|].
    repeat (destruct p as [p|p|]; try reflexivity).
  - destruct c as [|p]; [reflexivity|].
    repeat (destruct p as [p|p|]; try reflexivity).
    destruct d as [|p]; [reflexivity|].
    repeat (destruct p as [p|p|]; try reflexivity).
    now destruct rest.
Qed.

Lemma strip_dot_slash_spec (line name : jsstring) :
  strip_dot_slash line = name <-> without_dot_slash line name.
Proof.
  rewrite strip_dot_slash_eq. unfold without_dot_slash.
  destruct (startsWith line [46%N; 47%N]) eqn:E.
  - apply startsWith_skipn in E. split.
    + intros <-. left. exact E.
    + intros [->|[_ H]]; [reflexivity|discriminate H].
  - split.
    + intros <-. now right.
    + intros [->|[-> _]]; [|reflexivity].
      pose proof (startsWith_self_app [46%N; 47%N] name) as H.
      cbn [app] in H. congruence.
Qed.

(** X10. Whatever the four shell commands answer, the list of changed
    files names no file twice, and it names exactly these: when both git
    commands answer, the names in their answers; and when [find]
    answers, the names in its answer, each without a leading [./].  The
    names in an answer are the non-empty lines of the answer after
    white space is removed from the two ends of the answer as a whole:
    white space inside the answer, such as a space that ends a line
    other than the last, stays part of the name.  A git summary is only
    returned together with changed files, and when every command fails
    the result is empty. *)
Theorem captureFileChanges_distinct
  (execSync : ShellCommand -> Outcome jsstring) :
  let changes := captureFileChanges execSync in
  NoDup (fc_files changes)
  /\ (forall f,
         In f (fc_files changes)
         <-> (exists d s,
                 execSync sh_diff_names = Ok d
                 /\ execSync sh_staged_names = Ok s
                 /\ (In f (answer_lines d) \/ In f (answer_lines s)))
             \/ (exists out line,
                    execSync sh_find_recent = Ok out
                    /\ In line (answer_lines out)
                    /\ without_dot_slash line f))
  /\ (fc_gitDiffContent changes <> [] -> fc_files changes <> [])
  /\ ((forall c, exists e, execSync c = Throw e) ->
      changes = {| fc_files := []; fc_gitDiffContent := [] |}).
Proof.
  cbv zeta. unfold captureFileChanges.
  set (git :=
         match execSync sh_diff_names with
         | Ok out =>
             match execSync sh_staged_names with
             | Ok out0 => _
             | Throw _ => _
             end
         | Throw _ => _
         end).
  assert (NoDup (fst git) /\ (snd git <> [] -> fst git <> [])
          /\ ((forall c, exists e, execSync c = Throw e) -> git = ([], []))
          /\ (forall f,
                 In f (fst git)
                 <-> exists d s,
                       execSync sh_diff_names = Ok d
                       /\ execSync sh_staged_names = Ok s
                       /\ (In f (answer_lines d) \/ In f (answer_lines s))))
    as (Hnodup & Hdiff & Hfail & Hgit).
  { subst git.
    destruct (execSync sh_diff_names) as [out1|e1] eqn:E1.
    2:{ simpl. split; [constructor|]. split; [congruence|].
        split; [reflexivity|]. intros f. split; [intros []|].
        intros (d & s & Hd & _). discriminate Hd. }
    destruct (execSync sh_staged_names) as [out2|e2] eqn:E2.
    2:{ simpl. split; [constructor|]. split; [congruence|].
        split; [reflexivity|]. intros f. split; [intros []|].
        intros (d & s & _ & Hs & _). discriminate Hs. }
    cbn [fst snd]. split; [apply dedupe_by_NoDup; exact str_eqb_eq|].
    split; [|split].
    - destruct (dedupe_by str_eqb [] _) as [|g gs]; [|discriminate].
      simpl. congruence.
    - intros Hall. destruct (Hall sh_diff_names) as (e & He). congruence.
    - intros f. rewrite (@dedupe_by_In _ _ str_eqb_eq), in_app_iff.
      fold (answer_lines out1). fold (answer_lines out2). split.
      + intros [Hin _]. exists out1, out2. auto.
      + intros (d & s & Hd & Hs & Hin).
        injection Hd as <-. injection Hs as <-. split; [exact Hin|intros []]. }
  destruct git as [allChangedFiles gitDiffContent]. cbn [fst snd] in *.
  cbn [fc_files fc_gitDiffContent].
  split; [now apply push_missing_NoDup|]. split; [|split].
  - intros f. rewrite push_missing_In, Hgit.
    apply or_iff_compat_l.
    destruct (execSync sh_find_recent) as [out|e]; split.
    + intros Hin. fold (answer_lines out) in Hin.
      apply in_map_iff in Hin as (g & <- & Hg). exists out, g.
      split; [reflexivity|]. split; [exact Hg|].
      apply strip_dot_slash_spec. reflexivity.
    + intros (out' & g & Hout & Hg & Hname). injection Hout as <-.
      fold (answer_lines out). apply strip_dot_slash_spec in Hname.
      subst f. now apply in_map.
    + intros [].
    + intros (out' & g & Hout & _). discriminate Hout.
  - intros Hd. specialize (Hdiff Hd).
    destruct (push_missing_keeps
                match execSync sh_find_recent with
                | Ok out => map strip_dot_slash
                              (filter_nonempty (split LF (trim out)))
                | Throw _ => []
                end allChangedFiles) as (added & ->).
    destruct allChangedFiles; [contradiction|discriminate].
  - intros Hall. specialize (Hfail Hall). injection Hfail as -> ->.
    destruct (Hall sh_find_recent) as (e & ->). reflexivity.
Qed.

Example captureFileChanges_example :
  captureFileChanges busy_shell
  = {| fc_files := [js "src/a.ts"; js "src/b.ts"; js "README.md"];
       fc_gitDiffContent := js "2 files changed, 3 insertions(+)" |}
  /\ captureFileChanges empty_shell
     = {| fc_files := []; fc_gitDiffContent := [] |}.
Proof. split; vm_compute; reflexivity. Qed.

(** ** The handlers of the plugin *)

Lemma try_catch_total {A} (m : M A) (h : Thrown -> M A) (w : World) :
  (forall e w1, exists a w', h e w1 = (Ok a, w')) ->
  exists a w', try_catch m h w = (Ok a, w').
Proof.
  intros Hh. unfold try_catch. destruct (m w) as [[a|e] w1]; eauto.
Qed.

(** X11. The [tool.execute.after] handler never throws, whatever the
    store, the lock, the engine or the summarizer do; for a tool that
    is not observed it leaves the process exactly as it was. *)
Theorem tool_execute_after_never_throws (host : Host)
  (memoryPath tool sessionID : jsstring) (output : HookOutput)
  (metadata : option Compression.ToolInput) (w : World) :
  exists w',
    tool_execute_after host memoryPath tool sessionID output metadata w
    = (Ok tt, w')
    /\ (existsb (str_eqb tool) OBSERVED_TOOLS = false -> w' = w).
Proof.
  unfold tool_execute_after.
  destruct (existsb (str_eqb tool) OBSERVED_TOOLS); cbn [negb].
  - match goal with
    | |- context [try_catch ?m ?h w] =>
        destruct (@try_catch_total _ m h w) as ([] & w' & ->)
    end.
    + intros e w1. unfold console_error. eauto.
    + exists w'. split; [reflexivity|discriminate].
  - exists w. split; [reflexivity|reflexivity].
Qed.

Lemma buildSessionContext_returns (host : Host)
  (memoryPath projectDir : jsstring) (w : World) :
  exists context w',
    buildSessionContext host memoryPath projectDir w = (Ok context, w')
    /\ startsWith context (js "<opencode-brain-context>") = true.
Proof.
  unfold buildSessionContext. cbv zeta.
  unfold bind at 1. unfold existsSync, get.
  destruct (lookup_file (key w memoryPath) (files w)) as [size|].
  - unfold try_catch, bind.
    destruct (statSync_size host memoryPath w) as [[z|e] w1];
      unfold ret; do 2 eexists; (split; [reflexivity|]); reflexivity.
  - unfold ret. do 2 eexists. split; reflexivity.
Qed.

(** X12. The [event] handler never throws.  It answers [session.created]
    with the context block, also when the memory file cannot be
    inspected, and every other event, [session.idle] included, with
    nothing. *)
Theorem event_never_throws (host : Host)
  (execSync : ShellCommand -> Outcome jsstring)
  (memoryPath projectDir type : jsstring) (w : World) :
  exists r w',
    event host execSync memoryPath projectDir type w = (Ok r, w')
    /\ match r with
       | Some context =>
           type = js "session.created"
           /\ startsWith context (js "<opencode-brain-context>") = true
       | None => type <> js "session.created"
       end.
Proof.
  unfold event.
  destruct (str_eqb type (js "session.created")) eqn:Ecreated.
  - apply str_eqb_eq in Ecreated.
    destruct (buildSessionContext_returns host memoryPath projectDir w)
      as (context & w' & Hrun & Htag).
    unfold bind. rewrite Hrun. unfold ret.
    exists (Some context), w'. auto.
  - apply str_eqb_neq in Ecreated.
    destruct (str_eqb type (js "session.idle")).
    + unfold bind at 1.
      match goal with
      | |- context [try_catch ?m ?h w] =>
          destruct (@try_catch_total _ m h w) as ([] & w' & ->)
      end.
      * intros e w1. unfold console_error. eauto.
      * unfold ret. exists None, w'. auto.
    + unfold ret. exists None, w. auto.
Qed.

(** What [remember] hands to the engine. *)
Lemma emits_remember_put (host : Host) (P : Call -> Prop) (mind : Mind)
  (input : RememberInput) :
  (forall c, engine_call c = false -> P c) ->
  (forall (id : jsstring) (timestamp : Z),
      P (c_put (memvid mind)
           {| pa_title := js "[" ++ type_name (ri_type input) ++ js "] "
                          ++ ri_summary input;
              pa_label := type_name (ri_type input);
              pa_text := ri_content input;
              pa_metadata :=
                ObservationMetadata id timestamp (ri_tool input)
                  (sessionId mind) (ri_metadata input);
              pa_tags :=
                filter_nonempty
                  [type_name (ri_type input); or_str (ri_tool input) []] |})) ->
  emits P (remember host mind input).
Proof.
  intros P_other Hput. unfold remember.
  apply emits_bind; [apply emits_generateId, P_other; reflexivity|intros id].
  apply emits_bind; [apply emits_Date_now, P_other; reflexivity|intros t].
  apply emits_bind; [|intros frameId].
  - apply emits_withLock; [exact P_other|]. apply emits_call_for. apply Hput.
  - apply emits_bind; [|intros _; apply emits_ret].
    destruct (debug _);
      [apply emits_console, P_other; reflexivity|apply emits_ret].
Qed.

Lemma idle_observation_text (changes : FileChanges) :
  ri_content (idle_observation changes) = changes_text changes.
Proof.
  unfold idle_observation, changes_text. cbn [ri_content].
  destruct (fc_gitDiffContent changes) as [|c summary].
  - cbn [join]. rewrite app_nil_r. reflexivity.
  - cbn [join app]. rewrite <- ?app_assoc. reflexivity.
Qed.

(** X13. Which calls the [event] handler makes depends on the type of
    the event ([existsSync] and the shell commands of
    [captureFileChanges] apart, which are not recorded as calls).  For
    [session.created] the only call it makes, if any, asks for the size
    of the memory file.  For [session.idle] it may load the engine and
    create or open the store, but of the operations on the open store
    ([put], [find], [ask], [timeline], [stats]) it only ever uses
    [put], and only when files changed: for an observation of type
    refactor whose title gives their number and whose text is a
    heading, the changed files as a list and, when there is one, the
    git summary in a code block.  For every other event it makes no
    call at all. *)
Theorem event_stores_only_changes (host : Host)
  (execSync : ShellCommand -> Outcome jsstring)
  (memoryPath projectDir type : jsstring) :
  emits (event_call memoryPath (captureFileChanges execSync) type)
    (event host execSync memoryPath projectDir type).
Proof.
  unfold event, event_call.
  destruct (str_eqb type (js "session.created")).
  { apply emits_bind; [|intros context; apply emits_ret].
    unfold buildSessionContext. cbv zeta.
    apply emits_bind; [apply emits_existsSync|intros [|]];
      [|apply emits_ret].
    apply emits_try_catch; [|intros _; apply emits_ret].
    apply emits_bind; [|intros size; apply emits_ret].
    unfold statSync_size.
    apply emits_bind; [now apply emits_call|intros _].
    apply emits_bind; [apply emits_get|intros [size|]];
      [apply emits_ret|apply emits_throw]. }
  destruct (str_eqb type (js "session.idle")); [|apply emits_ret].
  assert (forall c,
             engine_call c = false ->
             idle_call (captureFileChanges execSync) c) as P_other.
  { intros c Hc. destruct c; simpl in *; try exact I; discriminate Hc. }
  apply emits_bind; [|intros _; apply emits_ret].
  apply emits_try_catch;
    [|intros e; apply emits_console, P_other; reflexivity].
  apply emits_bind; [now apply emits_getMind|intros mind].
  cbv zeta.
  destruct (Nat.eqb_spec (length (fc_files (captureFileChanges execSync))) 0)
    as [Hnone|Hsome]; [apply emits_ret|].
  apply emits_bind; [|intros _; apply emits_ret].
  apply emits_remember_put; [exact P_other|].
  intros id timestamp. unfold idle_call. cbn [pa_title pa_label pa_text].
  split; [|split; [|split; [reflexivity|apply idle_observation_text]]].
  - intros Hnil. rewrite Hnil in Hsome. now apply Hsome.
  - reflexivity.
Qed.

Example event_idle_example :
  map call_kind
    (log (snd (event quiet_host busy_shell (js "/proj/.claude/mind.mv2")
                 (js "/proj") (js "session.idle") (project_world []))))
  = [js "import"; js "mkdir"; js "mkdir"; js "touch"; js "lock"; js "create";
     js "release"; js "random"; js "readdir"; js "random"; js "now";
     js "mkdir"; js "touch"; js "lock"; js "put"; js "release"]
  /\ map call_kind
       (log (snd (event quiet_host empty_shell (js "/proj/.claude/mind.mv2")
                    (js "/proj") (js "session.idle") (project_world []))))
     = [js "import"; js "mkdir"; js "mkdir"; js "touch"; js "lock";
        js "create"; js "release"; js "random"; js "readdir"].
Proof. split; vm_compute; reflexivity. Qed.

(** ** Reading back what was stored *)

Lemma strip_tag_of_title (t : ObservationType) (summary : jsstring) :
  strip_tag (js "[" ++ type_name t ++ js "] " ++ summary) = trimStart summary.
Proof. destruct t; reflexivity. Qed.

(** X14. What [remember] stores can be read back: the title it gives
    the frame is the type in brackets followed by the summary, the label
    is the type and the text is the content, so [search] shows for such
    a frame the type, the summary without its leading white space, and
    the content.  [remember] stores the content as it is given, whatever
    its length. *)
Theorem remembered_observation_is_recovered (host : Host) (mind : Mind)
  (input : RememberInput) :
  emits (recoverable input) (remember host mind input).
Proof.
  apply emits_remember_put.
  - intros c Hc. destruct c; simpl in *; try exact I; discriminate Hc.
  - intros id timestamp. unfold recoverable. cbn [pa_title pa_label pa_text].
    intros frame Htitle Hlabel Htext. cbv zeta.
    unfold search_row. cbn [sr_observation ob_type ob_summary ob_content].
    rewrite Htitle, Hlabel, Htext. cbn [option_map].
    rewrite strip_tag_of_title. split; [reflexivity|]. split.
    + now destruct (trimStart (ri_summary input)).
    + now destruct (ri_content input).
Qed.

(** X15. When [ask] returns, it returns what the engine answered to
    the question, asked once and inside the lock, if that answer is a
    text that is not empty; when the engine gave no answer, or an empty
    one, it returns the sentence "No relevant memories found." instead.
    So [ask] never answers with the empty text. *)
Theorem ask_never_answers_empty (host : Host) (mind : Mind)
  (question : jsstring) (w : World) (answer : jsstring) (w' : World) :
  ask host mind question w = (Ok answer, w') ->
  let lp := lockPath_of mind w in
  let asked :=
    log w ++ [c_mkdir (Path.dirname lp); c_touch lp; c_lock lp;
              c_ask (memvid mind) question] in
  answer
  = match ar_answer (ask_result host asked) with
    | Some (c :: text) => c :: text
    | _ => js "No relevant memories found."
    end
  /\ answer <> []
  /\ log w' = asked ++ [c_release lp].
Proof.
  intros H lp asked. unfold ask in H.
  rewrite withLock_unfold in H. fold lp in H.
  pose proof (acquire_cases host lp w) as Hacq.
  destruct (acquire host lp w) as [[u|e] w_in]; [|discriminate H].
  destruct Hacq as (Hlog_in & _).
  unfold try_finally, bind, call_for in H.
  destruct (fault host (log w_in) (c_ask (memvid mind) question)) as [e|].
  { destruct (lockfile_release host lp _) as [[u'|e'] w2]; discriminate H. }
  unfold ret in H. unfold lockfile_release, bind, call, modify in H.
  cbn [log record set_log] in H.
  destruct (fault host (log w_in ++ [c_ask (memvid mind) question])
              (c_release lp)); [discriminate H|].
  injection H as <- <-. cbn [log record set_log set_locked].
  assert (log w_in ++ [c_ask (memvid mind) question] = asked) as ->
    by (rewrite Hlog_in; unfold asked; now rewrite <- app_assoc).
  split; [|split; [|reflexivity]].
  - now destruct (ar_answer (ask_result host asked)) as [[|c text]|].
  - destruct (ar_answer (ask_result host asked)) as [[|c text]|]; discriminate.
Qed.

Lemma ask_never_answers_empty_witness :
  exists answer w',
    ask quiet_host (mind_with_budget 2000) (js "why") (project_world [])
    = (Ok answer, w')
    /\ answer = js "No relevant memories found.".
Proof.
  destruct (ask quiet_host (mind_with_budget 2000) (js "why")
              (project_world [])) as [[answer|e] w'] eqn:E.
  - exists answer, w'. split; [reflexivity|].
    exact (proj1 (@ask_never_answers_empty quiet_host (mind_with_budget 2000)
                    (js "why") (project_world []) answer w' E)).
  - vm_compute in E. discriminate E.
Defined.

(** ** The budget and the context *)

Lemma getContext_locked_recount (host : Host) (mind : Mind) (budget : Z)
  (query : option jsstring) (w : World) :
  getContext_locked host (with_budget budget mind) query w
  = then_apply (recount budget) (getContext_locked host mind query) w.
Proof.
  unfold getContext_locked, then_apply, searchUnlocked, bind, call_for, ret.
  cbn [with_budget memvid config maxContextObservations maxContextTokens].
  destruct (fault host (log w) _); [reflexivity|].
  destruct query as [[|c q]|]; try reflexivity.
  destruct (fault host _ _); reflexivity.
Qed.

Lemma withLock_then_apply {A B} (host : Host) (mind mind' : Mind)
  (f : A -> B) (fn : M A) (fn' : M B) (w : World) :
  memoryPath (config mind') = memoryPath (config mind) ->
  (forall w1, fn' w1 = then_apply f fn w1) ->
  withLock host mind' fn' w = then_apply f (withLock host mind fn) w.
Proof.
  intros Hpath Hfn. unfold then_apply at 1.
  rewrite (@withLock_unfold _ host mind' fn' w),
    (@withLock_unfold _ host mind fn w).
  unfold lockPath_of. rewrite Hpath.
  destruct (acquire host _ w) as [[u|e] w_in]; [|reflexivity].
  unfold try_finally. rewrite Hfn. unfold then_apply.
  destruct (fn w_in) as [[a|e] w2];
    destruct (lockfile_release host _ w2) as [[u'|e'] w3]; reflexivity.
Qed.

Lemma getContext_recount (host : Host) (mind : Mind)
  (budget : Z) (query : option jsstring) (w : World) :
  getContext host (with_budget budget mind) query w
  = then_apply (recount budget) (getContext host mind query) w.
Proof.
  unfold getContext. apply withLock_then_apply; [reflexivity|].
  intros w1. apply getContext_locked_recount.
Qed.

(** X16. The token budget decides nothing but the reported count: with
    another [maxContextTokens], [getContext] makes the same calls, fails
    in the same way and returns the same observations and memories; no
    observation is left out for exceeding the budget. *)
Theorem getContext_budget_only_counts (host : Host) (mind : Mind)
  (budget : Z) (query : option jsstring) (w : World) :
  getContext host (with_budget budget mind) query w
  = then_apply (recount budget) (getContext host mind query) w.
Proof. apply getContext_recount. Qed.

Lemma count_tokens_from (budget : Z) (n : nat)
  (observations : list Observation) :
  n <= count_tokens budget n observations.
Proof.
  revert n. induction observations as [|obs rest IH]; intros n; simpl; [lia|].
  destruct (Z.ltb_spec budget
              (Z.of_nat (n + estimateTokens (context_line obs)))); [lia|].
  specialize (IH (n + estimateTokens (context_line obs))). lia.
Qed.

Lemma count_tokens_monotone (b1 b2 : Z) (n : nat)
  (observations : list Observation) :
  (b1 <= b2)%Z ->
  count_tokens b1 n observations <= count_tokens b2 n observations.
Proof.
  intros Hb. revert n.
  induction observations as [|obs rest IH]; intros n; simpl; [lia|].
  destruct (Z.ltb_spec b1 (Z.of_nat (n + estimateTokens (context_line obs))));
    destruct (Z.ltb_spec b2
                (Z.of_nat (n + estimateTokens (context_line obs))));
    try lia; [|apply IH].
  pose proof (count_tokens_from b2 (n + estimateTokens (context_line obs))
                rest). lia.
Qed.

Lemma count_tokens_all (budget : Z) (n : nat)
  (observations : list Observation) :
  (Z.of_nat (n + tokens_of observations) <= budget)%Z ->
  count_tokens budget n observations = n + tokens_of observations.
Proof.
  revert n. induction observations as [|obs rest IH]; intros n H.
  - unfold tokens_of. simpl. lia.
  - assert (tokens_of (obs :: rest)
            = estimateTokens (context_line obs) + tokens_of rest) as Hcons
      by apply tokens_of_cons.
    rewrite Hcons in H |- *. cbn [count_tokens].
    destruct (Z.ltb_spec budget
                (Z.of_nat (n + estimateTokens (context_line obs)))); [lia|].
    rewrite IH; lia.
Qed.

(** X27. Raising the token budget never lowers the count that
    [getContext] reports for the same store, and once the budget covers
    the tokens of all recent observations the count is their total. *)
Theorem tokenCount_grows_with_budget (host : Host) (mind : Mind)
  (b1 b2 : Z) (query : option jsstring) (w : World) (c1 : Context)
  (w1 : World) :
  (b1 <= b2)%Z ->
  getContext host (with_budget b1 mind) query w = (Ok c1, w1) ->
  exists c2,
    getContext host (with_budget b2 mind) query w = (Ok c2, w1)
    /\ recentObservations c2 = recentObservations c1
    /\ tokenCount c1 <= tokenCount c2
    /\ ((Z.of_nat (tokens_of (recentObservations c1)) <= b2)%Z ->
        tokenCount c2 = tokens_of (recentObservations c1)).
Proof.
  intros Hb H. rewrite getContext_recount in H |- *.
  unfold then_apply in H |- *.
  destruct (getContext host mind query w) as [[c0|e] w0]; [|discriminate H].
  injection H as <- <-.
  exists (recount b2 c0). split; [reflexivity|]. split; [reflexivity|].
  cbn [recount tokenCount recentObservations].
  split; [now apply count_tokens_monotone|].
  intros Hall. now rewrite count_tokens_all.
Qed.

Lemma tokenCount_grows_with_budget_witness :
  (5 <= 2000)%Z
  /\ exists c1 c2 w1,
       getContext quiet_host (with_budget 5 (mind_with_budget 12)) None
         (project_world []) = (Ok c1, w1)
       /\ getContext quiet_host (with_budget 2000 (mind_with_budget 12)) None
            (project_world []) = (Ok c2, w1)
       /\ tokenCount c1 <= tokenCount c2.
Proof.
  split; [lia|].
  destruct (getContext quiet_host (with_budget 5 (mind_with_budget 12)) None
              (project_world [])) as [[c1|e] w1] eqn:E.
  - destruct (@tokenCount_grows_with_budget quiet_host (mind_with_budget 12)
                5 2000 None (project_world []) c1 w1 ltac:(lia) E)
      as (c2 & H2 & _ & Hle & _).
    exists c1, c2, w1. split; [reflexivity|]. split; [exact H2|exact Hle].
  - vm_compute in E. discriminate E.
Defined.

Example getContext_small_budget_example :
  match getContext quiet_host (mind_with_budget 5) None (project_world [])
  with
  | (Ok ctx, _) => (length (recentObservations ctx), tokenCount ctx)
  | (Throw _, _) => (0, 0)
  end = (2, 0).
Proof. vm_compute. reflexivity. Qed.

(** ** One lock per operation *)

Lemma filter_none {A} (p : A -> bool) (Q : A -> Prop) (l : list A) :
  (forall c, Q c -> p c = false) -> Forall Q l -> filter p l = [].
Proof.
  intros Hp Hl. induction Hl as [|c l Hc Hl IH]; [reflexivity|].
  simpl. now rewrite (Hp c Hc).
Qed.

Lemma outside_call_no_lock (c : Call) :
  outside_call c -> is_lock c = false /\ is_release c = false.
Proof. destruct c; simpl; intros H; try contradiction; auto. Qed.

Lemma section_call_no_lock (c : Call) :
  section_call c -> is_lock c = false /\ is_release c = false.
Proof.
  destruct c; simpl; intros [H|H]; try discriminate H; auto.
Qed.

Lemma acquire_log (host : Host) (lp : jsstring) (w : World) :
  exists calls,
    log (snd (acquire host lp w)) = log w ++ calls
    /\ filter is_release calls = []
    /\ length (filter is_lock calls) <= 1
    /\ (forall u w_in, acquire host lp w = (Ok u, w_in) ->
        filter is_lock calls = [c_lock lp]).
Proof.
  unfold acquire, bind.
  destruct (mkdir_run host (Path.dirname lp) w) as (r1 & w1 & -> & Hlog1 & _).
  destruct r1 as [u1|e1].
  2:{ eexists. split; [exact Hlog1|]. simpl. repeat split; auto.
      intros u w_in H. discriminate H. }
  destruct (touch_run host lp w1) as (r2 & w2 & -> & Hlog2 & _).
  destruct r2 as [u2|e2].
  2:{ eexists. simpl. rewrite Hlog2, Hlog1, <- app_assoc.
      split; [reflexivity|]. simpl. repeat split; auto.
      intros u w_in H. discriminate H. }
  destruct (lockfile_lock_run host lp w2) as (r3 & w3 & -> & Hlog3 & _).
  eexists. simpl. rewrite Hlog3, Hlog2, Hlog1, <- !app_assoc.
  split; [reflexivity|]. simpl. repeat split; auto.
Qed.

Lemma release_log (host : Host) (lp : jsstring) (w : World) :
  log (snd (lockfile_release host lp w)) = log w ++ [c_release lp].
Proof.
  unfold lockfile_release, bind, call, modify.
  destruct (fault host (log w) (c_release lp)); reflexivity.
Qed.

Lemma locked_operation_locks_once (host : Host) (mind : Mind) {A}
  (op : M A) :
  locked_operation host mind op -> locks_once op.
Proof.
  intros (B & prelude & section & postlude & Heq & Hpre & Hsec & Hpost) w.
  assert (forall l, Forall outside_call l
                    -> filter is_lock l = [] /\ filter is_release l = [])
    as Hout.
  { intros l Hl. split; eapply filter_none; try exact Hl;
      intros c Hc; now apply outside_call_no_lock in Hc. }
  assert (forall l, Forall section_call l
                    -> filter is_lock l = [] /\ filter is_release l = [])
    as Hin.
  { intros l Hl. split; eapply filter_none; try exact Hl;
      intros c Hc; now apply section_call_no_lock in Hc. }
  rewrite Heq. unfold bind at 1.
  destruct (Hpre w) as (c0 & E0 & F0). apply Hout in F0 as [L0 R0].
  destruct (prelude w) as [[b|e] w1]; simpl in E0.
  2:{ exists c0. simpl. rewrite L0, R0. auto. }
  unfold bind at 1. rewrite withLock_unfold.
  destruct (acquire_log host (lockPath_of mind w1) w1)
    as (c1 & E1 & R1 & L1 & K1).
  destruct (acquire host (lockPath_of mind w1) w1) as [[u|e] w_in];
    simpl in E1.
  2:{ exists (c0 ++ c1). simpl. rewrite E1, E0, <- app_assoc.
      split; [reflexivity|]. rewrite !filter_app, !length_app, L0, R0, R1.
      simpl. lia. }
  specialize (K1 u w_in eq_refl).
  unfold try_finally.
  destruct (Hsec b w_in) as (c2 & E2 & F2). apply Hin in F2 as [L2 R2].
  destruct (section b w_in) as [r w2]. simpl in E2.
  pose proof (release_log host (lockPath_of mind w1) w2) as E3.
  assert (forall c3,
             length (filter is_lock
                       (c0 ++ c1 ++ c2 ++ [c_release (lockPath_of mind w1)]
                        ++ c3)) <= 1 + length (filter is_lock c3)
             /\ length (filter is_release
                          (c0 ++ c1 ++ c2 ++ [c_release (lockPath_of mind w1)]
                           ++ c3))
                <= 1 + length (filter is_release c3)
             /\ 1 <= length (filter is_lock
                               (c0 ++ c1 ++ c2
                                ++ [c_release (lockPath_of mind w1)] ++ c3)))
    as Hcount.
  { intros c3. rewrite !filter_app, !length_app, L0, R0, R1, K1, L2, R2.
    simpl. lia. }
  destruct (lockfile_release host (lockPath_of mind w1) w2) as [[u3|e3] w3];
    simpl in E3.
  - destruct r as [a|e].
    + destruct (Hpost a w3) as (c3 & E4 & F4). apply Hout in F4 as [L4 R4].
      exists (c0 ++ c1 ++ c2 ++ [c_release (lockPath_of mind w1)] ++ c3).
      split.
      { rewrite E4, E3, E2, E1, E0, <- !app_assoc. reflexivity. }
      destruct (Hcount c3) as (H1 & H2 & H3). rewrite L4, R4 in *.
      simpl in *. lia.
    + exists (c0 ++ c1 ++ c2 ++ [c_release (lockPath_of mind w1)] ++ []).
      split.
      { simpl snd. rewrite E3, E2, E1, E0, <- !app_assoc. reflexivity. }
      destruct (Hcount []) as (H1 & H2 & H3). simpl in *. lia.
  - exists (c0 ++ c1 ++ c2 ++ [c_release (lockPath_of mind w1)] ++ []).
    split.
    { simpl snd. rewrite E3, E2, E1, E0, <- !app_assoc. reflexivity. }
    destruct (Hcount []) as (H1 & H2 & H3). simpl in *. lia.
Qed.

(** X17. None of the six store operations asks for a lock twice, and
    none releases a lock it did not ask for: [getContext] with a query
    searches inside the lock it already holds instead of calling
    [search], which would ask for the same lock again. *)
Theorem store_operations_lock_once (host : Host) (mind : Mind) :
  (forall input, locks_once (remember host mind input))
  /\ (forall query limit, locks_once (search host mind query limit))
  /\ (forall question, locks_once (ask host mind question))
  /\ (forall query, locks_once (getContext host mind query))
  /\ (forall summary, locks_once (saveSessionSummary host mind summary))
  /\ locks_once (stats host mind).
Proof.
  repeat split; intros;
    apply (@locked_operation_locks_once host mind).
  - apply remember_locked_operation.
  - apply plain_locked_operation, emits_searchUnlocked.
  - apply plain_locked_operation.
    apply emits_bind; [now apply emits_section_call_for|intros r].
    apply emits_ret.
  - apply plain_locked_operation, emits_getContext_locked.
  - apply saveSessionSummary_locked_operation.
  - apply plain_locked_operation.
    apply emits_bind; [now apply emits_section_call_for|intros st].
    apply emits_bind; [now apply emits_section_call_for|intros t1].
    apply emits_bind; [now apply emits_section_call_for|intros t2].
    apply emits_ret.
Qed.

Example getContext_with_query_example :
  map call_kind
    (log (snd (getContext quiet_host (mind_with_budget 2000)
                 (Some (js "lock")) (project_world []))))
  = [js "mkdir"; js "touch"; js "lock"; js "timeline"; js "find";
     js "release"].
Proof. vm_compute. reflexivity. Qed.

(** ** What pruning deletes *)

Lemma prune_loop_unlinks (host : Host) (olds : list Backup) :
  forall w, exists w' calls,
    prune_loop host olds w = (Ok tt, w')
    /\ log w' = log w ++ calls
    /\ unlinked calls = map b_path olds.
Proof.
  induction olds as [|b rest IH]; intros w.
  - exists w, []. simpl. rewrite app_nil_r. auto.
  - cbn [prune_loop]. unfold bind at 1. unfold try_catch. unfold bind at 1.
    destruct (unlinkSync_run host (b_path b) w) as (r & w1 & -> & Hlog & _).
    destruct r as [u|e].
    + unfold console_error.
      destruct (IH (record (c_console (LogPruned (b_name b))) w1))
        as (w' & calls & -> & Hlog' & Hun).
      exists w', (c_unlink (b_path b)
                  :: c_console (LogPruned (b_name b)) :: calls).
      split; [reflexivity|]. split.
      * rewrite Hlog'. cbn [log record set_log].
        rewrite Hlog, <- !app_assoc. reflexivity.
      * simpl. now rewrite Hun.
    + unfold ret. destruct (IH w1) as (w' & calls & -> & Hlog' & Hun).
      exists w', (c_unlink (b_path b) :: calls).
      split; [reflexivity|]. split.
      * rewrite Hlog', Hlog, <- app_assoc. reflexivity.
      * simpl. now rewrite Hun.
Qed.

Lemma pruneBackups_unlinks (host : Host) (memoryPath : jsstring)
  (keepCount : nat) (w : World) :
  exists w' calls,
    pruneBackups host memoryPath keepCount w = (Ok tt, w')
    /\ log w' = log w ++ calls
    /\ unlinked calls
       = match new_RegExp host
                 (backupPattern_source
                    (or_str (pop (split SLASH memoryPath)) (js "mind.mv2"))) w,
               fault host (log w) (c_readdir (Path.dirname memoryPath))
         with
         | (Ok _, _), None =>
             map b_path (skipn keepCount (backups_found host w memoryPath))
         | _, _ => []
         end.
Proof.
  unfold pruneBackups, try_catch. cbv zeta. unfold bind at 1.
  assert (forall src,
             new_RegExp host src w = (Ok src, w)
             \/ exists e, new_RegExp host src w = (Throw e, w)) as Hre.
  { intros src. unfold new_RegExp.
    destruct (RegExpLite.compile src); [now left|].
    destruct (regexp_error host src) as [e|]; [right; now exists e|now left]. }
  destruct (Hre (backupPattern_source
                   (or_str (pop (split SLASH memoryPath)) (js "mind.mv2"))))
    as [->|(e & ->)].
  2:{ exists w, []. rewrite app_nil_r. auto. }
  unfold bind at 1. unfold readdirSync. unfold bind at 1. unfold call.
  destruct (fault host (log w) (c_readdir (Path.dirname memoryPath)))
    as [e|].
  { eexists. exists [c_readdir (Path.dirname memoryPath)].
    split; [reflexivity|]. split; reflexivity. }
  unfold get at 1. unfold bind at 1. unfold get at 1.
  match goal with
  | |- context [prune_loop host ?olds ?w0] =>
      destruct (prune_loop_unlinks host olds w0) as (w' & calls & -> & Hlog & Hun)
  end.
  exists w', (c_readdir (Path.dirname memoryPath) :: calls).
  split; [reflexivity|]. split.
  - rewrite Hlog. cbn [log record set_log]. rewrite <- app_assoc. reflexivity.
  - simpl. rewrite Hun. reflexivity.
Qed.

Example pruneBackups_example :
  unlinked
    (log (snd (pruneBackups quiet_host (js "/proj/.claude/mind.mv2") 3
                 five_backups_world)))
  = [js "/proj/.claude/mind.mv2.backup-1700000000002";
     js "/proj/.claude/mind.mv2.backup-1700000000001"].
Proof. vm_compute. reflexivity. Qed.

(** ** What is left alone *)

Section Keeps.

Variable host : Host.
Variable B : Type.
Variable f : World -> B.

Lemma keeps_ret {A} (a : A) : keeps f (ret a).
Proof. intros w. reflexivity. Qed.

Lemma keeps_throw {A} (e : Thrown) : keeps f (@throw A e).
Proof. intros w. reflexivity. Qed.

Lemma keeps_get {A} (g : World -> A) : keeps f (get g).
Proof. intros w. reflexivity. Qed.

Lemma keeps_modify (g : World -> World) :
  (forall w, f (g w) = f w) -> keeps f (modify g).
Proof. intros Hg w. apply Hg. Qed.

Lemma keeps_bind {A C} (m : M A) (k : A -> M C) :
  keeps f m -> (forall a, keeps f (k a)) -> keeps f (bind m k).
Proof.
  intros Hm Hk w. unfold bind. specialize (Hm w).
  destruct (m w) as [[a|e] w1]; simpl in Hm; [|exact Hm].
  now rewrite Hk.
Qed.

Lemma keeps_try_catch {A} (m : M A) (h : Thrown -> M A) :
  keeps f m -> (forall e, keeps f (h e)) -> keeps f (try_catch m h).
Proof.
  intros Hm Hh w. unfold try_catch. specialize (Hm w).
  destruct (m w) as [[a|e] w1]; simpl in Hm; [exact Hm|].
  now rewrite Hh.
Qed.

Lemma keeps_try_finally {A} (m : M A) (g : M unit) :
  keeps f m -> keeps f g -> keeps f (try_finally m g).
Proof.
  intros Hm Hg w. unfold try_finally. specialize (Hm w).
  destruct (m w) as [r w1]; simpl in Hm. specialize (Hg w1).
  destruct (g w1) as [[u|e] w2]; simpl in Hg |- *; congruence.
Qed.

(** From here on [f] does not look at the log, the files or the locks. *)
Hypothesis f_log : forall l w, f (set_log l w) = f w.
Hypothesis f_files : forall fs w, f (set_files fs w) = f w.
Hypothesis f_locked : forall l w, f (set_locked l w) = f w.

Lemma keeps_call (c : Call) : keeps f (call host c).
Proof.
  intros w. unfold call.
  destruct (fault host (log w) c); simpl; apply f_log.
Qed.

Lemma keeps_call_for {A} (c : Call) (answer : list Call -> A) :
  keeps f (call_for host c answer).
Proof.
  intros w. unfold call_for.
  destruct (fault host (log w) c); simpl; apply f_log.
Qed.

Lemma keeps_Date_now : keeps f (Date_now host).
Proof. intros w. simpl. apply f_log. Qed.

Lemma keeps_console (l : LogLine) : keeps f (console_error l).
Proof. intros w. simpl. apply f_log. Qed.

Lemma keeps_generateId : keeps f (generateId host).
Proof. intros w. simpl. apply f_log. Qed.

Ltac keeps_step :=
  first
    [ apply keeps_ret | apply keeps_throw | apply keeps_get
    | apply keeps_Date_now | apply keeps_console | apply keeps_generateId
    | apply keeps_call | apply keeps_call_for
    | apply keeps_modify; intros;
      first [apply f_files | apply f_locked | apply f_log]
    | apply keeps_bind; [|intros]
    | apply keeps_try_catch; [|intros]
    | apply keeps_try_finally
    | match goal with
      | |- keeps _ (match ?x with _ => _ end) => destruct x
      | |- keeps _ (if ?x then _ else _) => destruct x
      end ].

Ltac keeps_auto := repeat keeps_step.

Lemma keeps_touch p : keeps f (touch host p).
Proof.
  unfold touch. apply keeps_bind; [apply keeps_call|intros _].
  apply keeps_modify. intros w.
  destruct (lookup_file _ _); [reflexivity|apply f_files].
Qed.

Lemma keeps_withMemvidLock {A} lockPath (fn : M A) :
  keeps f fn -> keeps f (withMemvidLock host lockPath fn).
Proof.
  intros Hfn. unfold withMemvidLock, mkdir_recursive.
  apply keeps_bind; [apply keeps_call|intros _].
  apply keeps_bind; [apply keeps_touch|intros _].
  apply keeps_bind; [unfold lockfile_lock; keeps_auto|intros _].
  apply keeps_try_finally; [exact Hfn|].
  unfold lockfile_release. keeps_auto.
Qed.

Lemma keeps_prune_loop olds : keeps f (prune_loop host olds).
Proof.
  induction olds as [|b rest IH]; simpl; [apply keeps_ret|].
  apply keeps_bind; [|intros _; exact IH].
  unfold unlinkSync. keeps_auto.
Qed.

Lemma keeps_pruneBackups memoryPath keepCount :
  keeps f (pruneBackups host memoryPath keepCount).
Proof.
  unfold pruneBackups.
  apply keeps_try_catch; [|intros; apply keeps_ret].
  apply keeps_bind; [unfold new_RegExp; keeps_auto|intros src].
  apply keeps_bind; [unfold readdirSync; keeps_auto|intros names].
  apply keeps_bind; [apply keeps_get|intros here].
  apply keeps_prune_loop.
Qed.

Lemma keeps_open_locked memoryPath : keeps f (open_locked host memoryPath).
Proof.
  unfold open_locked, existsSync, statSync_size, sdk_create, sdk_use,
    renameSync, unlinkSync.
  keeps_auto.
Qed.

(** ... nor at whether the engine is loaded. *)
Hypothesis f_sdk : forall b w, f (set_sdkLoaded b w) = f w.

Lemma keeps_Mind_open overrides : keeps f (Mind_open host overrides).
Proof.
  unfold Mind_open, loadSDK, mkdir_recursive.
  apply keeps_bind.
  { apply keeps_bind; [apply keeps_get|intros [|]]; [apply keeps_ret|].
    apply keeps_bind; [apply keeps_call|intros _].
    apply keeps_modify. intros w. apply f_sdk. }
  intros _. apply keeps_bind; [apply keeps_get|intros here].
  apply keeps_bind; [apply keeps_get|intros env].
  apply keeps_bind; [apply keeps_call|intros _].
  apply keeps_bind;
    [apply keeps_withMemvidLock, keeps_open_locked|intros handle].
  apply keeps_bind; [apply keeps_generateId|intros id].
  apply keeps_bind; [apply keeps_pruneBackups|intros _].
  apply keeps_bind; [|intros _; apply keeps_ret].
  destruct (debug _); [apply keeps_console|apply keeps_ret].
Qed.

End Keeps.

(** X19. A failed [getMind] is not remembered: when no instance exists
    and opening fails, the error is the one [Mind.open] threw, nothing
    but what [Mind.open] did has happened, and there is still no
    instance, so the next call opens again. *)
Theorem getMind_failure_not_cached (host : Host)
  (overrides : ConfigOverrides) (w : World) (e : Thrown) (w' : World) :
  mindInstance w = None ->
  getMind host overrides w = (Throw e, w') ->
  Mind_open host overrides w = (Throw e, w')
  /\ mindInstance w' = None
  /\ forall later, getMind host later w' = (mind <- Mind_open host later ;;
                                           modify (set_mindInstance (Some mind)) ;;
                                           ret mind) w'.
Proof.
  intros Hnone Hrun.
  assert (Mind_open host overrides w = (Throw e, w')) as Hopen.
  { unfold getMind, bind, get in Hrun. rewrite Hnone in Hrun.
    destruct (Mind_open host overrides w) as [[mind|e0] w1];
      [discriminate Hrun|exact Hrun]. }
  assert (mindInstance w' = None) as Hstill.
  { pose proof (@keeps_Mind_open host _ mindInstance
                  (fun _ _ => eq_refl) (fun _ _ => eq_refl)
                  (fun _ _ => eq_refl) (fun _ _ => eq_refl) overrides w) as H.
    rewrite Hopen in H. simpl in H. congruence. }
  split; [exact Hopen|]. split; [exact Hstill|].
  intros later. unfold getMind at 1. unfold bind at 1. unfold get.
  now rewrite Hstill.
Qed.

Lemma getMind_failure_not_cached_witness :
  mindInstance garbage_world = None
  /\ exists e w',
       getMind (rejecting_host (js "EBUSY: resource busy")) no_overrides
         garbage_world = (Throw e, w')
       /\ mindInstance w' = None.
Proof.
  split; [reflexivity|].
  destruct (getMind (rejecting_host (js "EBUSY: resource busy")) no_overrides
              garbage_world) as [[mind|e] w'] eqn:E.
  - vm_compute in E. discriminate E.
  - exists e, w'. split; [reflexivity|].
    exact (proj1 (proj2 (@getMind_failure_not_cached
                           (rejecting_host (js "EBUSY: resource busy"))
                           no_overrides garbage_world e w' eq_refl E))).
Defined.

(** ** Opening a memory file that is in good order *)

Lemma open_locked_healthy (host : Host) (mp : jsstring) (w : World)
  (size : Z) :
  cooperative host ->
  lookup_file (key w mp) (files w) = Some size ->
  too_large size = false ->
  fault host (log w ++ [c_stat mp]) (c_use mp) = None ->
  open_locked host mp w
  = (Ok (reopened mp), record (c_use mp) (record (c_stat mp) w)).
Proof.
  intros Hcoop Hfile Hsmall Huse. unfold open_locked.
  unfold bind at 1. unfold existsSync, get. rewrite Hfile. cbn [negb].
  unfold bind at 1.
  rewrite (@statSync_size_run host mp w size (Hcoop (log w) (c_stat mp)) Hfile).
  rewrite Hsmall. unfold try_catch, sdk_use, bind.
  rewrite call_quiet by exact Huse. reflexivity.
Qed.

(** X20. Let the memory file exist with at most 100 MB, the lock be
    free, and the steps around the engine succeed.  If the engine opens
    the file, [Mind.open] returns an instance on the handle the engine
    gave for it: between taking and releasing the lock it only inspects
    and opens the file, and nothing is renamed, deleted or created
    there. *)
Theorem open_uses_healthy_store (host : Host) (overrides : ConfigOverrides)
  (w : World) (size : Z) :
  let mp := open_memoryPath overrides w in
  let lp := mp ++ js ".lock" in
  let entered := log w ++ calls_to_enter overrides w in
  cooperative host ->
  ~ In (key w lp) (locked w) ->
  lookup_file (key w mp) (files w) = Some size ->
  too_large size = false ->
  fault host (entered ++ [c_stat mp]) (c_use mp) = None ->
  exists mind w' rest,
    Mind_open host overrides w = (Ok mind, w')
    /\ memvid mind = reopened mp
    /\ config mind = merge_config DEFAULT_CONFIG overrides
    /\ Forall housekeeping_call rest
    /\ log w'
       = entered ++ [c_stat mp; c_use mp; c_release lp; c_random] ++ rest.
Proof.
  intros mp lp entered Hcoop Hfree Hfile Hsmall Huse.
  destruct (@Mind_open_run host overrides w Hcoop Hfree)
    as (w_in & Hlog_in & Hcwd_in & Hfiles_in & Hrun).
  fold mp in Hrun. fold lp in Hrun. fold entered in Hlog_in.
  assert (lookup_file (key w_in mp) (files w_in) = Some size) as Hfile_in.
  { unfold key. rewrite Hcwd_in. apply Hfiles_in. exact Hfile. }
  rewrite <- Hlog_in in Huse.
  pose proof (@open_locked_healthy host mp w_in size Hcoop Hfile_in Hsmall Huse)
    as Hopen.
  destruct (Hrun _ _ Hopen) as (mind & w' & rest & Hm & Hh & Hc & Hrest & Hlog).
  exists mind, w', rest. split; [exact Hm|]. split; [exact Hh|].
  split; [exact Hc|]. split; [exact Hrest|].
  rewrite Hlog. cbn [log record set_log]. rewrite Hlog_in, <- !app_assoc.
  reflexivity.
Qed.

Lemma open_uses_healthy_store_witness :
  cooperative quiet_host
  /\ ~ In (key healthy_world
             (open_memoryPath no_overrides healthy_world ++ js ".lock"))
          (locked healthy_world)
  /\ lookup_file (key healthy_world (open_memoryPath no_overrides healthy_world))
       (files healthy_world) = Some 2048%Z
  /\ too_large 2048 = false
  /\ exists mind w',
       Mind_open quiet_host no_overrides healthy_world = (Ok mind, w')
       /\ memvid mind = reopened (js "/proj/.claude/mind.mv2").
Proof.
  split; [exact quiet_host_cooperative|].
  split; [simpl; tauto|].
  split; [vm_compute; reflexivity|].
  split; [reflexivity|].
  destruct (@open_uses_healthy_store quiet_host no_overrides healthy_world
              2048%Z quiet_host_cooperative (fun H : In _ [] => H) eq_refl
              eq_refl eq_refl)
    as (mind & w' & rest & Hopen & Hhandle & _).
  exists mind, w'. split; [exact Hopen|exact Hhandle].
Defined.

(** ** The lock file is another file than the memory file *)

Lemma split_snoc_sep (sep : N) (s : jsstring) :
  split sep (s ++ [sep]) = split sep s ++ [[]].
Proof.
  induction s as [|c s IH]; simpl.
  - now rewrite N.eqb_refl.
  - destruct (N.eqb c sep); [now rewrite IH|].
    rewrite IH. pose proof (split_nonempty sep s) as Hne.
    destruct (split sep s) as [|l ls]; [contradiction|reflexivity].
Qed.

Lemma split_app_tail (sep : N) (s t : jsstring) :
  ~ In sep t ->
  split sep (s ++ t)
  = removelast (split sep s) ++ [last (split sep s) [] ++ t].
Proof.
  intros Ht. induction s as [|c s IH]; cbn [app].
  - simpl. now apply split_no_sep.
  - pose proof (split_nonempty sep s) as Hne.
    cbn [split]. rewrite IH.
    destruct (N.eqb c sep).
    + destruct (split sep s) as [|l ls]; [contradiction|reflexivity].
    + destruct (split sep s) as [|l ls]; [contradiction|].
      destruct ls as [|l' ls]; reflexivity.
Qed.

Lemma in_removelast {A} (l : list A) (x : A) :
  In x (removelast l) -> In x l.
Proof.
  induction l as [|y l IH]; [intros []|].
  destruct l as [|z l]; [intros []|].
  intros [->|H]; [now left|right; now apply IH].
Qed.

Lemma suffix_segment (s suffix x : jsstring) :
  length x < length suffix -> s ++ suffix <> x.
Proof.
  intros Hx H. apply (f_equal (@length N)) in H.
  rewrite length_app in H. lia.
Qed.

Lemma norm_step_suffix (allow : bool) (acc : list jsstring)
  (s suffix : jsstring) :
  3 <= length suffix ->
  Path.norm_step allow acc (s ++ suffix) = acc ++ [s ++ suffix].
Proof.
  intros Hlen. unfold Path.norm_step.
  assert (str_eqb (s ++ suffix) [] = false) as ->
    by (apply str_eqb_neq, suffix_segment; simpl; lia).
  assert (str_eqb (s ++ suffix) Path.dot = false) as ->
    by (apply str_eqb_neq, suffix_segment; simpl; lia).
  assert (str_eqb (s ++ suffix) Path.dotdot = false) as ->
    by (apply str_eqb_neq, suffix_segment; simpl; lia).
  reflexivity.
Qed.

Lemma norm_step_no_slash (allow : bool) (acc : list jsstring)
  (seg : jsstring) :
  Forall (fun p => ~ In SLASH p) acc -> ~ In SLASH seg ->
  Forall (fun p => ~ In SLASH p) (Path.norm_step allow acc seg).
Proof.
  intros Hacc Hseg.
  assert (~ In SLASH Path.dotdot) as Hdd
    by (vm_compute; intuition discriminate).
  unfold Path.norm_step.
  destruct (str_eqb seg [] || str_eqb seg Path.dot); [exact Hacc|].
  destruct (str_eqb seg Path.dotdot).
  - destruct acc as [|a acc].
    + destruct allow; repeat constructor. exact Hdd.
    + destruct (str_eqb (last (a :: acc) []) Path.dotdot).
      * destruct allow; [|exact Hacc].
        apply Forall_app. split; [exact Hacc|repeat constructor; exact Hdd].
      * rewrite Forall_forall in Hacc |- *.
        intros x Hx. apply Hacc. now apply in_removelast.
  - apply Forall_app. split; [exact Hacc|repeat constructor; exact Hseg].
Qed.

Lemma fold_norm_no_slash (allow : bool) (segs acc : list jsstring) :
  Forall (fun p => ~ In SLASH p) acc ->
  Forall (fun p => ~ In SLASH p) segs ->
  Forall (fun p => ~ In SLASH p)
    (fold_left (Path.norm_step allow) segs acc).
Proof.
  revert acc. induction segs as [|seg segs IH]; intros acc Hacc Hsegs.
  - exact Hacc.
  - inversion Hsegs as [|? ? Hseg Hrest]; subst. simpl.
    apply IH; [now apply norm_step_no_slash|exact Hrest].
Qed.

(** [resolve] of one non-empty path: what is normalized is the path,
    behind the working directory when it is relative, and a closing
    separator. *)
Lemma resolve_single (cwd : jsstring) (c : N) :
  exists front resolvedAbsolute,
    forall q,
      Path.resolve cwd [c :: q]
      = rooted resolvedAbsolute
          (Path.normalizeString (front ++ (c :: q) ++ [SLASH])
             (negb resolvedAbsolute)).
Proof.
  unfold Path.resolve. cbn [rev app Path.resolve_loop Path.isAbsolute].
  destruct (N.eqb c SLASH).
  - exists [], true. intros q. reflexivity.
  - destruct cwd as [|d cw].
    + exists [], false. intros q. reflexivity.
    + cbn [Path.resolve_loop Path.isAbsolute]. destruct (N.eqb d SLASH).
      * exists ((d :: cw) ++ [SLASH]), true. intros q.
        rewrite <- !app_assoc. reflexivity.
      * exists ((d :: cw) ++ [SLASH]), false. intros q.
        rewrite <- !app_assoc. reflexivity.
Qed.

(** Whatever the working directory, a path and the same path with a
    suffix of three or more units and no separator never resolve to the
    same file. *)
Lemma suffixed_path_is_another_file (cwd p suffix : jsstring) :
  p <> [] -> ~ In SLASH suffix -> 3 <= length suffix ->
  Path.resolve cwd [p ++ suffix] <> Path.resolve cwd [p].
Proof.
  destruct p as [|c q]; [contradiction|]. intros _ Hsuffix Hlen.
  destruct (resolve_single cwd c) as (front & absolute & Hres).
  change ((c :: q) ++ suffix) with (c :: q ++ suffix).
  unfold jsstring in *.
  rewrite (Hres q), (Hres (q ++ suffix)).
  unfold Path.normalizeString.
  set (path := front ++ c :: q).
  assert (front ++ (c :: q) ++ [SLASH] = path ++ [SLASH]) as ->
    by (unfold path; now rewrite <- app_assoc).
  assert (front ++ (c :: q ++ suffix) ++ [SLASH]
          = (path ++ suffix) ++ [SLASH]) as ->
    by (unfold path; rewrite <- !app_assoc; cbn [app];
        rewrite <- ?app_assoc; reflexivity).
  rewrite !split_snoc_sep.
  rewrite split_app_tail by exact Hsuffix.
  pose proof (split_nonempty SLASH path) as Hne.
  pose proof (split_parts SLASH path) as Hparts.
  rewrite (app_removelast_last [] Hne) in Hparts.
  rewrite (app_removelast_last [] Hne) at 3.
  set (init := removelast (split SLASH path)) in *.
  set (s := last (split SLASH path) []) in *.
  apply Forall_app in Hparts as [Hinit Hs].
  inversion Hs as [|? ? Hs' _]; subst.
  rewrite <- !app_assoc, !fold_left_app. cbn [fold_left app].
  set (acc := fold_left (Path.norm_step (negb absolute)) init []).
  assert (Forall (fun p => ~ In SLASH p) acc) as Hacc
    by (apply fold_norm_no_slash; [constructor|exact Hinit]).
  rewrite norm_step_suffix by exact Hlen.
  assert (forall l, Path.norm_step (negb absolute) l [] = l) as Hempty
    by reflexivity.
  rewrite !Hempty.
  set (t := s ++ suffix).
  assert (~ In SLASH t) as Ht.
  { unfold t. intros Hin. apply in_app_or in Hin as [Hin|Hin];
      [now apply Hs'|now apply Hsuffix]. }
  assert (Forall (fun p => ~ In SLASH p) (acc ++ [t])) as Hlock
    by (apply Forall_app; split; [exact Hacc|repeat constructor; exact Ht]).
  assert (Forall (fun p => ~ In SLASH p)
            (Path.norm_step (negb absolute) acc s)) as Hplain
    by (now apply norm_step_no_slash).
  assert (length t = length s + length suffix) as Hlt
    by (unfold t; now rewrite length_app).
  assert (3 <= length (join [SLASH] (acc ++ [t]))) as Hlong.
  { assert (length t <= length (join [SLASH] (acc ++ [t]))) as H
      by (apply join_part_length, in_or_app; right; now left).
    lia. }
  assert (join [SLASH] (acc ++ [t])
          <> join [SLASH] (Path.norm_step (negb absolute) acc s)) as Hjoin.
  { intros Heq.
    assert (acc ++ [t] = Path.norm_step (negb absolute) acc s) as Hlists.
    { destruct (Path.norm_step (negb absolute) acc s) as [|n ns] eqn:En.
      - simpl in Heq. rewrite Heq in Hlong. simpl in Hlong. lia.
      - rewrite <- (@split_join SLASH (acc ++ [t]));
          [|now destruct acc|exact Hlock].
        rewrite Heq. apply split_join; [discriminate|exact Hplain]. }
    clear - Hlists Hlt Hlen. unfold Path.norm_step in Hlists.
    assert (forall x, length x <= 2 -> acc ++ [t] <> acc ++ [x]) as Hlast.
    { intros x Hx H. apply app_inv_head in H. injection H as H.
      apply (f_equal (@length N)) in H. lia. }
    assert (acc ++ [t] <> acc ++ [s]) as Hsame.
    { intros H. apply app_inv_head in H. injection H as H.
      apply (f_equal (@length N)) in H. lia. }
    assert (acc ++ [t] <> acc) as Hshort.
    { intros H. apply (f_equal (@length jsstring)) in H.
      rewrite length_app in H. simpl in H. lia. }
    assert (acc ++ [t] <> removelast acc) as Hshorter.
    { intros H. apply (f_equal (@length jsstring)) in H.
      rewrite length_app in H. simpl in H.
      assert (length (removelast acc) <= length acc); [|lia].
      clear. induction acc as [|a acc IH]; [simpl; lia|].
      destruct acc; simpl in *; lia. }
    destruct (str_eqb s [] || str_eqb s Path.dot); [now apply Hshort|].
    destruct (str_eqb s Path.dotdot); [|now apply Hsame].
    destruct acc as [|a acc'].
    - destruct (negb absolute).
      + apply (Hlast Path.dotdot); [simpl; lia|exact Hlists].
      + discriminate Hlists.
    - destruct (str_eqb (last (a :: acc') []) Path.dotdot).
      + destruct (negb absolute); [|now apply Hshort].
        apply (Hlast Path.dotdot); [simpl; lia|exact Hlists].
      + now apply Hshorter. }
  change (rooted absolute (join [SLASH] (acc ++ [t]))
          <> rooted absolute
               (join [SLASH] (Path.norm_step (negb absolute) acc s))).
  revert Hlong Hjoin.
  generalize (join [SLASH] (acc ++ [t])) as suffixed_name.
  generalize (join [SLASH] (Path.norm_step (negb absolute) acc s))
    as plain_name.
  intros plain_name suffixed_name Hlong Hjoin. unfold rooted.
  destruct absolute.
  - intros H. injection H as H. now apply Hjoin.
  - destruct suffixed_name as [|j js]; [simpl in Hlong; lia|].
    destruct plain_name as [|k ks].
    + intros H. rewrite H in Hlong. vm_compute in Hlong. lia.
    + exact Hjoin.
Qed.

(** Whatever the working directory, a path and the same path with
    [.lock] appended never resolve to the same file. *)
Lemma lock_path_is_another_file (cwd p : jsstring) :
  p <> [] -> Path.resolve cwd [p ++ js ".lock"] <> Path.resolve cwd [p].
Proof.
  intros Hp. apply suffixed_path_is_another_file; [exact Hp| |simpl; lia].
  vm_compute. intuition discriminate.
Qed.

Lemma numZ_no_slash (z : Z) : ~ In SLASH (numZ z).
Proof.
  assert (forall d, ~ In SLASH (uint_units d)) as Hd.
  { intros d H. pose proof (uint_units_digits d) as Hall.
    rewrite Forall_forall in Hall. apply Hall in H. discriminate H. }
  destruct z as [|p|p]; cbn [numZ].
  - vm_compute. intuition discriminate.
  - apply Hd.
  - intros [H|H]; [discriminate H|now apply Hd in H].
Qed.

(** Nor do a path and a backup of it. *)
Lemma backup_path_is_another_file (cwd p : jsstring) (t : Z) :
  p <> [] ->
  Path.resolve cwd [p ++ js ".backup-" ++ numZ t] <> Path.resolve cwd [p].
Proof.
  intros Hp. apply suffixed_path_is_another_file; [exact Hp| |].
  - intros H. apply in_app_or in H as [H|H];
      [vm_compute in H; intuition discriminate|now apply numZ_no_slash in H].
  - rewrite length_app. change (length (js ".backup-")) with 8. lia.
Qed.

Lemma resolve_nonempty (cwd : jsstring) (paths : list jsstring) :
  Path.resolve cwd paths <> [].
Proof.
  unfold Path.resolve.
  destruct (Path.resolve_loop (rev paths ++ [cwd]) [])
    as [resolvedPath resolvedAbsolute].
  destruct resolvedAbsolute; [discriminate|].
  destruct (Path.normalizeString resolvedPath (negb false)); discriminate.
Qed.

Lemma lookup_file_absent_app (k k' : jsstring) (z : Z)
  (fs : list (jsstring * Z)) :
  lookup_file k fs = None -> k <> k' ->
  lookup_file k (fs ++ [(k', z)]) = None.
Proof.
  intros Hnone Hk. induction fs as [|[k0 z0] fs IH]; simpl in *.
  - assert (str_eqb k' k = false) as -> by (apply str_eqb_neq; congruence).
    reflexivity.
  - destruct (str_eqb k0 k); [discriminate Hnone|now apply IH].
Qed.

(** ** Opening where no memory file exists *)

Lemma acquire_run_absent (host : Host) (lp : jsstring) (w : World)
  (k : jsstring) :
  cooperative host ->
  ~ In (key w lp) (locked w) ->
  lookup_file k (files w) = None ->
  k <> key w lp ->
  exists w_in,
    acquire host lp w = (Ok tt, w_in)
    /\ cwd w_in = cwd w
    /\ log w_in
       = log w ++ [c_mkdir (Path.dirname lp); c_touch lp; c_lock lp]
    /\ lookup_file k (files w_in) = None.
Proof.
  intros Hcoop Hfree Hnone Hk. unfold acquire, mkdir_recursive, bind.
  rewrite call_quiet by exact (Hcoop _ (c_mkdir _)).
  unfold touch, bind.
  rewrite call_quiet by exact (Hcoop _ (c_touch _)).
  unfold modify.
  match goal with
  | |- context [lockfile_lock host lp ?w0] => set (w2 := w0)
  end.
  assert (cwd w2 = cwd w /\ locked w2 = locked w
          /\ log w2 = log w ++ [c_mkdir (Path.dirname lp); c_touch lp]
          /\ lookup_file k (files w2) = None)
    as (Hcwd & Hlocked & Hlog & Hfiles).
  { subst w2.
    match goal with
    | |- context [match lookup_file ?a ?b with Some _ => _ | None => _ end] =>
        destruct (lookup_file a b)
    end; cbn [cwd locked log files record set_log set_files];
      rewrite <- ?app_assoc; repeat split; auto.
    now apply lookup_file_absent_app. }
  clearbody w2.
  unfold lockfile_lock, bind.
  rewrite call_quiet by exact (Hcoop _ (c_lock _)).
  unfold get.
  change (key (record (c_lock lp) w2) lp) with (key w2 lp).
  change (locked (record (c_lock lp) w2)) with (locked w2).
  assert (key w2 lp = key w lp) as Hkey by (unfold key; now rewrite Hcwd).
  rewrite Hkey, Hlocked.
  destruct (existsb (str_eqb (key w lp)) (locked w)) eqn:Eheld.
  { exfalso. apply Hfree. apply existsb_exists in Eheld as (x & Hin & Hx).
    apply str_eqb_eq in Hx. now subst x. }
  unfold modify. eexists. split; [reflexivity|].
  cbn [cwd log files record set_log set_locked].
  rewrite Hlog, <- app_assoc. auto.
Qed.

Lemma Mind_open_enter (host : Host) (overrides : ConfigOverrides)
  (w : World) :
  let mp := open_memoryPath overrides w in
  let lp := mp ++ js ".lock" in
  cooperative host ->
  exists w2,
    cwd w2 = cwd w /\ locked w2 = locked w /\ files w2 = files w
    /\ log w2
       = log w ++ (if sdkLoaded w then [] else [c_import_sdk])
         ++ [c_mkdir (Path.dirname mp)]
    /\ forall w_in r w_out,
         acquire host lp w2 = (Ok tt, w_in) ->
         open_locked host mp w_in = (r, w_out) ->
         match r with
         | Throw e =>
             exists w',
               Mind_open host overrides w = (Throw e, w')
               /\ log w' = log w_out ++ [c_release lp]
         | Ok handle =>
             exists mind w' rest,
               Mind_open host overrides w = (Ok mind, w')
               /\ memvid mind = handle
               /\ config mind = merge_config DEFAULT_CONFIG overrides
               /\ Forall housekeeping_call rest
               /\ log w' = log w_out ++ [c_release lp; c_random] ++ rest
         end.
Proof.
  intros mp lp Hcoop.
  destruct (@loadSDK_run host w Hcoop)
    as (w1 & Hload & (Hcwd1 & Henv1 & Hlocked1) & Hfiles1 & Hlog1).
  set (w2 := record (c_mkdir (Path.dirname mp)) w1).
  exists w2. split; [exact Hcwd1|]. split; [exact Hlocked1|].
  split; [exact Hfiles1|]. split.
  { cbn [log w2 record set_log]. rewrite Hlog1, <- app_assoc. reflexivity. }
  intros w_in r w_out Hacq Hopen.
  destruct (@release_run host lp w_out Hcoop) as (w5 & Hrel & Hlog5).
  assert (withMemvidLock host lp (open_locked host mp) w2 = (r, w5)) as Hlocked.
  { rewrite withMemvidLock_unfold, Hacq. unfold try_finally.
    now rewrite Hopen, Hrel. }
  destruct r as [handle|e];
    unfold Mind_open;
    unfold bind at 1; rewrite Hload;
    unfold bind at 1; unfold get at 1;
    unfold bind at 1; unfold get at 1;
    rewrite Hcwd1, Henv1; fold (open_memoryPath overrides w); fold mp;
    unfold bind at 1; unfold mkdir_recursive at 1;
    rewrite call_quiet by exact (Hcoop _ (c_mkdir _));
    fold w2; fold lp; unfold bind at 1; rewrite Hlocked.
  + unfold bind at 1. unfold generateId at 1.
    unfold bind at 1.
    match goal with
    | |- context [pruneBackups host mp 3 ?w0] =>
        destruct (pruneBackups_run host mp 3 w0)
          as (w7 & calls & -> & Hlog7 & Hcalls)
    end.
    unfold bind at 1.
    destruct (debug (merge_config DEFAULT_CONFIG overrides)).
    * unfold console_error at 1. unfold ret.
      do 2 eexists. exists (calls ++ [c_console (LogOpened mp)]).
      split; [reflexivity|]. split; [reflexivity|]. split; [reflexivity|].
      split.
      { apply Forall_app. split; [exact Hcalls|]. repeat constructor. }
      cbn [log record set_log]. rewrite Hlog7. cbn [log record set_log].
      rewrite Hlog5, <- !app_assoc. reflexivity.
    * unfold ret. do 2 eexists. exists calls.
      split; [reflexivity|]. split; [reflexivity|]. split; [reflexivity|].
      split; [exact Hcalls|].
      rewrite Hlog7. cbn [log record set_log].
      rewrite Hlog5, <- !app_assoc. reflexivity.
  + eexists. split; [reflexivity|]. exact Hlog5.
Qed.

(** X21. Let there be no memory file, the lock be free, and the steps
    around the engine succeed.  Then [Mind.open] creates the store
    inside the lock, without inspecting or opening anything, and returns
    an instance on the fresh handle.  The lock file it made just before
    is never mistaken for the memory file: a path and the same path with
    [.lock] appended resolve to different files. *)
Theorem open_creates_missing_store (host : Host)
  (overrides : ConfigOverrides) (w : World) :
  let mp := open_memoryPath overrides w in
  let lp := mp ++ js ".lock" in
  let entered := log w ++ calls_to_enter overrides w in
  cooperative host ->
  ~ In (key w lp) (locked w) ->
  lookup_file (key w mp) (files w) = None ->
  key w lp <> key w mp
  /\ exists mind w' rest,
      Mind_open host overrides w = (Ok mind, w')
      /\ memvid mind = created mp
      /\ config mind = merge_config DEFAULT_CONFIG overrides
      /\ Forall housekeeping_call rest
      /\ log w' = entered ++ [c_create mp; c_release lp; c_random] ++ rest.
Proof.
  intros mp lp entered Hcoop Hfree Hnone.
  assert (key w lp <> key w mp) as Hdiff.
  { unfold key, lp. apply lock_path_is_another_file.
    unfold mp, open_memoryPath. apply resolve_nonempty. }
  split; [exact Hdiff|].
  destruct (@Mind_open_enter host overrides w Hcoop)
    as (w2 & Hcwd2 & Hlocked2 & Hfiles2 & Hlog2 & Hrun).
  fold mp in Hrun, Hlog2. fold lp in Hrun.
  assert (key w2 lp = key w lp) as Hkey2 by (unfold key; now rewrite Hcwd2).
  destruct (@acquire_run_absent host lp w2 (key w mp) Hcoop)
    as (w_in & Hacq & Hcwd_in & Hlog_in & Hnone_in).
  { rewrite Hkey2, Hlocked2. exact Hfree. }
  { rewrite Hfiles2. exact Hnone. }
  { rewrite Hkey2. congruence. }
  assert (key w_in mp = key w mp) as Hkey_in
    by (unfold key; now rewrite Hcwd_in, Hcwd2).
  destruct (@sdk_create_run host mp w_in (Hcoop (log w_in) (c_create mp)))
    as (w_out & Hcreate & Hlog_out & _).
  assert (open_locked host mp w_in = (Ok (created mp), w_out)) as Hopen.
  { unfold open_locked. unfold bind at 1. unfold existsSync, get.
    rewrite Hkey_in, Hnone_in. cbn [negb]. exact Hcreate. }
  destruct (Hrun _ _ _ Hacq Hopen)
    as (mind & w' & rest & Hm & Hh & Hc & Hrest & Hlog).
  exists mind, w', rest. split; [exact Hm|]. split; [exact Hh|].
  split; [exact Hc|]. split; [exact Hrest|].
  rewrite Hlog, Hlog_out, Hlog_in, Hlog2.
  unfold entered, calls_to_enter. fold mp. fold lp.
  rewrite <- !app_assoc. reflexivity.
Qed.

Lemma open_creates_missing_store_witness :
  cooperative quiet_host
  /\ ~ In (key fresh_world
             (open_memoryPath no_overrides fresh_world ++ js ".lock"))
          (locked fresh_world)
  /\ lookup_file (key fresh_world (open_memoryPath no_overrides fresh_world))
       (files fresh_world) = None
  /\ exists mind w',
       Mind_open quiet_host no_overrides fresh_world = (Ok mind, w')
       /\ memvid mind = created (js "/proj/.claude/mind.mv2").
Proof.
  split; [exact quiet_host_cooperative|].
  split; [simpl; tauto|].
  split; [reflexivity|].
  destruct (@open_creates_missing_store quiet_host no_overrides fresh_world
              quiet_host_cooperative (fun H : In _ [] => H) eq_refl)
    as (_ & mind & w' & rest & Hopen & Hhandle & _).
  exists mind, w'. split; [exact Hopen|exact Hhandle].
Defined.

(* ================================================================= *)
(** ** Recovering a memory file *)

Lemma lookup_remove_same (k : jsstring) (fs : list (jsstring * Z)) :
  lookup_file k (remove_file k fs) = None.
Proof.
  induction fs as [|[k0 z0] fs IH]; [reflexivity|].
  unfold remove_file in *. cbn [filter fst].
  destruct (str_eqb k0 k) eqn:E; cbn [negb]; [exact IH|].
  cbn [lookup_file]. now rewrite E.
Qed.

Lemma lookup_remove_other (k k' : jsstring) (fs : list (jsstring * Z)) :
  k <> k' -> lookup_file k (remove_file k' fs) = lookup_file k fs.
Proof.
  intros Hk. induction fs as [|[k0 z0] fs IH]; [reflexivity|].
  unfold remove_file in *. cbn [filter fst lookup_file].
  destruct (str_eqb k0 k') eqn:E; cbn [negb].
  - apply str_eqb_eq in E. subst k0.
    assert (str_eqb k' k = false) as -> by (apply str_eqb_neq; congruence).
    exact IH.
  - cbn [lookup_file]. destruct (str_eqb k0 k); [reflexivity|exact IH].
Qed.

Lemma lookup_file_snoc (k k' : jsstring) (z : Z) (fs : list (jsstring * Z)) :
  lookup_file k (fs ++ [(k', z)])
  = match lookup_file k fs with
    | Some s => Some s
    | None => if str_eqb k' k then Some z else None
    end.
Proof.
  induction fs as [|[k0 z0] fs IH]; cbn [app lookup_file]; [reflexivity|].
  destruct (str_eqb k0 k); [reflexivity|exact IH].
Qed.

Lemma lookup_put_same (k : jsstring) (z : Z) (fs : list (jsstring * Z)) :
  lookup_file k (put_file k z fs) = Some z.
Proof.
  unfold put_file.
  now rewrite lookup_file_snoc, lookup_remove_same, str_eqb_refl.
Qed.

Lemma lookup_put_other (k k' : jsstring) (z : Z) (fs : list (jsstring * Z)) :
  k <> k' -> lookup_file k (put_file k' z fs) = lookup_file k fs.
Proof.
  intros Hk. unfold put_file.
  rewrite lookup_file_snoc, lookup_remove_other by exact Hk.
  destruct (lookup_file k fs); [reflexivity|].
  assert (str_eqb k' k = false) as -> by (apply str_eqb_neq; congruence).
  reflexivity.
Qed.

(** [rename] and [create], where they succeed. *)
Lemma renameSync_moves (host : Host) (a b : jsstring) (w : World) (z : Z) :
  fault host (log w) (c_rename a b) = None ->
  lookup_file (key w a) (files w) = Some z ->
  renameSync host a b w
  = (Ok tt,
     set_files (put_file (key w b) z (remove_file (key w a) (files w)))
       (record (c_rename a b) w)).
Proof.
  intros Hq Hfile. unfold renameSync, bind.
  rewrite call_quiet by exact Hq. unfold get.
  change (key (record (c_rename a b) w) a) with (key w a).
  change (files (record (c_rename a b) w)) with (files w).
  rewrite Hfile. reflexivity.
Qed.

Lemma sdk_create_puts (host : Host) (p : jsstring) (w : World) :
  fault host (log w) (c_create p) = None ->
  sdk_create host p w
  = (Ok (created p),
     set_files (put_file (key w p) (fresh_size host) (files w))
       (record (c_create p) w)).
Proof.
  intros Hq. unfold sdk_create, bind. rewrite call_quiet by exact Hq.
  reflexivity.
Qed.

(** The state in which the critical section of [Mind.open] leaves an
    oversized file. *)
Lemma open_locked_oversized (host : Host) (mp : jsstring) (w : World)
  (size : Z) :
  cooperative host ->
  lookup_file (key w mp) (files w) = Some size ->
  too_large size = true ->
  let seen := log w ++ [c_stat mp; c_console (LogTooLarge size)] in
  let backup := backup_path mp (now host seen) in
  exists w',
    open_locked host mp w = (Ok (created mp), w')
    /\ cwd w' = cwd w
    /\ log w' = seen ++ [c_now; c_rename mp backup; c_create mp]
    /\ lookup_file (key w mp) (files w') = Some (fresh_size host)
    /\ (fault host (seen ++ [c_now]) (c_rename mp backup) = None ->
        key w backup <> key w mp ->
        lookup_file (key w backup) (files w') = Some size).
Proof.
  intros Hcoop Hfile Hlarge seen backup. unfold open_locked.
  unfold bind at 1. unfold existsSync, get. rewrite Hfile. cbn [negb].
  unfold bind at 1.
  rewrite (@statSync_size_run host mp w size (Hcoop (log w) (c_stat mp)) Hfile).
  rewrite Hlarge.
  unfold bind at 1. unfold console_error at 1.
  unfold bind at 1. unfold Date_now at 1.
  unfold bind at 1. cbn [log record set_log]. rewrite <- app_assoc.
  cbn [app]. fold seen. fold backup.
  set (w0 := record c_now _).
  assert (log w0 = seen ++ [c_now]) as Hlog0
    by (unfold w0, seen; cbn [log record set_log];
        rewrite <- !app_assoc; reflexivity).
  assert (lookup_file (key w0 mp) (files w0) = Some size) as Hfile0
    by exact Hfile.
  unfold try_catch.
  destruct (fault host (seen ++ [c_now]) (c_rename mp backup)) as [e|] eqn:F.
  - unfold renameSync, bind. rewrite call_fails with (e := e)
      by (rewrite Hlog0; exact F).
    unfold ret.
    rewrite sdk_create_puts by apply (Hcoop _ (c_create mp)).
    eexists. split; [reflexivity|]. split; [reflexivity|]. split.
    { cbn [log record set_log set_files]. rewrite Hlog0, <- !app_assoc.
      reflexivity. }
    split; [|discriminate]. cbn [files set_files].
    apply lookup_put_same.
  - rewrite (@renameSync_moves host mp backup w0 size)
      by (rewrite ?Hlog0; assumption).
    rewrite sdk_create_puts by apply (Hcoop _ (c_create mp)).
    eexists. split; [reflexivity|]. split; [reflexivity|]. split.
    { cbn [log record set_log set_files]. rewrite Hlog0, <- !app_assoc.
      reflexivity. }
    split.
    + cbn [files set_files]. apply lookup_put_same.
    + intros _ Hdiff. cbn [files set_files].
      change (key (set_files _ (record (c_rename mp backup) w0)) mp)
        with (key w mp).
      rewrite lookup_put_other by exact Hdiff.
      apply lookup_put_same.
Qed.

(** The state in which it leaves a file that the engine rejects. *)
Lemma open_locked_use_fails (host : Host) (mp : jsstring) (w : World)
  (size : Z) (e : Thrown) :
  cooperative host ->
  lookup_file (key w mp) (files w) = Some size ->
  too_large size = false ->
  fault host (log w ++ [c_stat mp]) (c_use mp) = Some e ->
  let seen := log w ++ [c_stat mp; c_use mp; c_console LogCorrupted] in
  let backup := backup_path mp (now host seen) in
  if existsb (includes (errorMessage e)) corruption_signatures
  then
    exists w',
      open_locked host mp w = (Ok (created mp), w')
      /\ cwd w' = cwd w
      /\ lookup_file (key w mp) (files w') = Some (fresh_size host)
      /\ match fault host (seen ++ [c_now]) (c_rename mp backup) with
         | None =>
             log w' = seen ++ [c_now; c_rename mp backup; c_create mp]
             /\ (key w backup <> key w mp ->
                 lookup_file (key w backup) (files w') = Some size)
         | Some _ =>
             log w'
             = seen ++ [c_now; c_rename mp backup; c_unlink mp; c_create mp]
         end
  else
    exists w',
      open_locked host mp w = (Throw e, w')
      /\ cwd w' = cwd w
      /\ log w' = log w ++ [c_stat mp; c_use mp]
      /\ files w' = files w.
Proof.
  intros Hcoop Hfile Hsmall Huse seen backup.
  assert (open_locked host mp w
          = try_catch (sdk_use host mp)
              (fun openError =>
                 if existsb (includes (errorMessage openError))
                      corruption_signatures
                 then
                   console_error LogCorrupted ;;
                   t <- Date_now host ;;
                   try_catch (renameSync host mp (backup_path mp t))
                     (fun _ => try_catch (unlinkSync host mp)
                                 (fun _ => ret tt)) ;;
                   sdk_create host mp
                 else throw openError) (record (c_stat mp) w)) as ->.
  { unfold open_locked.
    unfold bind at 1. unfold existsSync, get. rewrite Hfile. cbn [negb].
    unfold bind at 1.
    rewrite (@statSync_size_run host mp w size (Hcoop (log w) (c_stat mp))
               Hfile).
    now rewrite Hsmall. }
  assert (sdk_use host mp (record (c_stat mp) w)
          = (Throw e, record (c_use mp) (record (c_stat mp) w))) as Hfail.
  { unfold sdk_use, bind. now rewrite call_fails with (e := e) by exact Huse. }
  destruct (existsb (includes (errorMessage e)) corruption_signatures) eqn:Esig;
    unfold try_catch at 1; rewrite Hfail, Esig.
  2:{ eexists. split; [reflexivity|]. split; [reflexivity|].
      split; [|reflexivity].
      cbn [log record set_log]. now rewrite <- app_assoc. }
  unfold bind at 1. unfold console_error at 1.
  unfold bind at 1. unfold Date_now at 1.
  unfold bind at 1. cbn [log record set_log]. rewrite <- !app_assoc.
  cbn [app]. fold seen. fold backup.
  set (w0 := record c_now _).
  assert (log w0 = seen ++ [c_now]) as Hlog0
    by (unfold w0, seen; cbn [log record set_log];
        rewrite <- !app_assoc; reflexivity).
  assert (lookup_file (key w0 mp) (files w0) = Some size) as Hfile0
    by exact Hfile.
  unfold try_catch at 1.
  destruct (fault host (seen ++ [c_now]) (c_rename mp backup)) as [e'|] eqn:F.
  - unfold renameSync, bind at 1. rewrite call_fails with (e := e')
      by (rewrite Hlog0; exact F).
    unfold try_catch.
    destruct (unlinkSync_run host mp (record (c_rename mp backup) w0))
      as (r2 & w2 & Hunlink & Hlog2 & (Hcwd2 & _)).
    rewrite Hunlink.
    assert ((let (r, w') := (r2, w2) in
             match r with
             | Ok a => (Ok a, w')
             | Throw _ => ret tt w'
             end) = (Ok tt, w2)) as -> by (now destruct r2 as [[]|]).
    rewrite sdk_create_puts by apply (Hcoop _ (c_create mp)).
    eexists. split; [reflexivity|]. split; [exact Hcwd2|]. split.
    + cbn [files set_files].
      assert (key w2 mp = key w mp) as -> by (unfold key; now rewrite Hcwd2).
      apply lookup_put_same.
    + cbn [log record set_log set_files]. rewrite Hlog2.
      cbn [log record set_log]. rewrite Hlog0, <- !app_assoc. reflexivity.
  - rewrite (@renameSync_moves host mp backup w0 size)
      by (rewrite ?Hlog0; assumption).
    rewrite sdk_create_puts by apply (Hcoop _ (c_create mp)).
    eexists. split; [reflexivity|]. split; [reflexivity|]. split.
    + cbn [files set_files]. apply lookup_put_same.
    + split.
      * cbn [log record set_log set_files]. rewrite Hlog0, <- !app_assoc.
        reflexivity.
      * intros Hdiff. cbn [files set_files].
        change (key (set_files _ (record (c_rename mp backup) w0)) mp)
          with (key w mp).
        rewrite lookup_put_other by exact Hdiff.
        apply lookup_put_same.
Qed.

(** Pruning only deletes: a file is as it was, unless it was handed to
    [unlink]. *)
Lemma prune_loop_keeps (host : Host) (olds : list Backup) :
  forall w, exists w' calls,
    prune_loop host olds w = (Ok tt, w')
    /\ log w' = log w ++ calls
    /\ Forall housekeeping_call calls
    /\ cwd w' = cwd w
    /\ forall k,
         lookup_file k (files w') = lookup_file k (files w)
         \/ exists q, In (c_unlink q) calls /\ key w q = k.
Proof.
  induction olds as [|b rest IH]; intros w.
  - exists w, []. simpl. rewrite app_nil_r.
    repeat split; [constructor|]. intros k. now left.
  - cbn [prune_loop]. unfold bind at 1.
    assert (exists w1 calls1,
               try_catch
                 (unlinkSync host (b_path b) ;;
                  console_error (LogPruned (b_name b)))
                 (fun _ => ret tt) w = (Ok tt, w1)
               /\ log w1 = log w ++ c_unlink (b_path b) :: calls1
               /\ Forall housekeeping_call calls1
               /\ cwd w1 = cwd w
               /\ forall k,
                    lookup_file k (files w1) = lookup_file k (files w)
                    \/ key w (b_path b) = k) as (w1 & calls1 & -> & Hlog1
                                                 & Hcalls1 & Hcwd1 & Hfiles1).
    { unfold try_catch, bind, unlinkSync, bind, call, get, modify, throw,
        console_error, ret.
      destruct (fault host (log w) (c_unlink (b_path b))).
      { eexists. exists []. split; [reflexivity|].
        repeat split; [constructor|]. intros k. now left. }
      cbn -[key lookup_file].
      change (key (record (c_unlink (b_path b)) w) (b_path b))
        with (key w (b_path b)).
      destruct (lookup_file (key w (b_path b)) (files w)) as [z|].
      - eexists. exists [c_console (LogPruned (b_name b))].
        split; [reflexivity|]. cbn [log record set_log set_files].
        rewrite <- app_assoc. split; [reflexivity|].
        split; [repeat constructor|]. split; [reflexivity|].
        intros k. cbn [files set_files record set_log].
        destruct (list_eq_dec N.eq_dec k (key w (b_path b))) as [->|Hk];
          [now right|left].
        now apply lookup_remove_other.
      - eexists. exists []. split; [reflexivity|].
        repeat split; [constructor|]. intros k. now left. }
    destruct (IH w1) as (w' & calls & -> & Hlog' & Hcalls & Hcwd' & Hfiles').
    exists w', (c_unlink (b_path b) :: calls1 ++ calls).
    split; [reflexivity|]. split.
    { rewrite Hlog', Hlog1, <- app_assoc. reflexivity. }
    split.
    { constructor; [exact I|]. apply Forall_app. auto. }
    split; [congruence|].
    intros k. destruct (Hfiles' k) as [Heq|(q & Hq & Hkey)].
    + destruct (Hfiles1 k) as [Heq1|Hkey1].
      * left. congruence.
      * right. exists (b_path b). split; [now left|exact Hkey1].
    + right. exists q. split.
      * right. apply in_or_app. now right.
      * unfold key in *. now rewrite <- Hcwd1.
Qed.

Lemma pruneBackups_keeps (host : Host) (memoryPath : jsstring)
  (keepCount : nat) (w : World) :
  exists w' calls,
    pruneBackups host memoryPath keepCount w = (Ok tt, w')
    /\ log w' = log w ++ calls
    /\ Forall housekeeping_call calls
    /\ forall k,
         lookup_file k (files w') = lookup_file k (files w)
         \/ exists q, In (c_unlink q) calls /\ key w q = k.
Proof.
  unfold pruneBackups, try_catch. cbv zeta. unfold bind at 1.
  assert (forall src,
             new_RegExp host src w = (Ok src, w)
             \/ exists e, new_RegExp host src w = (Throw e, w)) as Hre.
  { intros src. unfold new_RegExp.
    destruct (RegExpLite.compile src); [now left|].
    destruct (regexp_error host src) as [e|]; [right; now exists e|now left]. }
  destruct (Hre (backupPattern_source
                   (or_str (pop (split SLASH memoryPath)) (js "mind.mv2"))))
    as [->|(e & ->)].
  2:{ exists w, []. rewrite app_nil_r.
      repeat split; [constructor|]. intros k. now left. }
  unfold bind at 1. unfold readdirSync. unfold bind at 1. unfold call.
  destruct (fault host (log w) (c_readdir (Path.dirname memoryPath)))
    as [e|].
  { eexists. exists [c_readdir (Path.dirname memoryPath)].
    split; [reflexivity|]. split; [reflexivity|].
    split; [repeat constructor|]. intros k. now left. }
  unfold get at 1. unfold bind at 1. unfold get at 1.
  match goal with
  | |- context [prune_loop host ?olds ?w0] =>
      destruct (prune_loop_keeps host olds w0)
        as (w' & calls & -> & Hlog & Hcalls & _ & Hfiles)
  end.
  exists w', (c_readdir (Path.dirname memoryPath) :: calls).
  split; [reflexivity|]. split.
  { rewrite Hlog. cbn [log record set_log]. rewrite <- app_assoc.
    reflexivity. }
  split; [constructor; [exact I|exact Hcalls]|].
  intros k. destruct (Hfiles k) as [Heq|(q & Hq & Hkey)].
  - left. exact Heq.
  - right. exists q. split; [now right|exact Hkey].
Qed.

Lemma release_run_files (host : Host) (lp : jsstring) (w : World) :
  cooperative host ->
  exists w',
    lockfile_release host lp w = (Ok tt, w')
    /\ log w' = log w ++ [c_release lp]
    /\ files w' = files w
    /\ cwd w' = cwd w.
Proof.
  intros Hcoop. unfold lockfile_release, bind.
  rewrite call_quiet by exact (Hcoop _ (c_release _)).
  unfold modify. eexists. repeat split.
Qed.

(** [Mind.open] around its critical section, with what becomes of the
    files afterwards. *)
Lemma Mind_open_recovering (host : Host) (overrides : ConfigOverrides)
  (w : World) :
  let mp := open_memoryPath overrides w in
  let lp := mp ++ js ".lock" in
  cooperative host ->
  ~ In (key w lp) (locked w) ->
  exists w_in,
    log w_in = log w ++ calls_to_enter overrides w
    /\ cwd w_in = cwd w
    /\ (forall k sz, lookup_file k (files w) = Some sz ->
                     lookup_file k (files w_in) = Some sz)
    /\ forall r w_out,
         open_locked host mp w_in = (r, w_out) ->
         cwd w_out = cwd w ->
         match r with
         | Throw e =>
             exists w',
               Mind_open host overrides w = (Throw e, w')
               /\ log w' = log w_out ++ [c_release lp]
               /\ files w' = files w_out
         | Ok handle =>
             exists mind w' rest,
               Mind_open host overrides w = (Ok mind, w')
               /\ memvid mind = handle
               /\ Forall housekeeping_call rest
               /\ log w' = log w_out ++ [c_release lp; c_random] ++ rest
               /\ forall k,
                    lookup_file k (files w') = lookup_file k (files w_out)
                    \/ exists q, In (c_unlink q) rest /\ key w q = k
         end.
Proof.
  intros mp lp Hcoop Hfree.
  destruct (@loadSDK_run host w Hcoop)
    as (w1 & Hload & (Hcwd1 & Henv1 & Hlocked1) & Hfiles1 & Hlog1).
  set (w2 := record (c_mkdir (Path.dirname mp)) w1).
  assert (~ In (key w2 lp) (locked w2)) as Hfree2.
  { unfold key. cbn [cwd locked w2 record set_log].
    rewrite Hcwd1, Hlocked1. exact Hfree. }
  destruct (@acquire_run host lp w2 Hcoop Hfree2)
    as (w_in & Hacq & Hcwd_in & Hlog_in & Hfiles_in).
  exists w_in. split; [|split; [|split]].
  - rewrite Hlog_in. cbn [log w2 record set_log]. rewrite Hlog1.
    unfold calls_to_enter. fold mp. fold lp. rewrite <- !app_assoc.
    reflexivity.
  - rewrite Hcwd_in. exact Hcwd1.
  - intros k sz Hk. apply Hfiles_in. cbn [files w2 record set_log].
    now rewrite Hfiles1.
  - intros r w_out Hopen Hcwd_out.
    destruct (@release_run_files host lp w_out Hcoop)
      as (w5 & Hrel & Hlog5 & Hfiles5 & Hcwd5).
    assert (withMemvidLock host lp (open_locked host mp) w2 = (r, w5))
      as Hlocked.
    { rewrite withMemvidLock_unfold, Hacq. unfold try_finally.
      now rewrite Hopen, Hrel. }
    destruct r as [handle|e];
      unfold Mind_open;
      unfold bind at 1; rewrite Hload;
      unfold bind at 1; unfold get at 1;
      unfold bind at 1; unfold get at 1;
      rewrite Hcwd1, Henv1; fold (open_memoryPath overrides w); fold mp;
      unfold bind at 1; unfold mkdir_recursive at 1;
      rewrite call_quiet by exact (Hcoop _ (c_mkdir _));
      fold w2; fold lp; unfold bind at 1; rewrite Hlocked.
    + unfold bind at 1. unfold generateId at 1.
      unfold bind at 1.
      match goal with
      | |- context [pruneBackups host mp 3 ?w0] =>
          destruct (pruneBackups_keeps host mp 3 w0)
            as (w7 & calls & -> & Hlog7 & Hcalls & Hfiles7)
      end.
      assert (forall k,
                 lookup_file k (files w7) = lookup_file k (files w_out)
                 \/ exists q, In (c_unlink q) calls /\ key w q = k)
        as Hkept.
      { intros k. destruct (Hfiles7 k) as [Heq|(q & Hq & Hkey)].
        - left. rewrite Heq. cbn [files record set_log]. now rewrite Hfiles5.
        - right. exists q. split; [exact Hq|].
          unfold key in *. cbn [cwd record set_log] in Hkey.
          now rewrite <- Hcwd_out, <- Hcwd5. }
      unfold bind at 1.
      destruct (debug (merge_config DEFAULT_CONFIG overrides)).
      * unfold console_error at 1. unfold ret.
        do 2 eexists. exists (calls ++ [c_console (LogOpened mp)]).
        split; [reflexivity|]. split; [reflexivity|]. split.
        { apply Forall_app. split; [exact Hcalls|]. repeat constructor. }
        split.
        { cbn [log record set_log]. rewrite Hlog7. cbn [log record set_log].
          rewrite Hlog5, <- !app_assoc. reflexivity. }
        intros k. cbn [files record set_log].
        destruct (Hkept k) as [Heq|(q & Hq & Hkey)]; [now left|right].
        exists q. split; [apply in_or_app; now left|exact Hkey].
      * unfold ret. do 2 eexists. exists calls.
        split; [reflexivity|]. split; [reflexivity|].
        split; [exact Hcalls|]. split; [|exact Hkept].
        rewrite Hlog7. cbn [log record set_log].
        rewrite Hlog5, <- !app_assoc. reflexivity.
    + eexists. split; [reflexivity|]. split; [exact Hlog5|exact Hfiles5].
Qed.

Lemma carries_signature_code (e : Thrown) :
  existsb (includes (errorMessage e)) corruption_signatures
  = carries_signature e.
Proof. destruct e; reflexivity. Qed.

Lemma too_large_limit (size : Z) :
  too_large size = (100 * 1024 * 1024 <? size)%Z.
Proof. reflexivity. Qed.

(** C4 (as amended). Let the memory file exist, the lock be free, and
    the steps around the engine succeed (loading it, directories, lock
    file, lock and release, [stat], [create]).

    If the file has more than 100 MB, [Mind.open] does not try to open
    it: it asks for the time, tries to rename the file to the path
    followed by [.backup-] and that time in milliseconds, creates a
    fresh store at the path and returns an instance on it.  A failing
    rename is ignored.

    If the file is not larger and opening it throws an error whose
    message contains "Deserialization", "UnexpectedVariant", "Invalid",
    "corrupt", "validation failed", "unable to recover" or "table of
    contents", it tries the same rename, deletes the file instead when
    the rename fails, creates a fresh store and returns an instance on
    it.

    In both cases the path then holds the fresh store and, when the
    rename succeeded, the backup holds the bytes of the old file,
    unless the pruning that ends [Mind.open] was asked to delete them.

    If opening throws any other error, the lock is released, the file
    is left as it was, and that same error reaches the caller. *)
Theorem open_recovers_or_propagates (host : Host)
  (overrides : ConfigOverrides) (w : World) (size : Z) :
  let mp := open_memoryPath overrides w in
  let lp := mp ++ js ".lock" in
  let entered := log w ++ calls_to_enter overrides w in
  cooperative host ->
  ~ In (key w lp) (locked w) ->
  lookup_file (key w mp) (files w) = Some size ->
  ((100 * 1024 * 1024 < size)%Z ->
   let seen := entered ++ [c_stat mp; c_console (LogTooLarge size)] in
   let backup := mp ++ js ".backup-" ++ numZ (now host seen) in
   exists mind w' rest,
     Mind_open host overrides w = (Ok mind, w')
     /\ memvid mind = created mp
     /\ Forall housekeeping_call rest
     /\ log w'
        = seen ++ [c_now; c_rename mp backup; c_create mp; c_release lp;
                   c_random] ++ rest
     /\ holds_unless_pruned w w' rest mp (fresh_size host)
     /\ (fault host (seen ++ [c_now]) (c_rename mp backup) = None ->
         holds_unless_pruned w w' rest backup size))
  /\ ((size <= 100 * 1024 * 1024)%Z ->
      forall e,
        fault host (entered ++ [c_stat mp]) (c_use mp) = Some e ->
        let seen := entered ++ [c_stat mp; c_use mp; c_console LogCorrupted] in
        let backup := mp ++ js ".backup-" ++ numZ (now host seen) in
        if carries_signature e
        then
          exists mind w' rest,
            Mind_open host overrides w = (Ok mind, w')
            /\ memvid mind = created mp
            /\ Forall housekeeping_call rest
            /\ holds_unless_pruned w w' rest mp (fresh_size host)
            /\ match fault host (seen ++ [c_now]) (c_rename mp backup) with
               | None =>
                   log w'
                   = seen ++ [c_now; c_rename mp backup; c_create mp;
                              c_release lp; c_random] ++ rest
                   /\ holds_unless_pruned w w' rest backup size
               | Some _ =>
                   log w'
                   = seen ++ [c_now; c_rename mp backup; c_unlink mp;
                              c_create mp; c_release lp; c_random] ++ rest
               end
        else
          exists w',
            Mind_open host overrides w = (Throw e, w')
            /\ log w' = entered ++ [c_stat mp; c_use mp; c_release lp]
            /\ lookup_file (key w mp) (files w') = Some size).
Proof.
  intros mp lp entered Hcoop Hfree Hfile.
  destruct (@Mind_open_recovering host overrides w Hcoop Hfree)
    as (w_in & Hlog_in & Hcwd_in & Hfiles_in & Hrun).
  fold mp in Hrun. fold lp in Hrun. fold entered in Hlog_in.
  assert (forall p, key w_in p = key w p) as Hkey
    by (intros p; unfold key; now rewrite Hcwd_in).
  assert (lookup_file (key w_in mp) (files w_in) = Some size) as Hfile_in
    by (rewrite Hkey; apply Hfiles_in; exact Hfile).
  assert (forall t, key w (mp ++ js ".backup-" ++ numZ t) <> key w mp)
    as Hbackup.
  { intros t. unfold key. apply backup_path_is_another_file.
    unfold mp, open_memoryPath. apply resolve_nonempty. }
  assert (forall w_out w' rest p z,
             lookup_file (key w p) (files w_out) = Some z ->
             (forall k,
                 lookup_file k (files w') = lookup_file k (files w_out)
                 \/ exists q, In (c_unlink q) rest /\ key w q = k) ->
             holds_unless_pruned w w' rest p z) as Hholds.
  { intros w_out w' rest p z Hz Hkept. unfold holds_unless_pruned.
    destruct (Hkept (key w p)) as [Heq|Hq]; [left; congruence|now right]. }
  split.
  - intros Hlarge seen backup.
    assert (too_large size = true) as Htoo
      by (rewrite too_large_limit; now apply Z.ltb_lt).
    destruct (@open_locked_oversized host mp w_in size Hcoop Hfile_in Htoo)
      as (w_out & Hopen & Hcwd_out & Hlog_out & Hfresh & Hold).
    rewrite Hlog_in in Hlog_out, Hold. rewrite Hkey in Hfresh.
    fold seen in Hlog_out, Hold.
    change (backup_path mp (now host seen)) with backup in Hlog_out, Hold.
    rewrite (Hkey backup), (Hkey mp) in Hold.
    destruct (Hrun _ _ Hopen (eq_trans Hcwd_out Hcwd_in))
      as (mind & w' & rest & Hm & Hh & Hrest & Hlog & Hkept).
    exists mind, w', rest. split; [exact Hm|]. split; [exact Hh|].
    split; [exact Hrest|]. split.
    { rewrite Hlog, Hlog_out, <- !app_assoc. reflexivity. }
    split; [now apply Hholds with (w_out := w_out)|].
    intros Hrename. apply Hholds with (w_out := w_out); [|exact Hkept].
    apply Hold; [exact Hrename|apply Hbackup].
  - intros Hsmall e Huse seen backup.
    assert (too_large size = false) as Htoo
      by (rewrite too_large_limit; apply Z.ltb_ge; exact Hsmall).
    rewrite <- Hlog_in in Huse.
    pose proof (@open_locked_use_fails host mp w_in size e Hcoop Hfile_in
                  Htoo Huse) as Hopen.
    cbv zeta in Hopen. rewrite carries_signature_code in Hopen.
    rewrite Hlog_in in Hopen.
    fold seen in Hopen.
    change (backup_path mp (now host seen)) with backup in Hopen.
    rewrite ?(Hkey backup), ?(Hkey mp) in Hopen.
    destruct (carries_signature e).
    + destruct Hopen as (w_out & Hopen & Hcwd_out & Hfresh & Hcase).
      destruct (Hrun _ _ Hopen (eq_trans Hcwd_out Hcwd_in))
        as (mind & w' & rest & Hm & Hh & Hrest & Hlog & Hkept).
      exists mind, w', rest. split; [exact Hm|]. split; [exact Hh|].
      split; [exact Hrest|].
      split; [now apply Hholds with (w_out := w_out)|].
      destruct (fault host (seen ++ [c_now]) (c_rename mp backup)).
      * rewrite Hlog, Hcase, <- !app_assoc. reflexivity.
      * destruct Hcase as [Hlog_out Hold]. split.
        { rewrite Hlog, Hlog_out, <- !app_assoc. reflexivity. }
        apply Hholds with (w_out := w_out); [|exact Hkept].
        apply Hold, Hbackup.
    + destruct Hopen as (w_out & Hopen & Hcwd_out & Hlog_out & Hfiles_out).
      destruct (Hrun _ _ Hopen (eq_trans Hcwd_out Hcwd_in))
        as (w' & Hm & Hlog & Hfiles').
      exists w'. split; [exact Hm|]. split.
      * rewrite Hlog, Hlog_out, <- !app_assoc. reflexivity.
      * rewrite Hfiles', Hfiles_out. now rewrite <- Hkey.
Qed.

Lemma open_recovers_or_propagates_witness :
  cooperative quiet_host
  /\ ~ In (key oversized_world
             (open_memoryPath no_overrides oversized_world ++ js ".lock"))
          (locked oversized_world)
  /\ lookup_file
       (key oversized_world (open_memoryPath no_overrides oversized_world))
       (files oversized_world) = Some 209715200%Z
  /\ (100 * 1024 * 1024 < 209715200)%Z
  /\ exists mind w' rest,
       Mind_open quiet_host no_overrides oversized_world = (Ok mind, w')
       /\ memvid mind = created (js "/proj/.claude/mind.mv2")
       /\ holds_unless_pruned oversized_world w' rest
            (js "/proj/.claude/mind.mv2.backup-1700000000007") 209715200.
Proof.
  split; [exact quiet_host_cooperative|].
  split; [simpl; tauto|].
  split; [vm_compute; reflexivity|].
  split; [reflexivity|].
  destruct (@open_recovers_or_propagates quiet_host no_overrides
              oversized_world 209715200%Z quiet_host_cooperative
              (fun H : In _ [] => H) eq_refl) as [Hlarge _].
  destruct (Hlarge eq_refl)
    as (mind & w' & rest & Hopen & Hhandle & _ & _ & _ & Hbackup).
  exists mind, w', rest. split; [exact Hopen|]. split; [exact Hhandle|].
  exact (Hbackup eq_refl).
Defined.

(** C4, as stated without these conditions, fails.  When the rename of
    an oversized file fails, [Mind.open] returns a fresh store, but no
    backup was made: the lock file and the fresh store are all there
    is.  And when the engine cannot create the fresh store, [Mind.open]
    throws, although the file was only oversized. *)
Lemma open_without_backup_counterexample :
  (let '(r, after) :=
     Mind_open (failing_host is_rename (js "EACCES: permission denied"))
       no_overrides oversized_world in
   (exists mind, r = Ok mind
                 /\ memvid mind = created (js "/proj/.claude/mind.mv2"))
   /\ files oversized_world = [(js "/proj/.claude/mind.mv2", 209715200%Z)]
   /\ files after = [(js "/proj/.claude/mind.mv2.lock", 0%Z);
                     (js "/proj/.claude/mind.mv2", 4096%Z)])
  /\ fst (Mind_open
            (failing_host is_create (js "ENOSPC: no space left on device"))
            no_overrides oversized_world)
     = Throw (JsError (js "ENOSPC: no space left on device")).
Proof.
  split.
  - vm_compute. split; [eexists; split; reflexivity|]. split; reflexivity.
  - vm_compute. reflexivity.
Qed.

(** ** Errors of the compression engine *)

Lemma glob_group_all_errors (files : list Compression.JsonValue) :
  forall (byDir : Compression.ByDir) (e : Thrown),
    Compression.glob_group_all byDir files = Throw e ->
    (e = not_a_function "byDir[dir].push"
     /\ exists f, In (Compression.JString f) files)
    \/ (e = not_a_function "f.split"
        /\ exists f, In f files /\ f <> Compression.JNull
                     /\ forall t, f <> Compression.JString t)
    \/ (e = JsError (js "Cannot read properties of null (reading 'split')")
        /\ In Compression.JNull files).
Proof.
  induction files as [|f rest IH]; intros byDir e H; simpl in H.
  - discriminate H.
  - destruct (Compression.glob_group byDir f) as [byDir'|e'] eqn:E.
    + destruct (IH _ _ H) as [(-> & g & Hg)|[(-> & g & Hg & Hn)|(-> & Hg)]].
      * left. split; [reflexivity|]. exists g. now right.
      * right; left. split; [reflexivity|]. exists g.
        split; [now right|exact Hn].
      * right; right. split; [reflexivity|now right].
    + injection H as <-. unfold Compression.glob_group in E.
      destruct f as [|b|n|t|items|props].
      * injection E as <-. right; right. split; [reflexivity|now left].
      * injection E as <-. right; left. split; [reflexivity|].
        eexists. split; [now left|]. split; [discriminate|discriminate].
      * injection E as <-. right; left. split; [reflexivity|].
        eexists. split; [now left|]. split; [discriminate|discriminate].
      * destruct (Compression.has_own _ _); [discriminate E|].
        destruct (existsb _ Compression.Object_prototype_keys);
          [|discriminate E].
        injection E as <-. left. split; [reflexivity|].
        exists t. now left.
      * injection E as <-. right; left. split; [reflexivity|].
        eexists. split; [now left|]. split; [discriminate|discriminate].
      * injection E as <-. right; left. split; [reflexivity|].
        eexists. split; [now left|]. split; [discriminate|discriminate].
Qed.

(** X22. Let the metadata fields that the summarizers read
    ([file_path], [command], [pattern]) be strings or absent, as their
    type here has it.  Then [compressToolOutput] throws for no tool but
    [Glob], and only above the threshold, and what it throws is one of
    the four [TypeError]s of the glob summarizer, each with its cause
    in the list of file names the summarizer works on: that list is no
    array; or it has a string entry and a directory is named like an
    inherited property; or it has an entry that is neither a string nor
    [null]; or it has a [null] entry. *)
Theorem compress_throws_only_for_glob
  (JSON_parse : jsstring -> option Compression.JsonValue)
  (RegExp_matches : Compression.SourceRegExp -> jsstring
                    -> list Compression.Match)
  (toolName : jsstring) (toolInput : option Compression.ToolInput)
  (output : jsstring) (e : Thrown) :
  Compression.compressToolOutput JSON_parse RegExp_matches toolName toolInput
    output = Throw e ->
  toolName = js "Glob"
  /\ 3000 < length output
  /\ match Compression.glob_files JSON_parse output with
     | Compression.JArray files =>
         (e = JsError (js "byDir[dir].push is not a function")
          /\ exists f, In (Compression.JString f) files)
         \/ (e = JsError (js "f.split is not a function")
             /\ exists f, In f files /\ f <> Compression.JNull
                          /\ forall t, f <> Compression.JString t)
         \/ (e = JsError
                   (js "Cannot read properties of null (reading 'split')")
             /\ In Compression.JNull files)
     | _ => e = JsError (js "files.forEach is not a function")
     end.
Proof.
  unfold Compression.compressToolOutput. intros H.
  destruct (Nat.leb_spec (length output) Compression.COMPRESSION_THRESHOLD)
    as [_|Hlong]; [discriminate H|].
  destruct (str_eqb toolName (js "Read")); [discriminate H|].
  destruct (str_eqb toolName (js "Bash")); [discriminate H|].
  destruct (str_eqb toolName (js "Grep")); [discriminate H|].
  destruct (str_eqb toolName (js "Glob")) eqn:Eglob.
  2:{ destruct (str_eqb toolName (js "Edit") || str_eqb toolName (js "Write"));
        discriminate H. }
  apply str_eqb_eq in Eglob. split; [exact Eglob|]. split; [exact Hlong|].
  destruct (Compression.compressGlobOutput JSON_parse toolInput output)
    as [text|e'] eqn:E; [discriminate H|].
  injection H as <-. unfold Compression.compressGlobOutput in E.
  destruct (Compression.glob_files JSON_parse output) as [| | | |files|];
    try (injection E as <-; reflexivity).
  destruct (Compression.glob_group_all [] files) as [byDir|e''] eqn:Eg;
    [discriminate E|].
  injection E as <-.
  apply glob_group_all_errors in Eg. exact Eg.
Qed.

Lemma compress_throws_only_for_glob_witness :
  Compression.compressToolOutput (fun _ => None) (fun _ _ => []) (js "Glob")
    None constructor_listing = Throw (not_a_function "byDir[dir].push")
  /\ 3000 < length constructor_listing.
Proof.
  assert (Compression.compressToolOutput (fun _ => None) (fun _ _ => [])
            (js "Glob") None constructor_listing
          = Throw (not_a_function "byDir[dir].push")) as H
    by (vm_compute; reflexivity).
  split; [exact H|].
  exact (proj1 (proj2 (@compress_throws_only_for_glob (fun _ => None)
                         (fun _ _ => []) (js "Glob") None
                         constructor_listing _ H))).
Defined.

(** ** The grep summary *)

Lemma includes_second_part (first before x : jsstring)
  (others : list jsstring) :
  includes (join [] (first :: (before ++ x) :: others)) x = true.
Proof.
  rewrite join_empty_sep. cbn [concat].
  rewrite <- (app_assoc before x), (app_assoc first before).
  apply includes_middle.
Qed.

Lemma before_colon_spec (line file : jsstring) :
  Compression.before_colon line = Some file ->
  ~ In 58%N file /\ startsWith line (file ++ [58%N]) = true.
Proof.
  revert file. induction line as [|c line IH]; intros file H; simpl in H.
  - discriminate H.
  - destruct (N.eqb_spec c 58) as [->|Hc].
    + injection H as <-. split; [intros []|].
      cbn [app startsWith]. rewrite N.eqb_refl. apply startsWith_nil.
    + destruct (Compression.before_colon line) as [f|]; [|discriminate H].
      injection H as <-. destruct (IH f eq_refl) as [Hno Hstart]. split.
      * intros [Hin|Hin]; [congruence|contradiction].
      * simpl. now rewrite N.eqb_refl, Hstart.
Qed.

Lemma grep_files_spec (lines : list jsstring) (file : jsstring) :
  In file (Compression.grep_files lines) ->
  file <> [] /\ ~ In 58%N file
  /\ exists line, In line lines /\ startsWith line (file ++ [58%N]) = true.
Proof.
  induction lines as [|line rest IH]; intros H; simpl in H; [contradiction|].
  unfold Compression.grep_file_of in H.
  destruct (Compression.before_colon line) as [[|c f]|] eqn:E.
  - destruct (IH H) as (Hne & Hno & l & Hl & Hs). eauto 6 using in_cons.
  - destruct H as [<-|H].
    + apply before_colon_spec in E as [Hno Hs].
      split; [discriminate|]. split; [exact Hno|].
      exists line. split; [now left|exact Hs].
    + destruct (IH H) as (Hne & Hno & l & Hl & Hs). eauto 6 using in_cons.
  - destruct (IH H) as (Hne & Hno & l & Hl & Hs). eauto 6 using in_cons.
Qed.

Lemma grep_files_length (lines : list jsstring) :
  length (Compression.grep_files lines) <= length lines.
Proof.
  induction lines as [|line rest IH]; simpl; [lia|].
  destruct (Compression.grep_file_of line); simpl; lia.
Qed.

Lemma dedupe_by_length {A} (eqb : A -> A -> bool) (seen xs : list A) :
  length (dedupe_by eqb seen xs) <= length xs.
Proof.
  revert seen. induction xs as [|x xs IH]; intros seen; simpl; [lia|].
  destruct (existsb (eqb x) seen); simpl; [specialize (IH seen)
                                          |specialize (IH (x :: seen))]; lia.
Qed.

Lemma before_colon_complete (file rest : jsstring) :
  ~ In 58%N file ->
  Compression.before_colon (file ++ 58%N :: rest) = Some file.
Proof.
  induction file as [|c file IH]; intros Hno; [reflexivity|].
  cbn [app Compression.before_colon].
  destruct (N.eqb_spec c 58) as [->|_]; [exfalso; apply Hno; now left|].
  rewrite IH; [reflexivity|]. intros Hin. apply Hno. now right.
Qed.

Lemma grep_files_complete (lines : list jsstring) (line file : jsstring) :
  In line lines -> file <> [] -> ~ In 58%N file ->
  startsWith line (file ++ [58%N]) = true ->
  In file (Compression.grep_files lines).
Proof.
  intros Hline Hne Hno Hstart.
  apply startsWith_skipn in Hstart. rewrite <- app_assoc in Hstart.
  cbn [app] in Hstart.
  assert (Compression.grep_file_of line = Some file) as Hfile.
  { unfold Compression.grep_file_of. rewrite Hstart.
    rewrite before_colon_complete by exact Hno.
    destruct file; [contradiction|reflexivity]. }
  clear Hstart. induction lines as [|l rest IH]; [contradiction|].
  cbn [Compression.grep_files]. destruct Hline as [->|Hline].
  - rewrite Hfile. now left.
  - destruct (Compression.grep_file_of l); [right|]; now apply IH.
Qed.

(** X23. The grep summary reports as matches the number of non-empty
    lines of the output, and as files the number of different texts
    that stand, in some such line, before its first colon and are not
    empty.  No file is counted twice, a line that starts with a colon
    or has none names no file, and so the number of files never exceeds
    the number of matches. *)
Theorem grep_summary_counts (toolInput : option Compression.ToolInput)
  (output : jsstring) :
  let matches := grep_matches output in
  let files := grep_named_files output in
  includes (Compression.compressGrepOutput toolInput output)
    (js " Found in " ++ num (length files) ++ js " files, "
     ++ num (length matches) ++ js " matches") = true
  /\ (forall line,
         In line matches <-> In line (split LF output) /\ line <> [])
  /\ NoDup files
  /\ (forall file,
         In file files
         <-> file <> [] /\ ~ In 58%N file
             /\ exists line,
                  In line matches
                  /\ startsWith line (file ++ [58%N]) = true)
  /\ length files <= length matches.
Proof.
  cbv zeta. split; [|split; [|split; [|split]]].
  - unfold Compression.compressGrepOutput.
    fold (grep_matches output). fold (grep_named_files output).
    destruct (0 <? length (grep_named_files output));
      destruct (10 <? length (grep_matches output));
      cbn [app]; apply includes_second_part.
  - intros line. unfold grep_matches, filter_nonempty.
    rewrite filter_In. destruct line; intuition congruence.
  - apply dedupe_by_NoDup. exact str_eqb_eq.
  - intros file. unfold grep_named_files.
    rewrite (@dedupe_by_In _ _ str_eqb_eq). split.
    + intros [Hin _]. now apply grep_files_spec.
    + intros (Hne & Hno & line & Hline & Hstart).
      split; [|intros []]. now apply grep_files_complete with (line := line).
  - unfold grep_named_files.
    etransitivity; [apply dedupe_by_length|apply grep_files_length].
Qed.

(** ** Loading the engine once *)

Ltac no_import_step :=
  first
    [ apply emits_ret | apply emits_throw | apply emits_get
    | apply emits_Date_now; discriminate
    | apply emits_console; discriminate
    | apply emits_generateId; discriminate
    | apply emits_call; discriminate
    | apply emits_call_for; discriminate
    | apply emits_modify; intros;
      first [reflexivity | destruct (lookup_file _ _); reflexivity]
    | apply emits_bind; [|intros]
    | apply emits_try_catch; [|intros]
    | apply emits_try_finally
    | match goal with
      | |- emits _ (match ?x with _ => _ end) => destruct x
      | |- emits _ (if ?x then _ else _) => destruct x
      end ].

Lemma prune_loop_no_import (host : Host) (olds : list Backup) :
  emits not_import (prune_loop host olds).
Proof.
  induction olds as [|b rest IH]; simpl; [apply emits_ret|].
  apply emits_bind; [|intros _; exact IH].
  unfold unlinkSync. repeat no_import_step.
Qed.

Lemma open_loaded_no_import (host : Host) (overrides : ConfigOverrides) :
  emits not_import (open_loaded host overrides).
Proof.
  unfold open_loaded. cbv zeta.
  apply emits_bind; [apply emits_get|intros here].
  apply emits_bind; [apply emits_get|intros env].
  apply emits_bind; [unfold mkdir_recursive; no_import_step|intros _].
  apply emits_bind.
  { unfold withMemvidLock, mkdir_recursive, touch, lockfile_lock,
      lockfile_release, open_locked, existsSync, statSync_size, sdk_create,
      sdk_use, renameSync, unlinkSync.
    repeat no_import_step. }
  intros handle.
  apply emits_bind; [no_import_step|intros id].
  apply emits_bind.
  { unfold pruneBackups.
    apply emits_try_catch; [|intros; apply emits_ret].
    apply emits_bind; [unfold new_RegExp; repeat no_import_step|intros src].
    apply emits_bind; [unfold readdirSync; repeat no_import_step|intros names].
    apply emits_bind; [apply emits_get|intros cwd0].
    apply prune_loop_no_import. }
  intros _. repeat no_import_step.
Qed.

Lemma open_loaded_keeps_loaded (host : Host) (overrides : ConfigOverrides) :
  keeps sdkLoaded (open_loaded host overrides).
Proof.
  unfold open_loaded. cbv zeta.
  apply keeps_bind; [apply keeps_get|intros here].
  apply keeps_bind; [apply keeps_get|intros env].
  apply keeps_bind;
    [unfold mkdir_recursive; apply keeps_call; reflexivity|intros _].
  apply keeps_bind;
    [apply keeps_withMemvidLock; try reflexivity;
     apply keeps_open_locked; reflexivity|intros handle].
  apply keeps_bind; [apply keeps_generateId; reflexivity|intros id].
  apply keeps_bind; [apply keeps_pruneBackups; reflexivity|intros _].
  apply keeps_bind; [|intros _; apply keeps_ret].
  destruct (debug _); [apply keeps_console; reflexivity|apply keeps_ret].
Qed.

(** X24. The engine is imported at most once per process: a
    [Mind.open] that returns leaves the engine marked as loaded, and
    once it is marked, no [Mind.open] imports it again, whether it
    returns or throws.  A failed import marks nothing, so the next open
    tries again. *)
Theorem engine_imported_once (host : Host) (overrides : ConfigOverrides)
  (w : World) :
  (forall mind w',
      Mind_open host overrides w = (Ok mind, w') -> sdkLoaded w' = true)
  /\ (sdkLoaded w = true ->
      sdkLoaded (snd (Mind_open host overrides w)) = true
      /\ exists calls,
          log (snd (Mind_open host overrides w)) = log w ++ calls
          /\ ~ In c_import_sdk calls)
  /\ (forall e,
         sdkLoaded w = false ->
         fault host (log w) c_import_sdk = Some e ->
         Mind_open host overrides w = (Throw e, record c_import_sdk w)).
Proof.
  assert (forall w0, Mind_open host overrides w0
                     = (loadSDK host ;; open_loaded host overrides) w0)
    as Hsplit by reflexivity.
  split; [|split].
  - intros mind w' H. rewrite Hsplit in H.
    apply bind_Ok in H as (u & w1 & Hload & H).
    pose proof (open_loaded_keeps_loaded host overrides w1) as Hkeep.
    rewrite H in Hkeep. simpl in Hkeep. rewrite Hkeep.
    unfold loadSDK, bind, get, call, modify in Hload.
    destruct (sdkLoaded w) eqn:E.
    + injection Hload as _ <-. exact E.
    + destruct (fault host (log w) c_import_sdk); [discriminate Hload|].
      injection Hload as _ <-. reflexivity.
  - intros Hloaded.
    assert (Mind_open host overrides w = open_loaded host overrides w) as ->.
    { rewrite Hsplit. unfold bind at 1. unfold loadSDK, bind, get.
      now rewrite Hloaded. }
    split.
    + now rewrite open_loaded_keeps_loaded.
    + destruct (open_loaded_no_import host overrides w) as (calls & Hlog & Hall).
      exists calls. split; [exact Hlog|].
      rewrite Forall_forall in Hall. intros Hin.
      now apply (Hall _ Hin).
  - intros e Hnot Hfault. rewrite Hsplit.
    unfold bind at 1. unfold loadSDK, bind, get, call.
    now rewrite Hnot, Hfault.
Qed.

Example second_open_example :
  let w1 := snd (Mind_open quiet_host no_overrides fresh_world) in
  map call_kind (log w1)
  = [js "import"; js "mkdir"; js "mkdir"; js "touch"; js "lock"; js "create";
     js "release"; js "random"; js "readdir"]
  /\ map call_kind (skipn (length (log w1))
                      (log (snd (Mind_open quiet_host no_overrides w1))))
     = [js "mkdir"; js "mkdir"; js "touch"; js "lock"; js "stat"; js "use";
        js "release"; js "random"; js "readdir"].
Proof. vm_compute. split; reflexivity. Qed.

(** ** A listing the glob summarizer cannot read is lost *)

(** X25. When the glob tool lists, in an output above the threshold
    that is no JSON, a path in a directory named like an inherited
    property, the observation is lost.  The handler still returns.  It
    gets the store as for any observed tool, which may load the engine
    and create or open the memory file; then the [TypeError] of the
    summarizer ("byDir[dir].push is not a function") is caught and
    written to the console, and nothing is stored: there is no [put],
    nor any other operation on the open store.  When getting the store
    fails, that error is written to the console instead. *)
Theorem glob_observation_is_dropped (host : Host)
  (memoryPath sessionID output : jsstring)
  (metadata : option Compression.ToolInput) (w : World) :
  JSON_parse host output = None ->
  3000 < length output ->
  existsb in_inherited_dir (filter_nonempty (split LF output)) = true ->
  exists w' opening e,
    tool_execute_after host memoryPath (js "Glob") sessionID
      (OutputString output) metadata w = (Ok tt, w')
    /\ log w' = log w ++ opening ++ [c_console (LogCaptureError e)]
    /\ Forall (fun c => ~ store_operation c) opening
    /\ match getMind host (only_memoryPath memoryPath) w with
       | (Ok _, w1) =>
           log w1 = log w ++ opening
           /\ e = JsError (js "byDir[dir].push is not a function")
       | (Throw e1, w1) => log w1 = log w ++ opening /\ e = e1
       end.
Proof.
  intros Hjson Hlong Hdir.
  assert (Compression.compressToolOutput (JSON_parse host)
            (regexp_matches host) (js "Glob") metadata output
          = Throw (not_a_function "byDir[dir].push")) as Hthrow.
  { unfold Compression.compressToolOutput.
    destruct (Nat.leb_spec (length output) Compression.COMPRESSION_THRESHOLD)
      as [Hle|_]; [unfold Compression.COMPRESSION_THRESHOLD in Hle; lia|].
    decide_tool.
    pose proof (@compressGlobOutput_listing (JSON_parse host) metadata output
                  Hjson) as H.
    rewrite Hdir in H. now rewrite H. }
  assert (emits (fun c => ~ store_operation c)
            (getMind host (only_memoryPath memoryPath))) as Hopen.
  { apply emits_getMind. intros c Hc. destruct c; simpl in *;
      solve [tauto | discriminate Hc]. }
  destruct (Hopen w) as (opening & Hlog & Hcalls).
  unfold tool_execute_after.
  replace (existsb (str_eqb (js "Glob")) OBSERVED_TOOLS) with true
    by (vm_compute; reflexivity).
  cbn [negb]. unfold try_catch. unfold bind at 1.
  destruct (getMind host (only_memoryPath memoryPath) w) as [[mind|e1] w1].
  - unfold bind at 1. unfold ret at 1. unfold bind at 1. rewrite Hthrow.
    cbn [lift]. unfold throw, console_error.
    exists (record (c_console (LogCaptureError
                                 (not_a_function "byDir[dir].push"))) w1),
           opening, (not_a_function "byDir[dir].push").
    split; [reflexivity|]. cbn [log record set_log snd] in *.
    rewrite Hlog, <- app_assoc. auto.
  - unfold console_error.
    exists (record (c_console (LogCaptureError e1)) w1), opening, e1.
    split; [reflexivity|]. cbn [log record set_log snd] in *.
    rewrite Hlog, <- app_assoc. auto.
Qed.

Lemma glob_observation_is_dropped_witness :
  JSON_parse quiet_host inherited_listing = None
  /\ 3000 < length inherited_listing
  /\ existsb in_inherited_dir (filter_nonempty (split LF inherited_listing))
     = true
  /\ exists w' opening e,
       tool_execute_after quiet_host (js "/proj/.claude/mind.mv2")
         (js "Glob") (js "session-1") (OutputString inherited_listing) None
         (project_world []) = (Ok tt, w')
       /\ log w' = log (project_world []) ++ opening
                   ++ [c_console (LogCaptureError e)]
       /\ Forall (fun c => ~ store_operation c) opening.
Proof.
  assert (JSON_parse quiet_host inherited_listing = None) as H1
    by (vm_compute; reflexivity).
  assert (3000 < length inherited_listing) as H2
    by (apply Nat.ltb_lt; vm_compute; reflexivity).
  assert (existsb in_inherited_dir
            (filter_nonempty (split LF inherited_listing)) = true) as H3
    by (vm_compute; reflexivity).
  split; [exact H1|]. split; [exact H2|]. split; [exact H3|].
  destruct (@glob_observation_is_dropped quiet_host
              (js "/proj/.claude/mind.mv2") (js "session-1")
              inherited_listing None (project_world []) H1 H2 H3)
    as (w' & opening & e & Hrun & Hlog & Hcalls & _).
  exists w', opening, e. auto.
Defined.

(** ** Pruning the backups of a simply named memory file *)

Lemma digit_not_space (c : N) :
  Compression.is_digit c = true -> is_space c = false.
Proof.
  unfold Compression.is_digit, is_space. intros H.
  apply andb_true_iff in H as [H1 H2].
  apply N.leb_le in H1, H2.
  repeat match goal with
         | |- context [N.eqb c ?k] => rewrite (proj2 (N.eqb_neq c k)) by lia
         | |- context [N.leb c ?k] =>
             first [ rewrite (proj2 (N.leb_gt c k)) by lia
                   | rewrite (proj2 (N.leb_le c k)) by lia ]
         | |- context [N.leb ?k c] =>
             first [ rewrite (proj2 (N.leb_gt k c)) by lia
                   | rewrite (proj2 (N.leb_le k c)) by lia ]
         end.
  reflexivity.
Qed.

Lemma digits_prefix_all (ds : jsstring) :
  forallb Compression.is_digit ds = true -> digits_prefix ds = ds.
Proof.
  induction ds as [|d ds IH]; intros H; [reflexivity|].
  simpl in H. apply andb_true_iff in H as [Hd Hds].
  simpl. now rewrite Hd, IH.
Qed.

(** *** The number read off a name *)

Lemma to_double_exact (v : Z) :
  (Z.abs v < 2 ^ 53)%Z -> to_double v = Finite v.
Proof.
  intros H. unfold to_double. cbv zeta.
  destruct (Z.ltb_spec (Z.abs v) (2 ^ 53)); [reflexivity|lia].
Qed.

Example to_double_examples :
  to_double 9007199254740993 = Finite 9007199254740992
  /\ to_double 9007199254740995 = Finite 9007199254740996
  /\ to_double (-9007199254740993) = Finite (-9007199254740992)
  /\ to_double (2 ^ 1024 - 2 ^ 970 - 1) = Finite (2 ^ 1024 - 2 ^ 971)
  /\ to_double (2 ^ 1024 - 2 ^ 970) = Infinity false
  /\ parseInt (js "1700000000000") = Finite 1700000000000
  /\ parseInt (js "  -12px") = Finite (-12)
  /\ parseInt (js "px") = NaN.
Proof. vm_compute. repeat split. Qed.

Lemma to_double_orders (v : Z) : orders (to_double v).
Proof.
  unfold to_double. cbv zeta.
  assert (2 ^ 53 < 2 ^ 1024)%Z as Hpow by (apply Z.pow_lt_mono_r; lia).
  destruct (Z.ltb_spec (Z.abs v) (2 ^ 53)) as [Hsmall|Hbig].
  - cbn [orders]. revert Hpow Hsmall.
    generalize (2 ^ 1024)%Z as top. generalize (2 ^ 53)%Z as exact.
    intros; lia.
  - match goal with
    | |- context [Z.shiftl ?q ?e] =>
        match q with
        | (if _ then _ else _) => set (m := Z.shiftl q e)
        end
    end.
    assert (0 <= m)%Z as Hm.
    { unfold m. apply Z.shiftl_nonneg.
      assert (0 <= Z.shiftr (Z.abs v) (Z.log2 (Z.abs v) - 52))%Z as Hq
        by (apply Z.shiftr_nonneg; lia).
      destruct (_ || _); lia. }
    clearbody m.
    destruct (Z.leb_spec (2 ^ 1024) m) as [|Hlt]; [exact I|].
    cbn [orders]. revert Hlt. generalize (2 ^ 1024)%Z as top.
    intros top Hlt. destruct (v <? 0)%Z; lia.
Qed.

Lemma decimal_value_from (ds : jsstring) :
  forallb Compression.is_digit ds = true ->
  forall acc,
    (fold_left (fun acc c => acc * 10 + (c - 48)) ds acc
     < (acc + 1) * 10 ^ N.of_nat (length ds))%N.
Proof.
  induction ds as [|d ds IH]; intros H acc.
  - simpl. lia.
  - simpl in H. apply andb_true_iff in H as [Hd Hds].
    unfold Compression.is_digit in Hd. apply andb_true_iff in Hd as [H1 H2].
    apply N.leb_le in H1, H2.
    cbn [fold_left length]. specialize (IH Hds (acc * 10 + (d - 48))%N).
    rewrite Nat2N.inj_succ, N.pow_succ_r'.
    remember (10 ^ N.of_nat (length ds))%N as p.
    assert ((acc * 10 + (d - 48) + 1) * p <= (acc + 1) * (10 * p))%N; [|lia].
    replace ((acc + 1) * (10 * p))%N with ((acc * 10 + 10) * p)%N by lia.
    apply N.mul_le_mono_r. lia.
Qed.

Lemma decimal_value_short (ds : jsstring) :
  forallb Compression.is_digit ds = true ->
  length ds <= 15 ->
  (Z.abs (Z.of_N (Compression.decimal_value ds)) < 2 ^ 53)%Z.
Proof.
  intros Hds Hlen. pose proof (decimal_value_from ds Hds 0%N) as H.
  fold (Compression.decimal_value ds) in H.
  assert (10 ^ N.of_nat (length ds) <= 10 ^ 15)%N as Hpow
    by (apply N.pow_le_mono_r; lia).
  assert (10 ^ 15 < 2 ^ 53)%N as Hconst by (vm_compute; reflexivity).
  assert (Z.of_N (2 ^ 53) = 2 ^ 53)%Z as Hz by (vm_compute; reflexivity).
  rewrite <- Hz. lia.
Qed.

Lemma parseInt_digits (d : N) (ds : jsstring) :
  forallb Compression.is_digit (d :: ds) = true ->
  parseInt (d :: ds)
  = to_double (Z.of_N (Compression.decimal_value (d :: ds))).
Proof.
  intros H. pose proof (digits_prefix_all _ H) as Hall.
  simpl in H. apply andb_true_iff in H as [Hd Hds].
  unfold parseInt. cbn [trimStart]. rewrite (digit_not_space d Hd).
  assert (N.eqb d 45 = false /\ N.eqb d 43 = false) as [-> ->].
  { unfold Compression.is_digit in Hd. apply andb_true_iff in Hd as [H1 _].
    apply N.leb_le in H1. split; apply N.eqb_neq; lia. }
  rewrite Hall. reflexivity.
Qed.

Lemma parseInt_orders (s : jsstring) :
  parseInt s <> NaN -> orders (parseInt s).
Proof.
  unfold parseInt.
  destruct (match trimStart s with
            | [] => (false, trimStart s)
            | c :: r => _
            end) as [negative rest].
  destruct (digits_prefix rest); [contradiction|].
  intros _. apply to_double_orders.
Qed.

(** The number [pruneBackups] reads off the name of a backup: the
    double nearest to the number written after [.backup-]. *)
Lemma backup_name_time (baseName f : jsstring) :
  is_backup_of baseName f = true ->
  exists digits,
    f = baseName ++ js ".backup-" ++ digits
    /\ forallb Compression.is_digit digits = true
    /\ parseInt (or_str (pop (split 45 f)) (js "0"))
       = to_double (Z.of_N (Compression.decimal_value digits)).
Proof.
  unfold is_backup_of. intros H. apply andb_true_iff in H as [Hstart Hdigits].
  apply startsWith_skipn in Hstart.
  rewrite length_app in Hstart. change (length (js ".backup-")) with 8 in Hstart.
  destruct (skipn (length baseName + 8) f) as [|d ds] eqn:E;
    [discriminate Hdigits|].
  exists (d :: ds). split; [now rewrite <- app_assoc in Hstart|].
  split; [exact Hdigits|].
  assert (~ In 45%N (d :: ds)) as Hdash.
  { intros Hin. rewrite forallb_forall in Hdigits.
    apply Hdigits in Hin. discriminate Hin. }
  assert (exists front, split 45 f = front ++ [d :: ds]) as (front & Hsplit).
  { rewrite Hstart.
    change (js ".backup-") with (js ".backup" ++ [45%N]).
    rewrite (app_assoc baseName).
    rewrite split_app_tail by exact Hdash.
    rewrite split_snoc_sep, last_last. eexists. reflexivity. }
  rewrite Hsplit. unfold pop.
  destruct (front ++ [d :: ds]) eqn:Ef.
  { apply app_eq_nil in Ef as [_ Ef]. discriminate Ef. }
  rewrite <- Ef, last_last. cbn [or_str].
  now apply parseInt_digits.
Qed.

(** X18. [pruneBackups] never throws.  When the pattern is a valid
    regular expression and the directory can be listed, it spares
    [keepCount] of the entries that the pattern accepts (all of them
    when there are no more) and tries to delete every other one, each
    once, a deletion that fails not stopping the others; otherwise it
    deletes nothing.  When none of the times read off the names is
    [NaN], the spared entries followed by the deleted ones are the
    accepted entries sorted by these times, later first, entries with
    the same time staying in the order of the listing.  The times are
    doubles: of four backups numbered 9007199254740992, ...993, ...994
    and ...996, listed in this order, the one numbered ...993 is
    deleted, its number reading as ...992. *)
Theorem pruneBackups_attempts (host : Host) (memoryPath : jsstring)
  (keepCount : nat) (w : World) :
  (exists w' calls kept doomed,
      pruneBackups host memoryPath keepCount w = (Ok tt, w')
      /\ log w' = log w ++ calls
      /\ unlinked calls = map b_path doomed
      /\ match new_RegExp host
                 (backupPattern_source
                    (or_str (pop (split SLASH memoryPath)) (js "mind.mv2"))) w,
               fault host (log w) (c_readdir (Path.dirname memoryPath))
         with
         | (Ok _, _), None =>
             let accepted := accepted_backups host w memoryPath in
             Permutation (kept ++ doomed) accepted
             /\ length kept = Nat.min keepCount (length accepted)
             /\ (Forall (fun b => b_time b <> NaN) accepted ->
                 kept ++ doomed
                 = stable_sort (later_first backup_time) accepted)
         | _, _ => doomed = []
         end)
  /\ unlinked
       (log (snd (pruneBackups quiet_host (js "/proj/.claude/mind.mv2") 3
                    large_times_world)))
     = [js "/proj/.claude/mind.mv2.backup-9007199254740993"].
Proof.
  split; [|vm_compute; reflexivity].
  destruct (pruneBackups_unlinks host memoryPath keepCount w)
    as (w' & calls & Hrun & Hlog & Hun).
  exists w', calls.
  destruct (new_RegExp host _ w) as [[src|e] w1].
  2:{ exists [], []. auto. }
  destruct (fault host (log w) (c_readdir (Path.dirname memoryPath))).
  { exists [], []. auto. }
  exists (firstn keepCount (backups_found host w memoryPath)),
         (skipn keepCount (backups_found host w memoryPath)).
  split; [exact Hrun|]. split; [exact Hlog|]. split; [exact Hun|].
  cbv zeta. rewrite firstn_skipn. split; [|split].
  - symmetry. apply stable_sort_perm.
  - rewrite length_firstn. f_equal.
    apply Permutation_length. symmetry. apply stable_sort_perm.
  - intros Hall. apply stable_sort_newer_first.
    rewrite Forall_forall in Hall |- *. intros b Hb.
    specialize (Hall b Hb).
    apply in_map_iff in Hb as (f & <- & _). cbn [b_time] in *.
    now apply parseInt_orders.
Qed.

(** X26. For a memory file with a simple name (at most one dot, no
    other special character) in a directory that can be listed,
    [pruneBackups] considers exactly the entries named after the file,
    [.backup-] and digits.  The time it reads off such a name is the
    number written there when that has at most 15 digits, as every
    [Date.now()] has, and always a time that orders; it tries to delete
    the entries beyond the [keepCount] first in later-first order of
    these times and nothing else, and none of them has a later time
    than any it keeps. *)
Theorem pruning_of_simple_name (host : Host) (memoryPath : jsstring)
  (keepCount : nat) (w : World) :
  let baseName := or_str (pop (split SLASH memoryPath)) (js "mind.mv2") in
  let dir := Path.dirname memoryPath in
  let accepted := accepted_backups host w memoryPath in
  let found := stable_sort (later_first backup_time) accepted in
  simple_file_name baseName = true ->
  fault host (log w) (c_readdir dir) = None ->
  map b_name accepted = filter (is_backup_of baseName) (entries w dir)
  /\ Forall (fun b =>
               orders (b_time b)
               /\ forall digits,
                    b_name b = baseName ++ js ".backup-" ++ digits ->
                    length digits <= 15 ->
                    b_time b
                    = Finite (Z.of_N (Compression.decimal_value digits)))
       accepted
  /\ (forall kept doomed,
         In kept (firstn keepCount found) ->
         In doomed (skipn keepCount found) ->
         (backup_time doomed <= backup_time kept)%Z)
  /\ exists w' calls,
      pruneBackups host memoryPath keepCount w = (Ok tt, w')
      /\ log w' = log w ++ calls
      /\ unlinked calls = map b_path (skipn keepCount found).
Proof.
  intros baseName dir accepted found Hsimple Hlist.
  assert (forall f, RegExp_test host (backupPattern_source baseName) f
                    = is_backup_of baseName f) as Htest
    by (intros f; now apply RegExp_test_backupPattern).
  assert (Forall (fun b =>
               orders (b_time b)
               /\ forall digits,
                    b_name b = baseName ++ js ".backup-" ++ digits ->
                    length digits <= 15 ->
                    b_time b
                    = Finite (Z.of_N (Compression.decimal_value digits)))
            accepted) as Htimes.
  { rewrite Forall_forall. intros b Hb. unfold accepted, accepted_backups in Hb.
    fold baseName in Hb. fold dir in Hb.
    apply in_map_iff in Hb as (f & <- & Hf). cbn [b_time b_name].
    apply filter_In in Hf as [_ Hf]. rewrite Htest in Hf.
    apply backup_name_time in Hf as (digits0 & Hname & Hdigits & ->).
    split; [apply to_double_orders|].
    intros digits Hname' Hlen. rewrite Hname in Hname'.
    apply app_inv_head in Hname'. apply app_inv_head in Hname'. subst digits0.
    apply to_double_exact. now apply decimal_value_short. }
  assert (backups_found host w memoryPath = found) as Hfound.
  { unfold backups_found, found. apply stable_sort_newer_first.
    eapply Forall_impl; [|exact Htimes]. intros b [Hb _]. exact Hb. }
  split; [|split; [|split]].
  - unfold accepted, accepted_backups. fold baseName. fold dir.
    rewrite (filter_ext _ _ Htest).
    rewrite map_map. cbn [b_name]. now rewrite map_id.
  - exact Htimes.
  - apply pruned_are_oldest.
  - destruct (pruneBackups_unlinks host memoryPath keepCount w)
      as (w' & calls & Hrun & Hlog & Hun).
    exists w', calls. split; [exact Hrun|]. split; [exact Hlog|].
    rewrite Hun. fold baseName. fold dir.
    rewrite new_RegExp_backupPattern by exact Hsimple.
    now rewrite Hlist, Hfound.
Qed.

Lemma pruning_of_simple_name_witness :
  simple_file_name
    (or_str (pop (split SLASH (js "/proj/.claude/mind.mv2"))) (js "mind.mv2"))
  = true
  /\ fault quiet_host (log five_backups_world)
       (c_readdir (Path.dirname (js "/proj/.claude/mind.mv2"))) = None
  /\ exists w' calls,
       pruneBackups quiet_host (js "/proj/.claude/mind.mv2") 3
         five_backups_world = (Ok tt, w')
       /\ log w' = log five_backups_world ++ calls
       /\ unlinked calls
          = map b_path
              (skipn 3
                 (stable_sort (later_first backup_time)
                    (accepted_backups quiet_host five_backups_world
                       (js "/proj/.claude/mind.mv2")))).
Proof.
  split; [vm_compute; reflexivity|]. split; [reflexivity|].
  exact (proj2 (proj2 (proj2 (@pruning_of_simple_name quiet_host
                         (js "/proj/.claude/mind.mv2") 3 five_backups_world
                         eq_refl eq_refl)))).
Defined.
